(** * device-agent gateway: framing, authentication, sessions, ACK correlation

    A shallow embedding of the gateway core of the device-agent repository
    (package [tcpserver]: message codec, [Session]/[SessionManager],
    [ACKWaiter], [Server]; package [security]: [Authenticator] and
    [MemoryNonceStore]) together with the properties its specification
    states about them.

    Conventions.
    - Go's [error] is [option error]: [None] is [nil], [Some msg] carries the
      text of the error.
    - Go maps are [gmap]s; pointers are locations into an explicit store.
    - [int64] and [uint32] values are [Z] with the wrap-around written out.
    - Every reading of [time.Now()] is explicit: an argument of the function
      that reads the clock, or the next value of a sequence of readings. *)

From Stdlib Require Import ZArith Lia.
From Stdlib.Strings Require Import Byte.
From stdpp Require Import base option list strings gmap pretty.

Local Open Scope string_scope.
Local Open Scope list_scope.
Local Open Scope Z_scope.

Definition error := string.

#[global] Instance byte_eq_dec : EqDecision byte := Byte.byte_eq_dec.

(* ===================================================================== *)
(** * Machine integers *)
(* ===================================================================== *)

Module Int.

Definition uint32 (z : Z) : Z := z mod 2 ^ 32.

(** Two's complement wrap-around of a mathematical integer to [int64]. *)
Definition int64 (z : Z) : Z := (z + 2 ^ 63) mod 2 ^ 64 - 2 ^ 63.

Definition MinInt64 : Z := - 2 ^ 63.
Definition MaxInt64 : Z := 2 ^ 63 - 1.

Definition is_int64 (z : Z) : Prop := MinInt64 <= z <= MaxInt64.

Definition sub64 (x y : Z) : Z := int64 (x - y).
Definition neg64 (x : Z) : Z := int64 (- x).
Definition mul64 (x y : Z) : Z := int64 (x * y).

Definition Z_of_byte (b : byte) : Z := Z.of_N (Byte.to_N b).

(** The conversion [byte(v)] of an unsigned integer: its low eight bits. *)
Definition byte_of_Z (z : Z) : byte :=
  match Byte.of_N (Z.to_N (z mod 256)) with
  | Some b => b
  | None => x00
  end.

End Int.

(* ===================================================================== *)
(** * Connections: the byte streams under [net.Conn] *)
(* ===================================================================== *)

Module Net.

(** What a read finds once the bytes already sent by the peer are used up:
    the peer has closed its side, or the read fails with an error of the
    transport (the read deadline set by the server is one). *)
Inductive ReadEnd :=
| AtEOF
| ReadFails (e : error).

Record Conn := mkConn {
  inbound : list byte;
  inbound_end : ReadEnd;
  outbound : list byte;
  conn_closed : bool
}.

Definition ErrNetClosing : error := "use of closed network connection".

Definition set_inbound (c : Conn) (bs : list byte) : Conn :=
  mkConn bs (inbound_end c) (outbound c) (conn_closed c).

(** [io.ReadFull(conn, buf)] with [len(buf) = n]. *)
Definition io_ReadFull (c : Conn) (n : nat) : Conn * (list byte + error) :=
  match n with
  | O => (c, inl [])
  | _ =>
    if conn_closed c then (c, inr ErrNetClosing)
    else if (n <=? length (inbound c))%nat
    then (set_inbound c (drop n (inbound c)), inl (take n (inbound c)))
    else (set_inbound c [],
          inr match inbound_end c, inbound c with
              | AtEOF, [] => "EOF"
              | AtEOF, _ => "unexpected EOF"
              | ReadFails e, _ => e
              end)
  end.

(** [conn.Write(buf)]. *)
Definition Write (c : Conn) (bs : list byte) : Conn * option error :=
  if conn_closed c then (c, Some ErrNetClosing)
  else (mkConn (inbound c) (inbound_end c) (outbound c ++ bs) false, None).

(** [conn.Close()]. *)
Definition Close (c : Conn) : Conn :=
  mkConn (inbound c) (inbound_end c) (outbound c) true.

End Net.

(* ===================================================================== *)
(** * The frame codec (package tcpserver) *)
(* ===================================================================== *)

Module Codec.
Import Int Net.

Definition ProtocolVersion : byte := x01.
Definition MaxMessageSize : Z := 1024 * 1024.

Definition MessageType := byte.
Definition TypeAuth : MessageType := x01.
Definition TypeAuthOK : MessageType := x02.
Definition TypePing : MessageType := x03.
Definition TypePong : MessageType := x04.
Definition TypeReport : MessageType := x05.
Definition TypeCMD : MessageType := x06.
Definition TypeACK : MessageType := x07.
Definition TypeErr : MessageType := x08.

Record Message := mkMessage {
  Version : byte;
  Type_ : MessageType;
  Payload : list byte
}.

(** [binary.BigEndian.Uint32] *)
Definition BigEndian_Uint32 (b : list byte) : Z :=
  match b with
  | [b0; b1; b2; b3] =>
    Z.lor (Z.lor (Z.lor (Z_of_byte b3) (Z.shiftl (Z_of_byte b2) 8))
                 (Z.shiftl (Z_of_byte b1) 16))
          (Z.shiftl (Z_of_byte b0) 24)
  | _ => 0
  end.

(** [binary.BigEndian.PutUint32] on a fresh four-byte buffer. *)
Definition BigEndian_PutUint32 (v : Z) : list byte :=
  [byte_of_Z (Z.shiftr v 24); byte_of_Z (Z.shiftr v 16);
   byte_of_Z (Z.shiftr v 8); byte_of_Z v].

Definition ReadMessage (conn : Conn) : Conn * (Message + error) :=
  match io_ReadFull conn 4 with
  | (conn, inr err) => (conn, inr ("read length: " +:+ err))
  | (conn, inl lengthBuf) =>
    let length := BigEndian_Uint32 lengthBuf in
    if MaxMessageSize <? length
    then (conn, inr ("message too large: " +:+ pretty length +:+ " bytes"))
    else
      match io_ReadFull conn (Z.to_nat length) with
      | (conn, inr err) => (conn, inr ("read message: " +:+ err))
      | (conn, inl msgBuf) =>
        if length <? 2 then (conn, inr "message too short")
        else
          match msgBuf with
          | v :: t :: payload =>
            let msg := mkMessage v t payload in
            if decide (Version msg = ProtocolVersion)
            then (conn, inl msg)
            else (conn, inr ("unsupported protocol version: "
                             +:+ pretty (Z_of_byte (Version msg))))
          | _ => (conn, inr "index out of range")
          end
      end
  end.

(** The buffer [fullBuf] that [WriteMessage] hands to [conn.Write]. *)
Definition fullBuf (msg : Message) : list byte :=
  let msgBuf := Version msg :: Type_ msg :: Payload msg in
  let lengthBuf := BigEndian_PutUint32 (uint32 (Z.of_nat (length msgBuf))) in
  lengthBuf ++ msgBuf.

Definition WriteMessage (conn : Conn) (msg : Message) : Conn * option error :=
  Net.Write conn (fullBuf msg).

(** [ReadMessage] returned an error. *)
Definition rejected (r : Conn * (Message + error)) : Prop :=
  exists conn err, r = (conn, inr err).

End Codec.

(* ===================================================================== *)
(** * Wall-clock time (package time) *)
(* ===================================================================== *)

Module Time.
Import Int.

(** An instant, in nanoseconds since the Unix epoch.  Go's [time.Time]
    spans far more than 64 bits of nanoseconds, so instants are unbounded
    and only [Duration] wraps. *)
Definition Time := Z.

(** [time.Duration]: an [int64] count of nanoseconds. *)
Definition Duration := Z.

Definition Millisecond : Duration := 1000000.
Definition Second : Duration := 1000000000.

(** [t.Unix()] *)
Definition Unix (t : Time) : Z := t / Second.

(** [t.Add(d)] *)
Definition Add (t : Time) (d : Duration) : Time := t + d.

(** [t.Sub(u)], which saturates at the ends of [int64]. *)
Definition Sub (t u : Time) : Duration :=
  Z.max MinInt64 (Z.min MaxInt64 (t - u)).

(** [t.After(u)] *)
Definition After (t u : Time) : bool := u <? t.

End Time.

(* ===================================================================== *)
(** * Authentication (package security) *)
(* ===================================================================== *)

Module Security.
Import Int Time.

(** The interface [NonceStore].  [AddNonce] takes the instant at which the
    store reads the clock. *)
Class NonceStore (S : Type) := {
  HasNonce : S -> string -> bool;
  AddNonce : S -> Time -> string -> Duration -> S * option error
}.

Record Authenticator (S : Type) := mkAuthenticator {
  keys : gmap string string;
  timeWindowSec : Z;
  nonceStore : S
}.
Arguments mkAuthenticator {S} _ _ _.
Arguments keys {S} _.
Arguments timeWindowSec {S} _.
Arguments nonceStore {S} _.

Definition NewAuthenticator {S} (keys : gmap string string)
    (timeWindowSec : Z) (nonceStore : S) : Authenticator S :=
  mkAuthenticator keys timeWindowSec nonceStore.

Definition abs (x : Z) : Z :=
  if x <? 0 then neg64 x else x.

Section WithHMAC.
(** [hex.EncodeToString] of the HMAC-SHA256 of a payload under a key
    (crypto/hmac, crypto/sha256, encoding/hex). *)
Variable hmac_sha256_hex : string -> string -> string.

Context {S : Type} `{NonceStore S}.

Definition calculateSignature (appid sn : string) (ts : Z)
    (nonce key : string) : string :=
  let payload := appid +:+ "|" +:+ sn +:+ "|" +:+ pretty ts +:+ "|" +:+ nonce in
  hmac_sha256_hex key payload.

Definition verifyTimestamp (a : Authenticator S) (clock : Time) (ts : Z)
    : option error :=
  let now := Unix clock in
  if timeWindowSec a <? abs (sub64 now ts)
  then Some "timestamp out of window"
  else None.

(** The [ttl] that [verifyNonce] passes to [AddNonce]. *)
Definition nonce_ttl (a : Authenticator S) : Duration :=
  mul64 (mul64 (timeWindowSec a) 2) Second.

Definition verifyNonce (a : Authenticator S) (clock : Time) (nonce : string)
    : Authenticator S * option error :=
  if HasNonce (nonceStore a) nonce
  then (a, Some "nonce already used")
  else
    let ttl := nonce_ttl a in
    match AddNonce (nonceStore a) clock nonce ttl with
    | (store, Some err) =>
      (mkAuthenticator (keys a) (timeWindowSec a) store,
       Some ("failed to store nonce: " +:+ err))
    | (store, None) =>
      (mkAuthenticator (keys a) (timeWindowSec a) store, None)
    end.

(** [clock] is the instant read by [verifyTimestamp], [clock'] the one
    read by the nonce store. *)
Definition VerifySignature (a : Authenticator S) (clock clock' : Time)
    (appid sn : string) (ts : Z) (nonce signature : string)
    : Authenticator S * option error :=
  match keys a !! appid with
  | None => (a, Some "invalid appid")
  | Some key =>
    match verifyTimestamp a clock ts with
    | Some err => (a, Some err)
    | None =>
      match verifyNonce a clock' nonce with
      | (a, Some err) => (a, Some err)
      | (a, None) =>
        let expectedSig := calculateSignature appid sn ts nonce key in
        if negb (bool_decide (signature = expectedSig))
        then (a, Some "invalid signature")
        else (a, None)
      end
    end
  end.

Definition GenerateSignature (appid sn : string) (ts : Z)
    (nonce key : string) : string :=
  calculateSignature appid sn ts nonce key.

End WithHMAC.

Record MemoryNonceStore := mkMemoryNonceStore {
  nonces : gmap string Time
}.

Definition NewMemoryNonceStore : MemoryNonceStore := mkMemoryNonceStore ∅.

#[global] Instance MemoryNonceStore_NonceStore : NonceStore MemoryNonceStore := {
  HasNonce m nonce := bool_decide (is_Some (nonces m !! nonce));
  AddNonce m clock nonce ttl :=
    (mkMemoryNonceStore (<[nonce := Time.Add clock ttl]> (nonces m)), None)
}.

Definition Cleanup (m : MemoryNonceStore) (now : Time) : MemoryNonceStore :=
  mkMemoryNonceStore
    (filter (fun kv : string * Time => negb (After now kv.2) = true) (nonces m)).

End Security.

(* ===================================================================== *)
(** * Sessions and the session manager (session.go) *)
(* ===================================================================== *)

Module Sessions.
Import Int Time Net Codec.

(** A [*Session]: a location of the store below. *)
Definition ptr := nat.

(** The fields of [Session].  The pair [closeCh]/[closeOnce] is the flag
    [closed]: [closeOnce] has run exactly when [closeCh] is closed. *)
Record Session := mkSession {
  ID : string;
  SN : string;
  AppID : string;
  Conn : Net.Conn;
  RemoteAddr : string;
  LoginAt : Time;
  LastPing : Time;
  Meta : gmap string string;
  closed : bool
}.

(** The zero value of [Session], read at a location never written. *)
#[global] Instance Session_inhabited : Inhabited Session :=
  populate (mkSession "" "" "" (mkConn [] AtEOF [] false) "" 0 0 ∅ false).

(** The store of sessions: every pointer held by the program is valid, so
    dereferencing is total. *)
Definition deref (h : gmap ptr Session) (s : ptr) : Session := h !!! s.

Definition NewSession (h : gmap ptr Session) (conn : Net.Conn)
    (uuid remoteAddr : string) (now now' : Time) : gmap ptr Session * ptr :=
  let s := fresh (dom h) in
  (<[s := mkSession uuid "" "" conn remoteAddr now now' ∅ false]> h, s).

Definition ErrSessionClosed : error := "session closed".

Definition set_Conn (x : Session) (c : Net.Conn) : Session :=
  mkSession (ID x) (SN x) (AppID x) c (RemoteAddr x) (LoginAt x)
            (LastPing x) (Meta x) (closed x).

Definition set_LastPing (x : Session) (t : Time) : Session :=
  mkSession (ID x) (SN x) (AppID x) (Conn x) (RemoteAddr x) (LoginAt x)
            t (Meta x) (closed x).

Definition set_auth (x : Session) (sn appid : string)
    (meta : gmap string string) : Session :=
  mkSession (ID x) sn appid (Conn x) (RemoteAddr x) (LoginAt x)
            (LastPing x) meta (closed x).

Definition SendMessage (h : gmap ptr Session) (s : ptr) (msg : Message)
    : gmap ptr Session * option error :=
  if closed (deref h s) then (h, Some ErrSessionClosed)
  else
    let '(conn, err) := WriteMessage (Conn (deref h s)) msg in
    (<[s := set_Conn (deref h s) conn]> h, err).

Definition UpdatePing (h : gmap ptr Session) (s : ptr) (now : Time)
    : gmap ptr Session :=
  <[s := set_LastPing (deref h s) now]> h.

Definition IsExpired (h : gmap ptr Session) (s : ptr) (now : Time)
    (timeout : Duration) : bool :=
  timeout <? Time.Sub now (LastPing (deref h s)).

Definition Close (h : gmap ptr Session) (s : ptr) : gmap ptr Session :=
  if closed (deref h s) then h
  else
    let x := deref h s in
    <[s := mkSession (ID x) (SN x) (AppID x) (Net.Close (Conn x))
                     (RemoteAddr x) (LoginAt x) (LastPing x) (Meta x) true]> h.

Definition IsClosed (h : gmap ptr Session) (s : ptr) : bool :=
  closed (deref h s).

Record SessionManager := mkSessionManager {
  sessions : gmap string ptr;
  snToID : gmap string string
}.

Definition NewSessionManager : SessionManager := mkSessionManager ∅ ∅.

(** The methods of [SessionManager] run under its lock, one at a time, on
    the manager and the store of sessions. *)
Definition World : Type := gmap ptr Session * SessionManager.

Definition Add (w : World) (session : ptr) : World :=
  let '(h, sm) := w in
  let sn := SN (deref h session) in
  let '(h, sessions, snToID) :=
    if decide (sn <> "") then
      let '(h, sessions) :=
        match snToID sm !! sn with
        | Some oldID =>
          match sessions sm !! oldID with
          | Some oldSession => (Close h oldSession, delete oldID (sessions sm))
          | None => (h, sessions sm)
          end
        | None => (h, sessions sm)
        end in
      (h, sessions, <[sn := ID (deref h session)]> (snToID sm))
    else (h, sessions sm, snToID sm) in
  (h, mkSessionManager (<[ID (deref h session) := session]> sessions) snToID).

(** The session evicted by [Add]: the one indexed under the serial number
    of the newcomer. *)
Definition holder (w : World) (sn : string) : option (string * ptr) :=
  match snToID w.2 !! sn with
  | Some oldID =>
    match sessions w.2 !! oldID with
    | Some old => Some (oldID, old)
    | None => None
    end
  | None => None
  end.

Definition Remove (w : World) (sessionID : string) : World :=
  let '(h, sm) := w in
  match sessions sm !! sessionID with
  | Some session =>
    let h := Close h session in
    let sessions := delete sessionID (sessions sm) in
    let snToID :=
      if decide (SN (deref h session) <> "")
      then delete (SN (deref h session)) (snToID sm)
      else snToID sm in
    (h, mkSessionManager sessions snToID)
  | None => w
  end.

Definition Get (w : World) (sessionID : string) : option ptr :=
  sessions w.2 !! sessionID.

Definition GetBySN (w : World) (sn : string) : option ptr :=
  let '(h, sm) := w in
  match snToID sm !! sn with
  | Some sessionID =>
    match sessions sm !! sessionID with
    | Some session => if negb (IsClosed h session) then Some session else None
    | None => None
    end
  | None => None
  end.

(** The keys of [snToID], in the order the map iteration yields them. *)
Definition GetOnlineDevices (w : World) : list string :=
  (map_to_list (snToID w.2)).*1.

(** The ids collected by the first loop of [CleanupExpired]. *)
Definition expired_ids (w : World) (now : Time) (timeout : Duration)
    : list string :=
  (filter (fun kv : string * ptr => IsExpired w.1 kv.2 now timeout = true)
          (map_to_list (sessions w.2))).*1.

(** The second loop of [CleanupExpired] does to each collected id what
    [Remove] does. *)
Definition CleanupExpired (w : World) (now : Time) (timeout : Duration)
    : World * Z :=
  let expired := expired_ids w now timeout in
  (foldl Remove w expired, Z.of_nat (length expired)).

Definition Shutdown (w : World) : World :=
  let '(h, sm) := w in
  (map_fold (fun _ session h => Close h session) h (sessions sm),
   NewSessionManager).

(** ** The states the manager reaches

    Starting empty, the manager is driven by its own methods and by the
    Auth handler of the server, which writes the serial number, the appid
    and the metadata of a session and hands it to [Add].  Between two of
    these the rest of the program may write the store (new sessions, close
    flags, heartbeat times, the fields of sessions the manager does not
    hold), but neither the [ID] nor the [SN] of a session the manager
    holds. *)
Inductive reachable : World -> Prop :=
| reach_New h : reachable (h, NewSessionManager)
| reach_Add w session : reachable w -> reachable (Add w session)
| reach_auth w session sn appid meta :
    reachable w ->
    reachable (Add (<[session := set_auth (deref w.1 session) sn appid meta]> w.1,
                    w.2) session)
| reach_Remove w sessionID : reachable w -> reachable (Remove w sessionID)
| reach_CleanupExpired w now timeout :
    reachable w -> reachable (CleanupExpired w now timeout).1
| reach_Shutdown w : reachable w -> reachable (Shutdown w)
| reach_store h h' sm :
    reachable (h, sm) ->
    (forall id s, sessions sm !! id = Some s ->
                  SN (deref h' s) = SN (deref h s)
                  /\ ID (deref h' s) = ID (deref h s)) ->
    reachable (h', sm).


(** Every session the manager holds under a serial number is the one the
    SN index names for it. *)
Definition indexed (w : World) : Prop :=
  forall id s,
    sessions w.2 !! id = Some s ->
    SN (deref w.1 s) <> "" ->
    snToID w.2 !! SN (deref w.1 s) = Some id.

(** Every session the manager holds is filed under its own id. *)
Definition keyed (w : World) : Prop :=
  forall id s, sessions w.2 !! id = Some s -> ID (deref w.1 s) = id.

(** ** Expiry with the clock running

    [IsExpired] reads the clock each time it is called, so the first loop
    of [CleanupExpired] examines each session at an instant of its own:
    [clock id] is the instant read for the session filed under [id].
    [CleanupExpired w now timeout] above is the case of a clock that
    stands still during the call. *)
Definition expired_ids_at (w : World) (clock : string -> Time)
    (timeout : Duration) : list string :=
  (filter (fun kv : string * ptr => IsExpired w.1 kv.2 (clock kv.1) timeout = true)
          (map_to_list (sessions w.2))).*1.

Definition CleanupExpired_at (w : World) (clock : string -> Time)
    (timeout : Duration) : World * Z :=
  let expired := expired_ids_at w clock timeout in
  (foldl Remove w expired, Z.of_nat (length expired)).

(** ** The snapshot of the sessions *)

Record SessionInfo := mkSessionInfo {
  info_ID : string;
  info_SN : string;
  info_AppID : string;
  info_RemoteAddr : string;
  info_LoginAt : Time;
  info_LastPing : Time;
  info_Meta : gmap string string
}.

(** The [SessionInfo] that [GetSessionInfo] makes of one session. *)
Definition info_of (x : Session) : SessionInfo :=
  mkSessionInfo (ID x) (SN x) (AppID x) (RemoteAddr x) (LoginAt x)
                (LastPing x) (Meta x).

Definition GetSessionInfo (w : World) : gmap string SessionInfo :=
  let '(h, sm) := w in
  map_fold (fun _ session info =>
              <[ID (deref h session) := info_of (deref h session)]> info)
           ∅ (sessions sm).

End Sessions.

(* ===================================================================== *)
(** * The ACK correlator (ack_waiter.go) *)
(* ===================================================================== *)

Module ACK.
Import Time.

Record ACKMessage := mkACKMessage {
  CmdID : string;
  Status : string;
  Detail : string
}.

(** A [chan *ACKMessage]: a location of the store of channels. *)
Definition chan := nat.

(** A channel made with [make(chan *ACKMessage, 1)]: at most one buffered
    element, each a [*ACKMessage] ([None] is [nil]). *)
Record Chan := mkChan {
  buffer : list (option ACKMessage);
  chan_closed : bool
}.

Definition capacity : nat := 1.

(** What the goroutines share: the table of [ACKWaiter], its mutex and the
    channels. *)
Record Shared := mkShared {
  waiters : gmap string chan;
  locked : bool;
  chans : gmap chan Chan
}.

Definition NewACKWaiter : Shared := mkShared ∅ false ∅.

(** A call of [Wait], [Notify] or [Cancel] in progress: where the
    goroutine running it stands, with its local variables. *)
Inductive Goroutine :=
| Wait_entry (cmdID : string) (timeout : Duration)
| Wait_select (cmdID : string) (ch : chan) (done : bool)
| Wait_deferred (cmdID : string) (ch : chan)
                (ack : option ACKMessage) (err : option error)
| Wait_returned (ack : option ACKMessage) (err : option error)
| Notify_entry (cmdID : string) (ack : option ACKMessage)
| Notify_send (ch : chan) (ack : option ACKMessage)
| Notify_returned
| Cancel_entry (cmdID : string)
| Cancel_returned
| Panicked (msg : string).

(** What the scheduler picks next. *)
Inductive Label :=
| Run (g : nat)        (** goroutine [g] runs up to its next blocking or shared action *)
| Receive (g : nat)    (** the select of [g] takes [case ack := <-ch] *)
| Done (g : nat)       (** the select of [g] takes [case <-ctx.Done()] *)
| Deadline (g : nat).  (** the deadline of the context of [g] passes *)

Definition timeout_error (cmdID : string) : error :=
  "ack timeout for command " +:+ cmdID.

(** [Wait], lines 22-36: make the channel, register it under the lock,
    arm the deferred clean-up and the context. *)
Definition Wait_register (sh : Shared) (cmdID : string) (timeout : Duration)
    : option (Shared * Goroutine) :=
  if locked sh then None
  else
    let ch := fresh (dom (chans sh)) in
    Some (mkShared (<[cmdID := ch]> (waiters sh)) false
                   (<[ch := mkChan [] false]> (chans sh)),
          Wait_select cmdID ch (bool_decide (timeout <= 0))).

(** [case ack := <-ch: return ack, nil] *)
Definition Wait_receive (sh : Shared) (cmdID : string) (ch : chan)
    : option (Shared * Goroutine) :=
  match chans sh !! ch with
  | Some c =>
    match buffer c with
    | ack :: rest =>
      Some (mkShared (waiters sh) (locked sh)
                     (<[ch := mkChan rest (chan_closed c)]> (chans sh)),
            Wait_deferred cmdID ch ack None)
    | [] =>
      if chan_closed c then Some (sh, Wait_deferred cmdID ch None None)
      else None
    end
  | None => None
  end.

(** [case <-ctx.Done(): return nil, fmt.Errorf(...)] *)
Definition Wait_done (sh : Shared) (cmdID : string) (ch : chan) (done : bool)
    : option (Shared * Goroutine) :=
  if done then Some (sh, Wait_deferred cmdID ch None (Some (timeout_error cmdID)))
  else None.

(** The deferred function of [Wait], lines 28-33.  [close] of a closed
    channel panics, with the mutex still held. *)
Definition Wait_cleanup (sh : Shared) (cmdID : string) (ch : chan)
    (ack : option ACKMessage) (err : option error)
    : option (Shared * Goroutine) :=
  if locked sh then None
  else
    match chans sh !! ch with
    | Some c =>
      if chan_closed c
      then Some (mkShared (delete cmdID (waiters sh)) true (chans sh),
                 Panicked "close of closed channel")
      else Some (mkShared (delete cmdID (waiters sh)) false
                          (<[ch := mkChan (buffer c) true]> (chans sh)),
                 Wait_returned ack err)
    | None => None
    end.

(** [Notify], lines 47-49: the look-up under the read lock. *)
Definition Notify_lookup (sh : Shared) (cmdID : string)
    (ack : option ACKMessage) : option (Shared * Goroutine) :=
  if locked sh then None
  else
    match waiters sh !! cmdID with
    | Some ch => Some (sh, Notify_send ch ack)
    | None => Some (sh, Notify_returned)
    end.

(** [Notify], lines 51-56: [select { case ch <- ack: default: }].  A send
    on a closed channel panics. *)
Definition Notify_deliver (sh : Shared) (ch : chan) (ack : option ACKMessage)
    : option (Shared * Goroutine) :=
  match chans sh !! ch with
  | Some c =>
    if chan_closed c then Some (sh, Panicked "send on closed channel")
    else if (length (buffer c) <? capacity)%nat
    then Some (mkShared (waiters sh) (locked sh)
                        (<[ch := mkChan (buffer c ++ [ack]) false]> (chans sh)),
               Notify_returned)
    else Some (sh, Notify_returned)
  | None => None
  end.

(** [Cancel]: the unlock is deferred, so it also runs when [close]
    panics. *)
Definition Cancel (sh : Shared) (cmdID : string) : option (Shared * Goroutine) :=
  if locked sh then None
  else
    match waiters sh !! cmdID with
    | Some ch =>
      match chans sh !! ch with
      | Some c =>
        if chan_closed c then Some (sh, Panicked "close of closed channel")
        else Some (mkShared (delete cmdID (waiters sh)) false
                            (<[ch := mkChan (buffer c) true]> (chans sh)),
                   Cancel_returned)
      | None => None
      end
    | None => Some (sh, Cancel_returned)
    end.

(** One scheduling decision on one goroutine; [None] when the goroutine
    cannot take it (blocked, finished, or the label does not fit). *)
Definition step_goroutine (sh : Shared) (l : Label) (g : Goroutine)
    : option (Shared * Goroutine) :=
  match l, g with
  | Run _, Wait_entry cmdID timeout => Wait_register sh cmdID timeout
  | Receive _, Wait_select cmdID ch _ => Wait_receive sh cmdID ch
  | Done _, Wait_select cmdID ch done => Wait_done sh cmdID ch done
  | Deadline _, Wait_select cmdID ch _ => Some (sh, Wait_select cmdID ch true)
  | Run _, Wait_deferred cmdID ch ack err => Wait_cleanup sh cmdID ch ack err
  | Run _, Notify_entry cmdID ack => Notify_lookup sh cmdID ack
  | Run _, Notify_send ch ack => Notify_deliver sh ch ack
  | Run _, Cancel_entry cmdID => Cancel sh cmdID
  | _, _ => None
  end.

Definition goroutine_of (l : Label) : nat :=
  match l with Run g | Receive g | Done g | Deadline g => g end.

Definition State : Type := Shared * list Goroutine.

Definition step (st : State) (l : Label) : option State :=
  let '(sh, pool) := st in
  match pool !! goroutine_of l with
  | Some g =>
    match step_goroutine sh l g with
    | Some (sh, g') => Some (sh, <[goroutine_of l := g']> pool)
    | None => None
    end
  | None => None
  end.

(** A schedule runs from a state when each of its labels is enabled in
    turn. *)
Fixpoint exec (st : State) (schedule : list Label) : option State :=
  match schedule with
  | [] => Some st
  | l :: schedule =>
    match step st l with
    | Some st => exec st schedule
    | None => None
    end
  end.

(** [Notify] run to its end by one goroutine with no other in between, as
    the ACK handler of the server calls it. *)
Definition Notify (sh : Shared) (cmdID : string) (ack : option ACKMessage)
    : option (Shared * Goroutine) :=
  match Notify_lookup sh cmdID ack with
  | Some (sh, Notify_send ch ack) => Notify_deliver sh ch ack
  | r => r
  end.

(** ** One waiter and one notifier on a command, among bystanders

    The states met when one call [Wait(cmdID, timeout)] and one call
    [Notify(cmdID, v)] run, under any schedule, next to any number of other
    calls of [Wait], [Notify] and [Cancel] on other commands: goroutine 0
    is the waiter, goroutine 1 the notifier, the others are bystanders. *)
Section WaiterAndNotifier.
Variable cmdID : string.
Variable timeout : Duration.
Variable v : option ACKMessage.

Definition start (sh0 : Shared) (others : list Goroutine) : State :=
  (sh0, Wait_entry cmdID timeout :: Notify_entry cmdID v :: others).

(** Before the waiter registers: the table has no slot for [cmdID], and
    the channels it names exist. *)
Definition table_ok (sh : Shared) : Prop :=
  waiters sh !! cmdID = None
  /\ forall id ch, waiters sh !! id = Some ch -> is_Some (chans sh !! ch).

(** A bystander before the waiter registers: it works on another
    command, on channels that exist. *)
Definition apart_before (sh : Shared) (g : Goroutine) : Prop :=
  match g with
  | Wait_entry id _ | Notify_entry id _ | Cancel_entry id => id <> cmdID
  | Wait_select id ch _ | Wait_deferred id ch _ _ =>
    id <> cmdID /\ is_Some (chans sh !! ch)
  | Notify_send ch _ => is_Some (chans sh !! ch)
  | _ => True
  end.

(** The slot [slot] is registered under [cmdID] and under no other
    command, and its channel is open, holding [buf]. *)
Definition slot_open (sh : Shared) (slot : chan)
    (buf : list (option ACKMessage)) : Prop :=
  waiters sh !! cmdID = Some slot
  /\ chans sh !! slot = Some (mkChan buf false)
  /\ forall id, waiters sh !! id = Some slot -> id = cmdID.

(** A bystander once the waiter holds [slot]: another command, another
    channel. *)
Definition apart_after (slot : chan) (g : Goroutine) : Prop :=
  match g with
  | Wait_entry id _ | Notify_entry id _ | Cancel_entry id => id <> cmdID
  | Wait_select id ch _ | Wait_deferred id ch _ _ => id <> cmdID /\ ch <> slot
  | Notify_send ch _ => ch <> slot
  | _ => True
  end.

(** A bystander once the waiter has returned: it registers no slot for
    [cmdID]. *)
Definition never_registers (g : Goroutine) : Prop :=
  match g with
  | Wait_entry id _ => id <> cmdID
  | _ => True
  end.

(** Where the notifier stands while the slot is open, and what the slot
    holds then. *)
Inductive notifier_at (slot : chan)
  : Goroutine -> list (option ACKMessage) -> Prop :=
| notifier_not_started : notifier_at slot (Notify_entry cmdID v) []
| notifier_found_slot : notifier_at slot (Notify_send slot v) []
| notifier_found_nothing : notifier_at slot Notify_returned []
| notifier_delivered : notifier_at slot Notify_returned [v].

(** The places a call of [Notify] goes through. *)
Definition in_Notify (g : Goroutine) : Prop :=
  match g with
  | Notify_entry _ _ | Notify_send _ _ | Notify_returned | Panicked _ => True
  | _ => False
  end.

Inductive waiting_inv : State -> Prop :=
| inv_entry sh n others :
    table_ok sh ->
    n = Notify_entry cmdID v \/ n = Notify_returned ->
    Forall (apart_before sh) others ->
    waiting_inv (sh, Wait_entry cmdID timeout :: n :: others)
| inv_select sh slot done n buf others :
    slot_open sh slot buf -> notifier_at slot n buf ->
    Forall (apart_after slot) others ->
    waiting_inv (sh, Wait_select cmdID slot done :: n :: others)
| inv_received sh slot others :
    slot_open sh slot [] ->
    Forall (apart_after slot) others ->
    waiting_inv (sh, Wait_deferred cmdID slot v None :: Notify_returned :: others)
| inv_timed_out sh slot n buf others :
    slot_open sh slot buf -> notifier_at slot n buf ->
    Forall (apart_after slot) others ->
    waiting_inv (sh, Wait_deferred cmdID slot None (Some (timeout_error cmdID))
                     :: n :: others)
| inv_returned sh n ack err others :
    (ack = v /\ err = None) \/ (ack = None /\ err = Some (timeout_error cmdID)) ->
    waiters sh !! cmdID = None -> in_Notify n ->
    Forall never_registers others ->
    waiting_inv (sh, Wait_returned ack err :: n :: others).

End WaiterAndNotifier.

(** ** Concrete runs *)

Definition ack1 : ACKMessage := mkACKMessage "cmd-1" "ok" "url opened".

(** [Wait("cmd-1", 5s)] and [Notify("cmd-1", &ack1)] on a new waiter. *)
Definition wait_and_notify : State :=
  start "cmd-1" (5 * Second) (Some ack1) NewACKWaiter [].

(** The same two calls next to a [Wait] on a second command and a
    [Cancel] of a third. *)
Definition wait_and_notify_among_others : State :=
  start "cmd-1" (5 * Second) (Some ack1) NewACKWaiter
        [Wait_entry "cmd-2" (2 * Second); Cancel_entry "cmd-3"].

(** [Wait("cmd-1", 5s)] and [Cancel("cmd-1")] on a new waiter. *)
Definition wait_and_cancel : State :=
  (NewACKWaiter, [Wait_entry "cmd-1" (5 * Second); Cancel_entry "cmd-1"]).

End ACK.

(* ===================================================================== *)
(** * The TCP server (server.go) *)
(* ===================================================================== *)

#[global] Instance byte_countable : Countable byte :=
  inj_countable Byte.to_N Byte.of_N Byte.of_to_N.

Module Server.
Import Int Time Net Codec Security Sessions.

Record AuthMessage := mkAuthMessage {
  auth_AppID : string;
  auth_SN : string;
  auth_TS : Z;
  auth_Nonce : string;
  auth_Sign : string;
  auth_Meta : gmap string string
}.

Record AuthOKMessage := mkAuthOKMessage {
  Success : bool;
  authok_Message : string
}.

Record PingMessage := mkPingMessage { ping_Timestamp : Z }.
Record PongMessage := mkPongMessage { pong_Timestamp : Z }.

Record ErrorMessage := mkErrorMessage {
  Code : Z;
  err_Message : string
}.

(** [MarshalPayload] and [UnmarshalPayload] at one payload type
    (encoding/json). *)
Class JSON (T : Type) := {
  MarshalPayload : T -> list byte + error;
  UnmarshalPayload : list byte -> T + error
}.

Definition NewMessage {T} `{JSON T} (msgType : MessageType) (payload : T)
    : Message + error :=
  match MarshalPayload payload with
  | inr err => inr err
  | inl data => inl (mkMessage ProtocolVersion msgType data)
  end.

(** The bytes that sending [NewMessage(msgType, payload)] puts on the
    wire: none when the payload cannot be marshalled. *)
Definition wire {T} `{JSON T} (msgType : MessageType) (payload : T) : list byte :=
  match NewMessage msgType payload with
  | inl msg => fullBuf msg
  | inr _ => []
  end.

(** The state a connection handler works on.  [ticks] counts the readings
    of the clock made so far. *)
Record Env := mkEnv {
  store : gmap ptr Session;
  sessionManager : SessionManager;
  authenticator : Authenticator MemoryNonceStore;
  ackWaiter : ACK.Shared;
  shutdown : bool;
  ticks : nat
}.

(** How a handler ends: it returns its error, it panics, or it never
    returns. *)
Inductive Outcome :=
| Returns (err : option error)
| Panics (msg : string)
| Blocks.

Definition MessageHandler : Type := ptr -> Message -> Env -> Env * Outcome.

(** Why [handleConnection] leaves its loop. *)
Inductive Exit :=
| ExitShutdown
| ExitSessionClosed
| ExitReadError (err : error)
| ExitPanic (msg : string)
| ExitBlocked
| ExitFuel.

Definition set_store (e : Env) (h : gmap ptr Session) : Env :=
  mkEnv h (sessionManager e) (authenticator e) (ackWaiter e) (shutdown e) (ticks e).

Definition set_world (e : Env) (w : World) : Env :=
  mkEnv w.1 w.2 (authenticator e) (ackWaiter e) (shutdown e) (ticks e).

Definition world (e : Env) : World := (store e, sessionManager e).

(** The session is in both indices of the manager, under its id and its
    serial number. *)
Definition registered (e : Env) (session : ptr) : Prop :=
  sessions (sessionManager e) !! ID (deref (store e) session) = Some session
  /\ snToID (sessionManager e) !! SN (deref (store e) session)
     = Some (ID (deref (store e) session)).

(** A session that carries a serial number is in both indices. *)
Definition named_registered (e : Env) (session : ptr) : Prop :=
  SN (deref (store e) session) <> "" -> registered e session.

(** Two stores give every session the same identity. *)
Definition same_identities (h h' : gmap ptr Session) : Prop :=
  forall q, SN (deref h' q) = SN (deref h q) /\ ID (deref h' q) = ID (deref h q).

(** Nothing happened to the manager nor to the identity of any session. *)
Definition keeps (e e' : Env) : Prop :=
  sessionManager e' = sessionManager e
  /\ same_identities (store e) (store e').

Section WithLibraries.
Variable hmac_sha256_hex : string -> string -> string.
(** The successive readings of [time.Now()]. *)
Variable clock : nat -> Time.
Context `{JSON AuthMessage} `{JSON AuthOKMessage} `{JSON PingMessage}
        `{JSON PongMessage} `{JSON ErrorMessage} `{JSON ACK.ACKMessage}.

Definition time_Now (e : Env) : Time * Env :=
  (clock (ticks e),
   mkEnv (store e) (sessionManager e) (authenticator e) (ackWaiter e)
         (shutdown e) (S (ticks e))).

(** [session.SendMessage(msg)], its error dropped after logging. *)
Definition send_logged (e : Env) (session : ptr) (msg : Message + error) : Env :=
  match msg with
  | inr _ => e
  | inl msg => set_store e (SendMessage (store e) session msg).1
  end.

Definition sendAuthResult (e : Env) (session : ptr) (success : bool)
    (message : string) : Env :=
  let authOK := mkAuthOKMessage success message in
  send_logged e session (NewMessage TypeAuthOK authOK).

Definition sendError (e : Env) (session : ptr) (code : Z) (message : string)
    : Env :=
  let errMsg := mkErrorMessage code message in
  send_logged e session (NewMessage TypeErr errMsg).

(** The two readings of the clock that [VerifySignature] can make are
    taken beforehand. *)
Definition handleAuth : MessageHandler := fun session msg e =>
  match UnmarshalPayload (T := AuthMessage) (Payload msg) with
  | inr err => (e, Returns (Some ("invalid auth payload: " +:+ err)))
  | inl auth =>
    let '(now, e) := time_Now e in
    let '(now', e) := time_Now e in
    let '(a, err) :=
      VerifySignature hmac_sha256_hex (authenticator e) now now'
        (auth_AppID auth) (auth_SN auth) (auth_TS auth)
        (auth_Nonce auth) (auth_Sign auth) in
    let e := mkEnv (store e) (sessionManager e) a (ackWaiter e)
                   (shutdown e) (ticks e) in
    match err with
    | Some err =>
      let e := sendAuthResult e session false err in
      (e, Returns (Some ("auth failed: " +:+ err)))
    | None =>
      let e := set_store e
                 (<[session := set_auth (deref (store e) session) (auth_SN auth)
                                        (auth_AppID auth) (auth_Meta auth)]>
                    (store e)) in
      let e := set_world e (Add (world e) session) in
      let e := sendAuthResult e session true "authenticated" in
      (e, Returns None)
    end
  end.

Definition handlePing : MessageHandler := fun session msg e =>
  match UnmarshalPayload (T := PingMessage) (Payload msg) with
  | inr err => (e, Returns (Some err))
  | inl ping =>
    let '(now, e) := time_Now e in
    let e := set_store e (UpdatePing (store e) session now) in
    let '(now', e) := time_Now e in
    let pong := mkPongMessage (Unix now') in
    match NewMessage TypePong pong with
    | inr err => (e, Returns (Some err))
    | inl pongMsg =>
      let '(h, err) := SendMessage (store e) session pongMsg in
      (set_store e h, Returns err)
    end
  end.

Definition handlePong : MessageHandler := fun session msg e =>
  let '(now, e) := time_Now e in
  (set_store e (UpdatePing (store e) session now), Returns None).

Definition handleACK : MessageHandler := fun session msg e =>
  match UnmarshalPayload (T := ACK.ACKMessage) (Payload msg) with
  | inr err => (e, Returns (Some err))
  | inl ack =>
    match ACK.Notify (ackWaiter e) (ACK.CmdID ack) (Some ack) with
    | Some (aw, ACK.Panicked msg) =>
      (mkEnv (store e) (sessionManager e) (authenticator e) aw
             (shutdown e) (ticks e), Panics msg)
    | Some (aw, _) =>
      (mkEnv (store e) (sessionManager e) (authenticator e) aw
             (shutdown e) (ticks e), Returns None)
    | None => (e, Blocks)
    end
  end.

Definition registerDefaultHandlers : gmap MessageType MessageHandler :=
  <[TypeACK := handleACK]>
    (<[TypePong := handlePong]>
       (<[TypePing := handlePing]>
          (<[TypeAuth := handleAuth]> ∅))).

Definition handleMessage (handlers : gmap MessageType MessageHandler)
    : MessageHandler := fun session msg e =>
  match handlers !! Type_ msg with
  | None =>
    (e, Returns (Some ("unknown message type: " +:+ pretty (Z_of_byte (Type_ msg)))))
  | Some handler => handler session msg e
  end.

(** The loop of [handleConnection].  The read deadline set before each
    read shows as the end [ReadFails] of the inbound stream.  Every frame
    read takes at least four bytes off that stream, so [fuel] beyond its
    length is never used up. *)
Fixpoint readLoop (handlers : gmap MessageType MessageHandler)
    (fuel : nat) (session : ptr) (e : Env) : Env * Exit :=
  match fuel with
  | O => (e, ExitFuel)
  | S fuel =>
    if shutdown e then (e, ExitShutdown)
    else if IsClosed (store e) session then (e, ExitSessionClosed)
    else
      let '(conn, r) := ReadMessage (Conn (deref (store e) session)) in
      let e := set_store e
                 (<[session := set_Conn (deref (store e) session) conn]> (store e)) in
      match r with
      | inr err => (e, ExitReadError err)
      | inl msg =>
        match handleMessage handlers session msg e with
        | (e, Returns None) => readLoop handlers fuel session e
        | (e, Returns (Some err)) =>
          readLoop handlers fuel session (sendError e session 500 err)
        | (e, Panics msg) => (e, ExitPanic msg)
        | (e, Blocks) => (e, ExitBlocked)
        end
      end
  end.

(** [handleConnection], with the session it made.  The deferred
    [session.Close()] runs on every exit but the one that never comes. *)
Definition handleConnection (handlers : gmap MessageType MessageHandler)
    (fuel : nat) (e : Env) (conn : Net.Conn) (uuid remoteAddr : string)
    : Env * ptr * Exit :=
  let '(now, e) := time_Now e in
  let '(now', e) := time_Now e in
  let '(h, session) := NewSession (store e) conn uuid remoteAddr now now' in
  let '(e, exit) := readLoop handlers fuel session (set_store e h) in
  match exit with
  | ExitBlocked | ExitFuel => (e, session, exit)
  | _ => (set_store e (Close (store e) session), session, exit)
  end.

Definition RegisterHandler (handlers : gmap MessageType MessageHandler)
    (msgType : MessageType) (handler : MessageHandler)
    : gmap MessageType MessageHandler :=
  <[msgType := handler]> handlers.

(** [session.SendPing()] (session.go). *)
Definition SendPing (e : Env) (session : ptr) : Env * option error :=
  let '(now, e) := time_Now e in
  let ping := mkPingMessage (Unix now) in
  match NewMessage TypePing ping with
  | inr err => (e, Some err)
  | inl msg =>
    let '(h, err) := SendMessage (store e) session msg in
    (set_store e h, err)
  end.

(** The body of the loop of [heartbeatLoop], for one entry of the
    snapshot. *)
Definition heartbeat_visit (e : Env) (info : SessionInfo) : Env :=
  match Get (world e) (info_ID info) with
  | Some session =>
    if decide (SN (deref (store e) session) <> "") then
      let '(e, err) := SendPing e session in
      match err with
      | Some _ => set_world e (Remove (world e) (ID (deref (store e) session)))
      | None => e
      end
    else e
  | None => e
  end.

(** What [heartbeatLoop] does when its ticker fires, with no other
    goroutine in between: the snapshot, then the entries in the order
    the map iteration yields them. *)
Definition heartbeatLoop_tick (e : Env) : Env :=
  foldl heartbeat_visit e (map_to_list (GetSessionInfo (world e))).*2.

End WithLibraries.

End Server.

(* ===================================================================== *)
(** * The HTTP controllers (package api) *)
(* ===================================================================== *)

(** The handlers of [DeviceController] and [MessageController] as functions
    of what gin hands them: the path parameter [sn], the outcome of
    [ShouldBindJSON], the new uuid.  Each runs on the manager as it stands,
    with no other goroutine in between. *)
Module API.
Import Int Time Net Codec Security Sessions Server.

(** [CommandMessage] (package tcpserver); [Args] stands for
    [map[string]interface{}]. *)
Record CommandMessage (Args : Type) := mkCommandMessage {
  cmd_CmdID : string;
  cmd_Cmd : string;
  cmd_Args : Args;
  cmd_TimeoutMS : Z
}.
Arguments mkCommandMessage {Args} _ _ _ _.
Arguments cmd_CmdID {Args} _.
Arguments cmd_Cmd {Args} _.
Arguments cmd_Args {Args} _.
Arguments cmd_TimeoutMS {Args} _.

Record DeviceInfo := mkDeviceInfo {
  dev_SN : string;
  dev_AppID : string;
  dev_RemoteAddr : string;
  dev_LoginAt : string;
  dev_LastPing : string;
  dev_Meta : gmap string string;
  dev_Online : bool
}.

Record SendMessageRequest := mkSendMessageRequest {
  MsgType : string;
  req_Payload : list byte;
  TimeoutMS : Z
}.

Definition StatusOK : Z := 200.
Definition StatusBadRequest : Z := 400.
Definition StatusNotFound : Z := 404.
Definition StatusInternalServerError : Z := 500.
Definition StatusGatewayTimeout : Z := 504.

(** The JSON bodies the handlers write with [c.JSON]. *)
Inductive Body :=
| Failure (error : string)
    (** [{"success": false, "error": error}] *)
| Devices (data : list DeviceInfo) (count : Z)
    (** [{"success": true, "data": data, "count": count}] *)
| Device (data : DeviceInfo)
    (** [{"success": true, "data": data}] *)
| Sent (cmd_id : string)
    (** [{"success": true, "cmd_id": cmd_id, "message": "command sent"}] *)
| Acked (cmd_id : string) (ack : option ACK.ACKMessage).
    (** [{"success": true, "cmd_id": cmd_id, "ack": ack}] *)

Definition Response : Type := Z * Body.

Section DeviceController.
(** [t.Format("2006-01-02 15:04:05")] *)
Variable Format : Time -> string.




End DeviceController.

Section MessageController.
Context {Args : Type} `{JSON (CommandMessage Args)}.
(** [json.Unmarshal(req.Payload, &args)] *)
Variable Unmarshal_Args : list byte -> Args + error.

(** [session.SendCommand(cmd)] (session.go). *)
Definition SendCommand (h : gmap ptr Session) (s : ptr)
    (cmd : CommandMessage Args) : gmap ptr Session * option error :=
  match NewMessage TypeCMD cmd with
  | inr err => (h, Some err)
  | inl msg => SendMessage h s msg
  end.

(** What [SendToDevice] and [SendAsync] both do first, down to
    [session.SendCommand]: the answer if the request ends there, or the
    command that is now on the wire. *)
Definition send_to (w : World) (sn : string)
    (bind : SendMessageRequest + error) (uuid : string)
    : World * (Response + CommandMessage Args) :=
  if decide (sn = "")
  then (w, inl (StatusBadRequest, Failure "sn parameter is required"))
  else
    match bind with
    | inr err => (w, inl (StatusBadRequest, Failure ("invalid request: " +:+ err)))
    | inl req =>
      match GetBySN w sn with
      | None => (w, inl (StatusNotFound, Failure "device offline"))
      | Some session =>
        let cmdID := uuid in
        match Unmarshal_Args (req_Payload req) with
        | inr err =>
          (w, inl (StatusBadRequest, Failure ("invalid payload: " +:+ err)))
        | inl args =>
          let cmd := mkCommandMessage cmdID (MsgType req) args (TimeoutMS req) in
          match SendCommand w.1 session cmd with
          | (h, Some err) =>
            ((h, w.2),
             inl (StatusInternalServerError,
                  Failure ("failed to send command: " +:+ err)))
          | (h, None) => ((h, w.2), inr cmd)
          end
        end
      end
    end.

Definition SendAsync (w : World) (sn : string)
    (bind : SendMessageRequest + error) (uuid : string) : World * Response :=
  match send_to w sn bind uuid with
  | (w, inl response) => (w, response)
  | (w, inr cmd) => (w, (StatusOK, Sent (cmd_CmdID cmd)))
  end.

(** The timeout [SendToDevice] passes to [Wait]. *)
Definition wait_timeout (timeoutMS : Z) : Duration :=
  let timeout := mul64 timeoutMS Millisecond in
  if timeout <=? 0 then mul64 5 Second else timeout.

(** [SendToDevice] up to its call of [Wait]: the answer if the request
    ends before, or the call [Wait(cmdID, timeout)] it makes. *)
Definition SendToDevice (w : World) (sn : string)
    (bind : SendMessageRequest + error) (uuid : string)
    : World * (Response + ACK.Goroutine) :=
  match send_to w sn bind uuid with
  | (w, inl response) => (w, inl response)
  | (w, inr cmd) =>
    (w, inr (ACK.Wait_entry (cmd_CmdID cmd) (wait_timeout (cmd_TimeoutMS cmd))))
  end.

(** [SendToDevice] from the return of [Wait]. *)
Definition SendToDevice_reply (cmdID : string)
    (ack : option ACK.ACKMessage) (err : option error) : Response :=
  match err with
  | Some err => (StatusGatewayTimeout, Failure ("ack timeout: " +:+ err))
  | None => (StatusOK, Acked cmdID ack)
  end.

End MessageController.

End API.

(* ===================================================================== *)
(** * The device client (package netclient) *)
(* ===================================================================== *)

Module Netclient.
Import Int Time Net Codec Security Server.

Record ReconnectConfig := mkReconnectConfig {
  MinMS : Z;
  MaxMS : Z
}.

Record Config := mkConfig {
  ServerAddr : string;
  cfg_AppID : string;
  cfg_SN : string;
  Key : string;
  Reconnect : ReconnectConfig
}.

(** The fields of [Client] that its methods below read and write;
    [conn = None] is the nil connection. *)
Record Client := mkClient {
  config : Config;
  conn : option Net.Conn;
  connected : bool;
  lastError : option error
}.

Definition set_conn (c : Client) (cn : option Net.Conn) : Client :=
  mkClient (config c) cn (connected c) (lastError c).

(** ** The reconnect backoff *)

(** [reconnectLoop], lines 131-134: the backoff after one more failed
    [connect]. *)
Definition next_backoff (backoff maxBackoff : Duration) : Duration :=
  let backoff := mul64 backoff 2 in
  if maxBackoff <? backoff then maxBackoff else backoff.

(** The backoff [reconnectLoop] holds after [n] failed calls of [connect]
    in a row: the time it waits before the next one is the value held
    before the doubling, [backoff_after cfg (n - 1)]. *)
Fixpoint backoff_after (cfg : ReconnectConfig) (n : nat) : Duration :=
  match n with
  | O => mul64 (MinMS cfg) Millisecond
  | S n => next_backoff (backoff_after cfg n) (mul64 (MaxMS cfg) Millisecond)
  end.

(** ** Authentication *)

Definition hextable : string := "0123456789abcdef".

Definition hex_digit (n : Z) : Ascii.ascii :=
  match String.get (Z.to_nat n) hextable with
  | Some c => c
  | None => Ascii.zero
  end.

(** [hex.EncodeToString] *)
Fixpoint hex_EncodeToString (src : list byte) : string :=
  match src with
  | [] => ""
  | v :: src =>
    String (hex_digit (Z.shiftr (Z_of_byte v) 4))
           (String (hex_digit (Z.land (Z_of_byte v) 15))
                   (hex_EncodeToString src))
  end.

Section WithLibraries.
Variable hmac_sha256_hex : string -> string -> string.
Context `{JSON AuthMessage} `{JSON AuthOKMessage} `{JSON PingMessage}
        `{JSON PongMessage} `{JSON ACK.ACKMessage}.

Definition sendMessage (c : Client) (msg : Message) : Client * option error :=
  match conn c with
  | None => (c, Some "not connected")
  | Some cn =>
    let '(cn, err) := WriteMessage cn msg in
    (set_conn c (Some cn), err)
  end.

(** The [AuthMessage] that [authenticate] builds from the sixteen random
    bytes and the reading of the clock. *)
Definition auth_request (cfg : Config) (nonce : list byte) (now : Time)
    : AuthMessage :=
  let ts := Unix now in
  let nonceStr := hex_EncodeToString nonce in
  let signature :=
    GenerateSignature hmac_sha256_hex (cfg_AppID cfg) (cfg_SN cfg) ts nonceStr
                      (Key cfg) in
  mkAuthMessage (cfg_AppID cfg) (cfg_SN cfg) ts nonceStr signature
                (<["version" := "1.0.0"]> (<["os" := "client"]> ∅)).

(** [authenticate]: [rand] is the outcome of [rand.Read] on the sixteen
    bytes of the nonce, [now] the reading of the clock.  The connection
    is the one [connect] has just dialled; what the server will have
    sent by the time of the read is its inbound stream.  [sendMessage]
    returns nil only with a connection in place, so the branch of the
    nil connection after it is never taken. *)
Definition authenticate (c : Client) (rand : list byte + error) (now : Time)
    : Client * option error :=
  match rand with
  | inr err => (c, Some ("generate nonce: " +:+ err))
  | inl nonce =>
    let auth := auth_request (config c) nonce now in
    match NewMessage TypeAuth auth with
    | inr err => (c, Some ("create auth message: " +:+ err))
    | inl msg =>
      match sendMessage c msg with
      | (c, Some err) => (c, Some ("send auth: " +:+ err))
      | (c, None) =>
        match conn c with
        | None => (c, Some "not connected")
        | Some cn =>
          let '(cn, r) := ReadMessage cn in
          let c := set_conn c (Some cn) in
          match r with
          | inr err => (c, Some ("read auth response: " +:+ err))
          | inl response =>
            if decide (Type_ response <> TypeAuthOK)
            then (c, Some ("unexpected auth response type: "
                           +:+ pretty (Z_of_byte (Type_ response))))
            else
              match UnmarshalPayload (T := AuthOKMessage) (Payload response) with
              | inr err => (c, Some ("parse auth response: " +:+ err))
              | inl authOK =>
                if negb (Success authOK)
                then (c, Some ("auth failed: " +:+ authok_Message authOK))
                else (c, None)
              end
          end
        end
      end
    end
  end.

(** [SendACK] *)
Definition SendACK (c : Client) (cmdID status detail : string)
    : Client * option error :=
  let ack := ACK.mkACKMessage cmdID status detail in
  match NewMessage TypeACK ack with
  | inr err => (c, Some err)
  | inl msg => sendMessage c msg
  end.

End WithLibraries.

End Netclient.

(* ===================================================================== *)
(** * Concrete runs of the connection handler *)
(* ===================================================================== *)

(** The handler is stated over any HMAC, any JSON codec and any clock; to
    run it on concrete frames these are fixed here to simple stand-ins.  The
    properties proved of the handler hold for every choice of them. *)
Module Run.
Import Int Time Net Codec Security Sessions Server.

Definition hmac (key payload : string) : string := key +:+ ":" +:+ payload.

Definition clock (n : nat) : Time := (1700000000 + Z.of_nat n) * Second.

Definition bytes (s : string) : list byte := String.list_byte_of_string s.

(** The device of the specification's scenario 1, signing as it should. *)
Definition auth_good : AuthMessage :=
  mkAuthMessage "A1" "SN123456" 1700000000 "abc123"
    (GenerateSignature hmac "A1" "SN123456" 1700000000 "abc123" "K_SECRET_ABC") ∅.

(** The same device with a signature made under another key. *)
Definition auth_bad : AuthMessage :=
  mkAuthMessage "A1" "SN123456" 1700000000 "def456"
    (GenerateSignature hmac "A1" "SN123456" 1700000000 "def456" "WRONG_KEY") ∅.

Definition auth_good_payload : list byte := bytes "auth-good".
Definition auth_bad_payload : list byte := bytes "auth-bad".
Definition ping_payload : list byte := bytes "ping".

#[global] Instance JSON_Auth : JSON AuthMessage := {
  MarshalPayload _ := inr "unsupported";
  UnmarshalPayload data :=
    if decide (data = auth_good_payload) then inl auth_good
    else if decide (data = auth_bad_payload) then inl auth_bad
    else inr "unexpected end of JSON input"
}.

#[global] Instance JSON_AuthOK : JSON AuthOKMessage := {
  MarshalPayload m :=
    inl (bytes ("authok:" +:+ (if Success m then "true" else "false") +:+ ":"
                +:+ authok_Message m));
  UnmarshalPayload _ := inr "unsupported"
}.

#[global] Instance JSON_Ping : JSON PingMessage := {
  MarshalPayload m := inl (bytes ("ping:" +:+ pretty (ping_Timestamp m)));
  UnmarshalPayload data :=
    if decide (data = ping_payload) then inl (mkPingMessage 1700000000)
    else inr "unexpected end of JSON input"
}.

#[global] Instance JSON_Pong : JSON PongMessage := {
  MarshalPayload m := inl (bytes ("pong:" +:+ pretty (pong_Timestamp m)));
  UnmarshalPayload _ := inr "unsupported"
}.

#[global] Instance JSON_Error : JSON ErrorMessage := {
  MarshalPayload m :=
    inl (bytes ("err:" +:+ pretty (Code m) +:+ ":" +:+ err_Message m));
  UnmarshalPayload _ := inr "unsupported"
}.

#[global] Instance JSON_ACK : JSON ACK.ACKMessage := {
  MarshalPayload _ := inr "unsupported";
  UnmarshalPayload _ := inr "unexpected end of JSON input"
}.

(** A server as [NewServer] makes it, with the key of scenario 1 and a
    window of 300 s. *)
Definition server : Env :=
  mkEnv ∅ NewSessionManager
        (NewAuthenticator {["A1" := "K_SECRET_ABC"]} 300 NewMemoryNonceStore)
        ACK.NewACKWaiter false 0.

Definition handlers : gmap MessageType MessageHandler :=
  registerDefaultHandlers hmac clock.

(** A connection on which the peer sent the frames [msgs] and then closed
    its side. *)
Definition conn_with (msgs : list Message) : Net.Conn :=
  mkConn (concat (fullBuf <$> msgs)) AtEOF [] false.

Definition frame (t : MessageType) (payload : list byte) : Message :=
  mkMessage ProtocolVersion t payload.

(** The state of the server once [handleConnection] has made the session
    of a new connection, and that session. *)
Definition accepted (conn : Net.Conn) : Env * ptr :=
  let '(h, session) :=
    NewSession (store server) conn "session-1" "10.0.0.7:40000" (clock 0) (clock 1) in
  (mkEnv h NewSessionManager (authenticator server) ACK.NewACKWaiter false 2,
   session).


(** A successful Auth, after which the peer goes away. *)
Definition run_auth_then_eof : Env * ptr * Exit :=
  handleConnection clock handlers 8 server
    (conn_with [frame TypeAuth auth_good_payload])
    "session-1" "10.0.0.7:40000".

End Run.

(* ===================================================================== *)
(** * Concrete requests to the controllers *)
(* ===================================================================== *)

Module RunAPI.
Import Int Time Net Codec Security Sessions Server API.

Definition Args : Type := gmap string string.

#[global] Instance JSON_Command : JSON (CommandMessage Args) := {
  MarshalPayload m :=
    inl (Run.bytes ("cmd:" +:+ cmd_CmdID m +:+ ":" +:+ cmd_Cmd m +:+ ":"
                    +:+ pretty (cmd_TimeoutMS m)));
  UnmarshalPayload _ := inr "unsupported"
}.

Definition Unmarshal_Args (data : list byte) : Args + error :=
  if decide (data = Run.bytes "{}") then inl ∅
  else inr "unexpected end of JSON input".


(** A manager holding one open device, SN123456, and one device, SN777,
    whose session is closed and not removed yet. *)
Definition devices : World :=
  let conn := mkConn [] AtEOF [] false in
  let A := mkSession "id-A" "SN123456" "A1" conn "10.0.0.1:1" 0 0 ∅ false in
  let B := mkSession "id-B" "SN777" "A1" conn "10.0.0.2:1" 0 0 ∅ false in
  let w := Add (Add (<[1%nat := A]> (<[2%nat := B]> ∅), NewSessionManager) 1%nat)
               2%nat in
  (Close w.1 2%nat, w.2).

Definition open_web : SendMessageRequest :=
  mkSendMessageRequest "OPEN_WEB" (Run.bytes "{}") 3000.

End RunAPI.

(* ===================================================================== *)
(** * A concrete device and its handshake *)
(* ===================================================================== *)

Module RunClient.
Import Int Time Net Codec Security Sessions Server Netclient.

Definition device_config : Config :=
  mkConfig "gateway:9000" "A1" "SN123456" "K_SECRET_ABC"
           (mkReconnectConfig 500 15000).

(** The sixteen bytes [rand.Read] gave. *)
Definition nonce : list byte :=
  [x00; x11; x22; x33; x44; x55; x66; x77; x88; x99; xaa; xbb; xcc; xdd; xee; xff].

(** The reading of the device's clock, two seconds behind the server's. *)
Definition now : Time := Run.clock 0.

Definition request : AuthMessage := auth_request Run.hmac device_config nonce now.

Definition encode_auth (m : AuthMessage) : list byte :=
  Run.bytes ("auth:" +:+ auth_AppID m +:+ ":" +:+ auth_SN m +:+ ":"
             +:+ pretty (auth_TS m) +:+ ":" +:+ auth_Nonce m +:+ ":" +:+ auth_Sign m).

(** Stand-ins for the JSON codec that encode every message and decode
    the two payloads of this handshake. *)
Definition JSON_Auth : JSON AuthMessage := {|
  MarshalPayload m := inl (encode_auth m);
  UnmarshalPayload data :=
    if decide (data = encode_auth request) then inl request
    else inr "unexpected end of JSON input"
|}.

Definition JSON_AuthOK : JSON AuthOKMessage := {|
  MarshalPayload := @MarshalPayload _ Run.JSON_AuthOK;
  UnmarshalPayload data :=
    if decide (data = Run.bytes "authok:true:authenticated")
    then inl (mkAuthOKMessage true "authenticated")
    else inr "unexpected end of JSON input"
|}.

Definition encode_ack (m : ACK.ACKMessage) : list byte :=
  Run.bytes ("ack:" +:+ ACK.CmdID m +:+ ":" +:+ ACK.Status m +:+ ":" +:+ ACK.Detail m).

(** The ACK of the device for the command cmd-1. *)
Definition done : ACK.ACKMessage := ACK.mkACKMessage "cmd-1" "ok" "done".

Definition JSON_ACK : JSON ACK.ACKMessage := {|
  MarshalPayload m := inl (encode_ack m);
  UnmarshalPayload data :=
    if decide (data = encode_ack done) then inl done
    else inr "unexpected end of JSON input"
|}.

(** The handlers of the server over this codec. *)
Definition handlers : gmap MessageType MessageHandler :=
  @registerDefaultHandlers Run.hmac Run.clock JSON_Auth JSON_AuthOK
                           Run.JSON_Ping Run.JSON_Pong JSON_ACK.

(** The server with the session of the device's connection, on which the
    Auth frame has arrived. *)
Definition gateway : Env * ptr :=
  Run.accepted (Run.conn_with [Run.frame TypeAuth (encode_auth request)]).

(** The device after [connect] has dialled, with the answer of the
    server on its way. *)
Definition device : Client :=
  mkClient device_config
           (Some (Run.conn_with
                    [Run.frame TypeAuthOK (Run.bytes "authok:true:authenticated")]))
           false None.

(** A connected device. *)
Definition connected_device : Client :=
  mkClient device_config (Some (Run.conn_with [])) true None.

(** The server with a call of [Wait] on cmd-1 standing at its select, and
    a session that has not authenticated, on which an ACK frame for
    cmd-1 has arrived. *)
Definition waiting : Env * ptr :=
  let '(e, session) := Run.accepted (Run.conn_with [Run.frame TypeACK (encode_ack done)]) in
  let aw := match ACK.Wait_register (ackWaiter e) "cmd-1" (5 * Second) with
            | Some (sh, _) => sh
            | None => ackWaiter e
            end in
  (mkEnv (store e) (sessionManager e) (authenticator e) aw (shutdown e) (ticks e),
   session).

End RunClient.

(* ===================================================================== *)
(** * Properties of the frame codec *)
(* ===================================================================== *)

Module CodecFacts.
Import Int Net Codec.

Lemma Z_of_byte_range b : 0 <= Z_of_byte b < 256.
Proof.
  unfold Z_of_byte. pose proof (Byte.to_N_bounded b). lia.
Qed.

Lemma Z_of_byte_of_Z z : Z_of_byte (byte_of_Z z) = z mod 256.
Proof.
  unfold Z_of_byte, byte_of_Z.
  assert (Hr : 0 <= z mod 256 < 256) by (apply Z.mod_pos_bound; lia).
  destruct (Byte.of_N (Z.to_N (z mod 256))) as [b|] eqn:E.
  - apply Byte.to_of_N in E. rewrite E. lia.
  - apply Byte.of_N_None_iff in E. lia.
Qed.

Lemma byte_of_Z_of_byte b : byte_of_Z (Z_of_byte b) = b.
Proof.
  unfold byte_of_Z. rewrite Z.mod_small by apply Z_of_byte_range.
  unfold Z_of_byte. rewrite N2Z.id, Byte.of_to_N. reflexivity.
Qed.

(** Reassembling the four big-endian bytes of a 32-bit value. *)
Lemma Uint32_PutUint32 v :
  0 <= v < 2 ^ 32 -> BigEndian_Uint32 (BigEndian_PutUint32 v) = v.
Proof.
  intros Hv. unfold BigEndian_Uint32, BigEndian_PutUint32.
  rewrite !Z_of_byte_of_Z.
  apply Z.bits_inj'. intros n Hn.
  rewrite !Z.lor_spec.
  change 256 with (2 ^ 8).
  destruct (Z.lt_ge_cases n 8) as [H8|H8].
  { rewrite Z.mod_pow2_bits_low by lia.
    rewrite !Z.shiftl_spec_low by lia. rewrite !orb_false_r. reflexivity. }
  rewrite (Z.mod_pow2_bits_high v) by lia. simpl orb.
  destruct (Z.lt_ge_cases n 16) as [H16|H16].
  { rewrite (Z.shiftl_spec_low _ 16), (Z.shiftl_spec_low _ 24) by lia.
    rewrite !orb_false_r. rewrite Z.shiftl_spec by lia.
    rewrite Z.mod_pow2_bits_low by lia. rewrite Z.shiftr_spec by lia.
    f_equal. lia. }
  rewrite (Z.shiftl_spec _ 8) by lia.
  rewrite (Z.mod_pow2_bits_high _ 8 (n - 8)) by lia. simpl orb.
  destruct (Z.lt_ge_cases n 24) as [H24|H24].
  { rewrite (Z.shiftl_spec_low _ 24) by lia.
    rewrite !orb_false_r. rewrite Z.shiftl_spec by lia.
    rewrite Z.mod_pow2_bits_low by lia. rewrite Z.shiftr_spec by lia.
    f_equal. lia. }
  rewrite (Z.shiftl_spec _ 16) by lia.
  rewrite (Z.mod_pow2_bits_high _ 8 (n - 16)) by lia. simpl orb.
  rewrite Z.shiftl_spec by lia.
  destruct (Z.lt_ge_cases n 32) as [H32|H32].
  { rewrite Z.mod_pow2_bits_low by lia. rewrite Z.shiftr_spec by lia.
    f_equal. lia. }
  rewrite Z.mod_pow2_bits_high by lia.
  symmetry. apply Z.bits_above_log2; [lia|].
  destruct (Z.eq_dec v 0) as [->|Hnz]; [simpl; lia|].
  apply Z.log2_lt_pow2; [lia|].
  apply Z.lt_le_trans with (2 ^ 32); [lia|]. apply Z.pow_le_mono_r; lia.
Qed.

Lemma PutUint32_length v : length (BigEndian_PutUint32 v) = 4%nat.
Proof. reflexivity. Qed.

(** A read of [n > 0] bytes that the open stream already holds. *)
Lemma io_ReadFull_app c (front rest : list byte) :
  conn_closed c = false ->
  inbound c = front ++ rest ->
  io_ReadFull c (length front) = (set_inbound c rest, inl front).
Proof.
  intros Hopen Hin. unfold io_ReadFull.
  destruct front as [|b front].
  - simpl in *. subst rest. destruct c; reflexivity.
  - cbn [length]. rewrite Hopen, Hin.
    replace (S (length front) <=? length ((b :: front) ++ rest))%nat with true.
    2:{ symmetry. apply Nat.leb_le. rewrite length_app. cbn [length]. lia. }
    change (S (length front)) with (length (b :: front)).
    rewrite drop_app_length, take_app_length. reflexivity.
Qed.

Lemma set_inbound_closed c bs : conn_closed (set_inbound c bs) = conn_closed c.
Proof. reflexivity. Qed.

Lemma set_inbound_inbound c bs : inbound (set_inbound c bs) = bs.
Proof. reflexivity. Qed.

Lemma set_inbound_twice c bs bs' :
  set_inbound (set_inbound c bs) bs' = set_inbound c bs'.
Proof. reflexivity. Qed.

(** Reading back one frame from the front of an open stream. *)
Lemma ReadMessage_fullBuf c msg rest :
  conn_closed c = false ->
  inbound c = fullBuf msg ++ rest ->
  Version msg = ProtocolVersion ->
  2 + Z.of_nat (length (Payload msg)) <= MaxMessageSize ->
  ReadMessage c = (set_inbound c rest, inl msg).
Proof.
  intros Hopen Hin Hv Hsz. unfold ReadMessage.
  unfold fullBuf in Hin. cbn zeta in Hin. rewrite <- app_assoc in Hin.
  change 4%nat with
    (length (BigEndian_PutUint32
               (uint32 (Z.of_nat (length (Version msg :: Type_ msg :: Payload msg)))))).
  rewrite (io_ReadFull_app _ _ _ Hopen Hin).
  assert (Hlen : uint32 (Z.of_nat (length (Version msg :: Type_ msg :: Payload msg)))
                 = Z.of_nat (length (Version msg :: Type_ msg :: Payload msg))).
  { unfold uint32. apply Z.mod_small. cbn [length].
    unfold MaxMessageSize in Hsz. lia. }
  rewrite Hlen. rewrite Uint32_PutUint32.
  2:{ cbn [length]. unfold MaxMessageSize in Hsz. lia. }
  destruct (MaxMessageSize <? _) eqn:Hbig.
  { apply Z.ltb_lt in Hbig. cbn [length] in Hbig. lia. }
  rewrite Nat2Z.id.
  rewrite (io_ReadFull_app (set_inbound c _) (Version msg :: Type_ msg :: Payload msg) rest);
    [|assumption|reflexivity].
  destruct (_ <? 2) eqn:Hshort.
  { apply Z.ltb_lt in Hshort. cbn [length] in Hshort. lia. }
  cbn [Version]. rewrite decide_True by assumption.
  destruct msg; reflexivity.
Qed.

Lemma ReadMessage_too_large c lengthBuf rest :
  length lengthBuf = 4%nat ->
  inbound c = lengthBuf ++ rest ->
  MaxMessageSize < BigEndian_Uint32 lengthBuf ->
  rejected (ReadMessage c).
Proof.
  intros Hl Hin Hbig. unfold ReadMessage, rejected.
  destruct (conn_closed c) eqn:Hopen.
  { unfold io_ReadFull. rewrite Hopen. eauto. }
  rewrite <- Hl. rewrite (io_ReadFull_app _ _ _ Hopen Hin).
  apply Z.ltb_lt in Hbig. rewrite Hbig. eauto.
Qed.

Lemma ReadMessage_too_short c lengthBuf rest :
  length lengthBuf = 4%nat ->
  inbound c = lengthBuf ++ rest ->
  BigEndian_Uint32 lengthBuf < 2 ->
  rejected (ReadMessage c).
Proof.
  intros Hl Hin Hshort. unfold ReadMessage, rejected.
  destruct (io_ReadFull c 4) as [c1 [buf|e]] eqn:E1; [|eauto].
  destruct (conn_closed c) eqn:Hopen.
  { unfold io_ReadFull in E1. rewrite Hopen in E1. discriminate. }
  rewrite <- Hl in E1. rewrite (io_ReadFull_app _ _ _ Hopen Hin) in E1.
  injection E1 as <- <-.
  destruct (MaxMessageSize <? _); [eauto|].
  destruct (io_ReadFull _ _) as [c2 [buf|e]]; [|eauto].
  apply Z.ltb_lt in Hshort. rewrite Hshort. eauto.
Qed.

Lemma ReadMessage_accepts_version c c' msg :
  ReadMessage c = (c', inl msg) -> Version msg = ProtocolVersion.
Proof.
  unfold ReadMessage.
  destruct (io_ReadFull c 4) as [c1 [buf|e]]; [|discriminate].
  destruct (MaxMessageSize <? _); [discriminate|].
  destruct (io_ReadFull _ _) as [c2 [body|e]]; [|discriminate].
  destruct (_ <? 2); [discriminate|].
  destruct body as [|v [|t payload]]; try discriminate.
  cbn zeta. case_decide; [|discriminate].
  intros [= _ <-]. assumption.
Qed.

Lemma ReadMessage_total c :
  exists c' r, ReadMessage c = (c', r).
Proof. destruct (ReadMessage c) as [c' r]. eauto. Qed.

Lemma ReadMessage_bad_version c lengthBuf v rest :
  length lengthBuf = 4%nat ->
  inbound c = lengthBuf ++ v :: rest ->
  v <> ProtocolVersion ->
  rejected (ReadMessage c).
Proof.
  intros Hl Hin Hv. unfold rejected.
  destruct (ReadMessage c) as [c' [msg|e]] eqn:E; [|eauto].
  exfalso. revert E. unfold ReadMessage.
  destruct (conn_closed c) eqn:Hopen.
  { unfold io_ReadFull. rewrite Hopen. discriminate. }
  rewrite <- Hl. rewrite (io_ReadFull_app _ _ _ Hopen Hin).
  destruct (MaxMessageSize <? _); [discriminate|].
  unfold io_ReadFull at 1.
  destruct (Z.to_nat (BigEndian_Uint32 lengthBuf)) as [|n] eqn:En.
  { destruct (_ <? 2); discriminate. }
  rewrite set_inbound_closed, Hopen, set_inbound_inbound.
  destruct (S n <=? _)%nat; [|discriminate].
  destruct (_ <? 2); [discriminate|].
  cbn [take]. destruct (take n rest) as [|t payload]; [discriminate|].
  cbn zeta. cbn [Version]. rewrite decide_False by assumption. discriminate.
Qed.

(** C7.  Frame codec round trip and limits.  For every message of version
    1, of any type, whose frame body (payload plus the two header bytes)
    is at most 1 MiB: [WriteMessage] on an open connection puts the frame
    on the wire without error, and [ReadMessage] on an open connection
    whose inbound stream starts with that frame returns a message equal to
    the one written, leaving the rest of the stream.  And [ReadMessage]
    returns an error for any frame whose declared length exceeds 1 MiB,
    for any frame whose declared length is below 2, and for any frame
    whose version byte is not 1. *)
Theorem C7_frame_roundtrip_and_limits :
  (forall (w r : Conn) (msg : Message) (rest : list byte),
      Version msg = ProtocolVersion ->
      2 + Z.of_nat (length (Payload msg)) <= MaxMessageSize ->
      conn_closed w = false ->
      conn_closed r = false ->
      inbound r = fullBuf msg ++ rest ->
      (exists w', WriteMessage w msg = (w', None)
                  /\ outbound w' = outbound w ++ fullBuf msg)
      /\ ReadMessage r = (set_inbound r rest, inl msg))
  /\ (forall (c : Conn) (lengthBuf rest : list byte),
      length lengthBuf = 4%nat ->
      inbound c = lengthBuf ++ rest ->
      MaxMessageSize < BigEndian_Uint32 lengthBuf ->
      rejected (ReadMessage c))
  /\ (forall (c : Conn) (lengthBuf rest : list byte),
      length lengthBuf = 4%nat ->
      inbound c = lengthBuf ++ rest ->
      BigEndian_Uint32 lengthBuf < 2 ->
      rejected (ReadMessage c))
  /\ (forall (c : Conn) (lengthBuf : list byte) (v : byte) (rest : list byte),
      length lengthBuf = 4%nat ->
      inbound c = lengthBuf ++ v :: rest ->
      v <> ProtocolVersion ->
      rejected (ReadMessage c)).
Proof.
  split; [|split; [|split]].
  - intros w r msg rest Hv Hsz Hw Hr Hin. split.
    + unfold WriteMessage, Net.Write. rewrite Hw. eexists. split; reflexivity.
    + apply ReadMessage_fullBuf; assumption.
  - apply ReadMessage_too_large.
  - apply ReadMessage_too_short.
  - apply ReadMessage_bad_version.
Qed.

Lemma C7_frame_roundtrip_and_limits_witness :
  let msg := mkMessage x01 TypePing [x7b; x7d] in
  let w := mkConn [] AtEOF [] false in
  ((exists w', WriteMessage w msg = (w', None)
               /\ outbound w' = outbound w ++ fullBuf msg)
   /\ ReadMessage (mkConn (fullBuf msg ++ [xff]) AtEOF [] false)
      = (mkConn [xff] AtEOF [] false, inl msg))
  /\ rejected (ReadMessage (mkConn [x00; x10; x00; x01; x01] AtEOF [] false))
  /\ rejected (ReadMessage (mkConn [x00; x00; x00; x01; x01] AtEOF [] false))
  /\ rejected (ReadMessage (mkConn [x00; x00; x00; x02; x02; x03] AtEOF [] false)).
Proof.
  intros msg w.
  destruct C7_frame_roundtrip_and_limits as (Hrt & Hbig & Hshort & Hver).
  split; [|split; [|split]].
  - apply (Hrt w (mkConn (fullBuf msg ++ [xff]) AtEOF [] false) msg [xff]).
    + reflexivity.
    + vm_compute. discriminate.
    + reflexivity.
    + reflexivity.
    + reflexivity.
  - apply (Hbig _ [x00; x10; x00; x01] [x01]).
    + reflexivity.
    + reflexivity.
    + vm_compute. reflexivity.
  - apply (Hshort _ [x00; x00; x00; x01] [x01]).
    + reflexivity.
    + reflexivity.
    + vm_compute. reflexivity.
  - apply (Hver _ [x00; x00; x00; x02] x02 [x03]).
    + reflexivity.
    + reflexivity.
    + discriminate.
Defined.

(** ** What [ReadMessage] accepts *)

Lemma byte_of_Z_mod x y : x mod 256 = y mod 256 -> byte_of_Z x = byte_of_Z y.
Proof. intros E. unfold byte_of_Z. rewrite E. reflexivity. Qed.

Lemma testbit_byte_high b n : 8 <= n -> Z.testbit (Z_of_byte b) n = false.
Proof.
  intros Hn. pose proof (Z_of_byte_range b) as Hr.
  rewrite <- (Z.mod_small (Z_of_byte b) (2 ^ 8)) by (change (2 ^ 8) with 256; lia).
  apply Z.mod_pow2_bits_high. lia.
Qed.

(** The bit [n] of a byte moved [s] places up. *)
Lemma testbit_byte_shiftl b s n :
  0 <= s -> 0 <= n -> (n < s \/ s + 8 <= n) ->
  Z.testbit (Z.shiftl (Z_of_byte b) s) n = false.
Proof.
  intros Hs Hn [Hlow|Hhigh].
  - apply Z.shiftl_spec_low. assumption.
  - rewrite Z.shiftl_spec by assumption. apply testbit_byte_high. lia.
Qed.

Lemma Uint32_range b0 b1 b2 b3 :
  0 <= BigEndian_Uint32 [b0; b1; b2; b3] < 2 ^ 32.
Proof.
  assert (Hmod : BigEndian_Uint32 [b0; b1; b2; b3] mod 2 ^ 32
                 = BigEndian_Uint32 [b0; b1; b2; b3]).
  { apply Z.bits_inj'. intros n Hn.
    destruct (Z.lt_ge_cases n 32) as [Hlt|Hge].
    - apply Z.mod_pow2_bits_low. assumption.
    - rewrite Z.mod_pow2_bits_high by lia. unfold BigEndian_Uint32.
      rewrite !Z.lor_spec. rewrite testbit_byte_high by lia.
      rewrite !testbit_byte_shiftl by lia. reflexivity. }
  rewrite <- Hmod. apply Z.mod_pos_bound. lia.
Qed.

(** Splitting a 32-bit value into its four big-endian bytes undoes
    [BigEndian_Uint32]. *)
Lemma PutUint32_Uint32 b0 b1 b2 b3 :
  BigEndian_PutUint32 (BigEndian_Uint32 [b0; b1; b2; b3]) = [b0; b1; b2; b3].
Proof.
  unfold BigEndian_PutUint32, BigEndian_Uint32.
  assert (Hbyte : forall s b, 0 <= s ->
            (forall n, 0 <= n < 8 ->
               Z.testbit (Z.lor (Z.lor (Z.lor (Z_of_byte b3) (Z.shiftl (Z_of_byte b2) 8))
                                       (Z.shiftl (Z_of_byte b1) 16))
                                (Z.shiftl (Z_of_byte b0) 24)) (n + s)
               = Z.testbit (Z_of_byte b) n) ->
            byte_of_Z (Z.shiftr (Z.lor (Z.lor (Z.lor (Z_of_byte b3)
                         (Z.shiftl (Z_of_byte b2) 8)) (Z.shiftl (Z_of_byte b1) 16))
                         (Z.shiftl (Z_of_byte b0) 24)) s) = b).
  { intros s b Hs Hbits.
    transitivity (byte_of_Z (Z_of_byte b)); [|apply byte_of_Z_of_byte].
    apply byte_of_Z_mod. change 256 with (2 ^ 8).
    apply Z.bits_inj'. intros n Hn.
    destruct (Z.lt_ge_cases n 8) as [H8|H8].
    - rewrite !Z.mod_pow2_bits_low by lia. rewrite Z.shiftr_spec by lia.
      apply Hbits. lia.
    - rewrite !Z.mod_pow2_bits_high by lia. reflexivity. }
  f_equal; [|f_equal; [|f_equal; [|f_equal]]].
  - apply Hbyte; [lia|]. intros n Hn. rewrite !Z.lor_spec.
    rewrite testbit_byte_high by lia.
    rewrite !testbit_byte_shiftl by lia.
    rewrite Z.shiftl_spec by lia. cbn [orb]. f_equal. lia.
  - apply Hbyte; [lia|]. intros n Hn. rewrite !Z.lor_spec.
    rewrite testbit_byte_high by lia.
    rewrite (testbit_byte_shiftl b2), (testbit_byte_shiftl b0) by lia.
    rewrite Z.shiftl_spec by lia. cbn [orb]. rewrite orb_false_r. f_equal. lia.
  - apply Hbyte; [lia|]. intros n Hn. rewrite !Z.lor_spec.
    rewrite testbit_byte_high by lia.
    rewrite (testbit_byte_shiftl b1), (testbit_byte_shiftl b0) by lia.
    rewrite Z.shiftl_spec by lia. cbn [orb]. rewrite !orb_false_r. f_equal. lia.
  - transitivity (byte_of_Z (Z_of_byte b3)); [|apply byte_of_Z_of_byte].
    apply byte_of_Z_mod. change 256 with (2 ^ 8).
    apply Z.bits_inj'. intros n Hn.
    destruct (Z.lt_ge_cases n 8) as [H8|H8].
    + rewrite !Z.mod_pow2_bits_low by lia. rewrite !Z.lor_spec.
      rewrite !testbit_byte_shiftl by lia. rewrite !orb_false_r. reflexivity.
    + rewrite !Z.mod_pow2_bits_high by lia. reflexivity.
Qed.

(** What a successful [io.ReadFull] took off the stream. *)
Lemma io_ReadFull_inl c n c1 buf :
  io_ReadFull c n = (c1, inl buf) ->
  length buf = n
  /\ inbound c = buf ++ inbound c1
  /\ c1 = set_inbound c (inbound c1)
  /\ (n <> 0%nat -> conn_closed c = false).
Proof.
  unfold io_ReadFull. destruct n as [|n].
  { intros [= <- <-]. destruct c. cbn. repeat split; congruence. }
  destruct (conn_closed c) eqn:Hc; [discriminate|].
  destruct (S n <=? length (inbound c))%nat eqn:L; [|discriminate].
  apply Nat.leb_le in L. intros [= <- <-].
  split; [rewrite length_take; lia|].
  split; [cbn; symmetry; apply take_drop|].
  split; [reflexivity|auto].
Qed.

(** X1.  Whatever [ReadMessage] returns as a message is a well-formed
    frame: the connection was open, the bytes it took off the stream are
    exactly the frame [WriteMessage] writes for that message, the version
    is 1, and the body (payload plus two header bytes) is at most 1 MiB.
    Nothing but the inbound stream of the connection has changed. *)
Theorem ReadMessage_accepts_only_frames (c c' : Conn) (msg : Message) :
  ReadMessage c = (c', inl msg) ->
  conn_closed c = false
  /\ inbound c = fullBuf msg ++ inbound c'
  /\ c' = set_inbound c (inbound c')
  /\ Version msg = ProtocolVersion
  /\ 2 + Z.of_nat (length (Payload msg)) <= MaxMessageSize.
Proof.
  intros Hread. pose proof (ReadMessage_accepts_version _ _ _ Hread) as Hv.
  revert Hread. unfold ReadMessage.
  destruct (io_ReadFull c 4) as [c1 [lengthBuf|e]] eqn:E1; [|discriminate].
  apply io_ReadFull_inl in E1. destruct E1 as (Hl1 & Hin1 & Hc1 & Hopen).
  destruct (MaxMessageSize <? BigEndian_Uint32 lengthBuf) eqn:Hmax; [discriminate|].
  apply Z.ltb_ge in Hmax.
  destruct (io_ReadFull c1 _) as [c2 [msgBuf|e]] eqn:E2; [|discriminate].
  apply io_ReadFull_inl in E2. destruct E2 as (Hl2 & Hin2 & Hc2 & _).
  destruct (BigEndian_Uint32 lengthBuf <? 2) eqn:Hmin; [discriminate|].
  apply Z.ltb_ge in Hmin.
  destruct msgBuf as [|v [|t payload]]; try discriminate.
  cbn zeta. case_decide; [|discriminate]. intros [= <- <-].
  destruct lengthBuf as [|b0 [|b1 [|b2 [|b3 [|]]]]]; try discriminate.
  assert (Hlen : BigEndian_Uint32 [b0; b1; b2; b3]
                 = Z.of_nat (length (v :: t :: payload))) by lia.
  split; [apply Hopen; discriminate|].
  split.
  { rewrite Hin1. rewrite Hc1 in Hin2. cbn [inbound set_inbound] in Hin2.
    rewrite Hin2.
    change (fullBuf (mkMessage v t payload))
      with (BigEndian_PutUint32 (uint32 (Z.of_nat (length (v :: t :: payload))))
            ++ v :: t :: payload).
    rewrite <- Hlen. unfold uint32.
    rewrite Z.mod_small by apply Uint32_range.
    rewrite PutUint32_Uint32. reflexivity. }
  split.
  { rewrite Hc2, Hc1. reflexivity. }
  split; [assumption|].
  cbn [Payload]. cbn [length] in Hlen. lia.
Qed.

Lemma ReadMessage_accepts_only_frames_witness :
  let msg := mkMessage x01 TypePing [x7b; x7d] in
  let c := mkConn (fullBuf msg ++ [xff]) AtEOF [] false in
  conn_closed c = false
  /\ inbound c = fullBuf msg ++ [xff]
  /\ mkConn [xff] AtEOF [] false = set_inbound c [xff]
  /\ Version msg = ProtocolVersion
  /\ 2 + Z.of_nat (length (Payload msg)) <= MaxMessageSize.
Proof.
  intros msg c.
  apply (ReadMessage_accepts_only_frames c (mkConn [xff] AtEOF [] false) msg).
  vm_compute. reflexivity.
Defined.

(** X2.  [WriteMessage] has no size limit of its own.  On an open
    connection it writes the frame of any message without error; when the
    body of that frame is over 1 MiB (and its length still fits the
    four-byte prefix), [ReadMessage] at the other end rejects it. *)
Theorem WriteMessage_writes_what_ReadMessage_rejects
    (w r : Conn) (msg : Message) (rest : list byte) :
  conn_closed w = false ->
  MaxMessageSize < 2 + Z.of_nat (length (Payload msg)) < 2 ^ 32 ->
  inbound r = fullBuf msg ++ rest ->
  (exists w', WriteMessage w msg = (w', None)
              /\ outbound w' = outbound w ++ fullBuf msg)
  /\ rejected (ReadMessage r).
Proof.
  intros Hw Hsz Hin. split.
  - unfold WriteMessage, Net.Write. rewrite Hw. eexists. split; reflexivity.
  - unfold fullBuf in Hin. cbn zeta in Hin. rewrite <- app_assoc in Hin.
    eapply ReadMessage_too_large; [|exact Hin|].
    + apply PutUint32_length.
    + assert (Hr : 0 <= Z.of_nat (length (Version msg :: Type_ msg :: Payload msg))
                   < 2 ^ 32).
      { cbn [length]. lia. }
      unfold uint32. rewrite Z.mod_small by exact Hr.
      rewrite Uint32_PutUint32 by exact Hr. cbn [length]. lia.
Qed.

Lemma WriteMessage_writes_what_ReadMessage_rejects_witness :
  let msg := mkMessage x01 TypeCMD (replicate (Z.to_nat 1048575) x00) in
  (exists w', WriteMessage (mkConn [] AtEOF [] false) msg = (w', None)
              /\ outbound w' = [] ++ fullBuf msg)
  /\ rejected (ReadMessage (mkConn (fullBuf msg) AtEOF [] false)).
Proof.
  intros msg.
  apply (WriteMessage_writes_what_ReadMessage_rejects
           (mkConn [] AtEOF [] false) (mkConn (fullBuf msg) AtEOF [] false) msg []).
  - reflexivity.
  - subst msg. cbn [Payload]. rewrite length_replicate. vm_compute. split; reflexivity.
  - cbn [inbound]. symmetry. apply app_nil_r.
Defined.

End CodecFacts.

(* ===================================================================== *)
(** * Properties of the authenticator *)
(* ===================================================================== *)

Module SecurityFacts.
Import Int Time Security.

Lemma int64_id z : is_int64 z -> int64 z = z.
Proof.
  unfold is_int64, MinInt64, MaxInt64, int64. intros Hz.
  rewrite Z.mod_small; lia.
Qed.

Lemma int64_range z : is_int64 (int64 z).
Proof.
  unfold is_int64, MinInt64, MaxInt64, int64.
  pose proof (Z.mod_pos_bound (z + 2 ^ 63) (2 ^ 64)). lia.
Qed.

(** Away from [MinInt64], [abs] is the absolute value. *)
Lemma abs_exact x : is_int64 x -> x <> MinInt64 -> abs x = Z.abs x.
Proof.
  unfold abs, neg64, is_int64, MinInt64, MaxInt64. intros Hx Hmin.
  destruct (x <? 0) eqn:E.
  - apply Z.ltb_lt in E. rewrite int64_id; [lia|].
    unfold is_int64, MinInt64, MaxInt64. lia.
  - apply Z.ltb_ge in E. lia.
Qed.

(** At [MinInt64] the negation wraps and [abs] stays negative. *)
Lemma abs_MinInt64 : abs MinInt64 = MinInt64.
Proof. reflexivity. Qed.

Section WithHMAC.
Variable hmac_sha256_hex : string -> string -> string.

Lemma verifyTimestamp_cases (a : Authenticator MemoryNonceStore) clock ts :
  verifyTimestamp a clock ts = None \/
  verifyTimestamp a clock ts = Some "timestamp out of window".
Proof. unfold verifyTimestamp. destruct (_ <? _); auto. Qed.

(** Where the subtraction does not wrap, [verifyTimestamp] is the
    inclusive window test on the distance between the two instants. *)
Lemma verifyTimestamp_in_range (a : Authenticator MemoryNonceStore) clock ts :
  - 2 ^ 63 < Unix clock - ts < 2 ^ 63 ->
  (verifyTimestamp a clock ts = None <->
   Z.abs (Unix clock - ts) <= timeWindowSec a).
Proof.
  intros Hr. unfold verifyTimestamp, sub64. cbn zeta.
  rewrite int64_id by (unfold is_int64, MinInt64, MaxInt64; lia).
  rewrite abs_exact;
    [|unfold is_int64, MinInt64, MaxInt64; lia|unfold MinInt64; lia].
  destruct (_ <? _) eqn:E.
  - apply Z.ltb_lt in E. split; [discriminate|lia].
  - apply Z.ltb_ge in E. split; [auto|reflexivity].
Qed.

Lemma HasNonce_lookup (m : MemoryNonceStore) nonce :
  HasNonce m nonce = false <-> nonces m !! nonce = None.
Proof.
  cbn. rewrite bool_decide_eq_false. rewrite <- eq_None_not_Some. reflexivity.
Qed.

Lemma HasNonce_true (m : MemoryNonceStore) nonce :
  HasNonce m nonce = true <-> is_Some (nonces m !! nonce).
Proof. cbn. apply bool_decide_eq_true. Qed.

(** What [verifyNonce] does to a store that has not seen the nonce. *)
Lemma verifyNonce_fresh (a : Authenticator MemoryNonceStore) clock nonce :
  HasNonce (nonceStore a) nonce = false ->
  verifyNonce a clock nonce =
    (mkAuthenticator (keys a) (timeWindowSec a)
       (mkMemoryNonceStore
          (<[nonce := Time.Add clock (nonce_ttl a)]> (nonces (nonceStore a)))),
     None).
Proof. intros Hf. unfold verifyNonce. rewrite Hf. reflexivity. Qed.

Lemma verifyNonce_used (a : Authenticator MemoryNonceStore) clock nonce :
  HasNonce (nonceStore a) nonce = true ->
  verifyNonce a clock nonce = (a, Some "nonce already used").
Proof. intros Hu. unfold verifyNonce. rewrite Hu. reflexivity. Qed.

Lemma nonce_ttl_seconds (a : Authenticator MemoryNonceStore) :
  is_int64 (2 * timeWindowSec a * Second) ->
  nonce_ttl a = 2 * timeWindowSec a * Second.
Proof.
  unfold nonce_ttl, mul64, Second, is_int64, MinInt64, MaxInt64. intros Hr.
  rewrite (int64_id (timeWindowSec a * 2));
    [|unfold is_int64, MinInt64, MaxInt64; lia].
  rewrite int64_id; [lia|unfold is_int64, MinInt64, MaxInt64; lia].
Qed.

(** With a known appid, a fresh nonce and the right signature, the
    outcome of [VerifySignature] is that of the window test. *)
Lemma VerifySignature_valid (a : Authenticator MemoryNonceStore)
    clock clock' appid sn ts nonce key :
  keys a !! appid = Some key ->
  HasNonce (nonceStore a) nonce = false ->
  (VerifySignature hmac_sha256_hex a clock clock' appid sn ts nonce
     (calculateSignature hmac_sha256_hex appid sn ts nonce key)).2
  = verifyTimestamp a clock ts.
Proof.
  intros Hk Hf. unfold VerifySignature. rewrite Hk.
  destruct (verifyTimestamp a clock ts) eqn:Et; [reflexivity|].
  rewrite verifyNonce_fresh by assumption.
  rewrite bool_decide_eq_true_2 by reflexivity. reflexivity.
Qed.

End WithHMAC.

(** C8 (code defect).  The clock window is meant to accept exactly the
    timestamps with [|now - ts| <= time_window_sec].  [verifyTimestamp]
    computes the distance in [int64]: for the timestamp lying [2^63]
    seconds before the server clock the subtraction wraps to [MinInt64],
    [abs] returns [MinInt64] itself, and the comparison with the window
    lets the tuple through.  Here the window is 300 s, the clock reads
    1700000000 s and the tuple carries a known appid, a fresh nonce and
    the right signature: [VerifySignature] returns [nil] although the
    timestamp is far outside the window. *)
Theorem C8_window_wraps_at_MinInt64 :
  forall hmac_sha256_hex : string -> string -> string,
    let a := NewAuthenticator {["A1" := "K_SECRET_ABC"]} 300 NewMemoryNonceStore in
    let clock := 1700000000 * Second in
    let ts := 1700000000 - 2 ^ 63 in
    is_int64 ts /\
    timeWindowSec a < Z.abs (Unix clock - ts) /\
    sub64 (Unix clock) ts = MinInt64 /\
    (VerifySignature hmac_sha256_hex a clock clock "A1" "SN123456" ts "abc123"
       (calculateSignature hmac_sha256_hex "A1" "SN123456" ts "abc123"
                           "K_SECRET_ABC")).2 = None.
Proof.
  intros hmac a clock ts.
  split; [unfold is_int64, MinInt64, MaxInt64; subst ts; lia|].
  split; [vm_compute; reflexivity|].
  split; [vm_compute; reflexivity|].
  rewrite VerifySignature_valid by (vm_compute; reflexivity).
  vm_compute. reflexivity.
Qed.

(** C2.  Order of the checks of [VerifySignature] for a known appid.
    (1) The timestamp window is tested before the nonce store is
    consulted: a tuple failing the window test is answered "timestamp out
    of window" and the authenticator, its nonce store included, is left
    as it was, whether the nonce had been seen (the tuple fails both
    tests) or not.  (2) The nonce is inserted before the signature is
    compared: with a timestamp in the window and a fresh nonce, a wrong
    signature is answered "invalid signature" and the store now holds the
    nonce, expiring [ttl] after the insertion, where [ttl] is
    [Duration(timeWindowSec*2) * Second], that is twice the window
    whenever that fits a [Duration].  (3) A tuple accepted once is
    answered "nonce already used" when presented again with its timestamp
    still in the window. *)
Theorem C2_check_ordering (hmac_sha256_hex : string -> string -> string)
    (a : Authenticator MemoryNonceStore) (appid sn : string) (ts : Z)
    (nonce sign key : string) :
  keys a !! appid = Some key ->
  (forall clock clock',
      verifyTimestamp a clock ts <> None ->
      HasNonce (nonceStore a) nonce = true ->
      VerifySignature hmac_sha256_hex a clock clock' appid sn ts nonce sign
      = (a, Some "timestamp out of window"))
  /\ (forall clock clock',
      verifyTimestamp a clock ts <> None ->
      VerifySignature hmac_sha256_hex a clock clock' appid sn ts nonce sign
      = (a, Some "timestamp out of window"))
  /\ (forall clock clock',
      verifyTimestamp a clock ts = None ->
      HasNonce (nonceStore a) nonce = false ->
      sign <> calculateSignature hmac_sha256_hex appid sn ts nonce key ->
      exists a',
        VerifySignature hmac_sha256_hex a clock clock' appid sn ts nonce sign
        = (a', Some "invalid signature")
        /\ nonces (nonceStore a')
           = <[nonce := Time.Add clock' (nonce_ttl a)]> (nonces (nonceStore a))
        /\ HasNonce (nonceStore a') nonce = true
        /\ (is_int64 (2 * timeWindowSec a * Second) ->
            nonce_ttl a = 2 * timeWindowSec a * Second))
  /\ (forall clock clock',
      verifyTimestamp a clock ts = None ->
      HasNonce (nonceStore a) nonce = false ->
      sign = calculateSignature hmac_sha256_hex appid sn ts nonce key ->
      exists a',
        VerifySignature hmac_sha256_hex a clock clock' appid sn ts nonce sign
        = (a', None)
        /\ forall clock2 clock2',
            verifyTimestamp a' clock2 ts = None ->
            VerifySignature hmac_sha256_hex a' clock2 clock2' appid sn ts nonce sign
            = (a', Some "nonce already used")).
Proof.
  intros Hk.
  assert (Hts : forall clock clock',
             verifyTimestamp a clock ts <> None ->
             VerifySignature hmac_sha256_hex a clock clock' appid sn ts nonce sign
             = (a, Some "timestamp out of window")).
  { intros clock clock' Hw. unfold VerifySignature. rewrite Hk.
    destruct (verifyTimestamp_cases a clock ts) as [E|E]; [congruence|].
    rewrite E. reflexivity. }
  split; [intros clock clock' Hw _; apply Hts, Hw|].
  split; [exact Hts|].
  split.
  - intros clock clock' Hw Hf Hs.
    eexists. unfold VerifySignature. rewrite Hk, Hw.
    rewrite verifyNonce_fresh by assumption.
    rewrite bool_decide_eq_false_2 by assumption. cbn [negb].
    split; [reflexivity|]. cbn [nonceStore nonces].
    split; [reflexivity|].
    split; [|apply nonce_ttl_seconds].
    apply HasNonce_true. cbn [nonceStore nonces]. rewrite lookup_insert_eq. eauto.
  - intros clock clock' Hw Hf Hs.
    eexists. unfold VerifySignature at 1. rewrite Hk, Hw.
    rewrite verifyNonce_fresh by assumption.
    rewrite bool_decide_eq_true_2 by assumption. cbn [negb].
    split; [reflexivity|].
    intros clock2 clock2' Hw2. unfold VerifySignature. cbn [keys].
    rewrite Hk. unfold verifyTimestamp in Hw2 |- *. cbn [timeWindowSec] in Hw2 |- *.
    rewrite Hw2. rewrite verifyNonce_used; [reflexivity|].
    apply HasNonce_true. cbn [nonceStore nonces]. rewrite lookup_insert_eq. eauto.
Qed.

Lemma C2_check_ordering_witness :
  let hmac := fun key payload : string => key +:+ payload in
  let a := NewAuthenticator {["A1" := "K_SECRET_ABC"]} 300 NewMemoryNonceStore in
  let now := 1700000000 * Second in
  (VerifySignature hmac a now now "A1" "SN1" 1700000400 "n1" "bad"
   = (a, Some "timestamp out of window"))
  /\ (exists a',
        VerifySignature hmac a now now "A1" "SN1" 1700000000 "n1" "bad"
        = (a', Some "invalid signature")
        /\ HasNonce (nonceStore a') "n1" = true)
  /\ (exists a',
        VerifySignature hmac a now now "A1" "SN1" 1700000000 "n1"
          (calculateSignature hmac "A1" "SN1" 1700000000 "n1" "K_SECRET_ABC")
        = (a', None)
        /\ VerifySignature hmac a' (now + Second) (now + Second) "A1" "SN1"
             1700000000 "n1"
             (calculateSignature hmac "A1" "SN1" 1700000000 "n1" "K_SECRET_ABC")
           = (a', Some "nonce already used")).
Proof.
  intros hmac a now.
  split.
  - apply (C2_check_ordering hmac a "A1" "SN1" 1700000400 "n1" "bad" "K_SECRET_ABC");
      vm_compute; [reflexivity|discriminate].
  - split.
    + destruct (C2_check_ordering hmac a "A1" "SN1" 1700000000 "n1" "bad"
                  "K_SECRET_ABC" eq_refl) as (_ & _ & Hsig & _).
      destruct (Hsig now now) as (a' & Hv & _ & Hn & _);
        [vm_compute; reflexivity|vm_compute; reflexivity|vm_compute; discriminate|].
      exists a'. split; assumption.
    + destruct (C2_check_ordering hmac a "A1" "SN1" 1700000000 "n1"
                  (calculateSignature hmac "A1" "SN1" 1700000000 "n1" "K_SECRET_ABC")
                  "K_SECRET_ABC" eq_refl) as (_ & _ & _ & Hrep).
      destruct (Hrep now now) as (a' & Hv & Hagain);
        [vm_compute; reflexivity|vm_compute; reflexivity|reflexivity|].
      exists a'. split; [assumption|].
      apply Hagain.
      assert (Hw : forall x : Authenticator MemoryNonceStore,
                 timeWindowSec x = 300 ->
                 verifyTimestamp x (now + Second) 1700000000 = None).
      { intros x Hx. unfold verifyTimestamp. rewrite Hx. vm_compute. reflexivity. }
      apply Hw.
      assert (Htw : forall r, VerifySignature hmac a now now "A1" "SN1" 1700000000 "n1"
          (calculateSignature hmac "A1" "SN1" 1700000000 "n1" "K_SECRET_ABC") = r ->
          timeWindowSec r.1 = 300).
      { intros r <-. vm_compute. reflexivity. }
      apply (Htw _ Hv).
Defined.

(** ** The nonce store *)

(** X3.  [Cleanup] deletes exactly the nonces whose expiry lies strictly
    before the instant it reads, and changes no expiry.  So a nonce added
    at [clock] with a time to live [ttl] is still known after a [Cleanup]
    at [now] exactly when [now] is not past [clock + ttl]; [HasNonce]
    itself never looks at the expiry. *)
Theorem Cleanup_drops_expired_nonces (m : MemoryNonceStore) (now : Time) :
  (forall nonce t,
      nonces (Cleanup m now) !! nonce = Some t
      <-> nonces m !! nonce = Some t /\ now <= t)
  /\ (forall clock nonce ttl,
      HasNonce (Cleanup (AddNonce m clock nonce ttl).1 now) nonce
      = bool_decide (now <= Time.Add clock ttl))
  /\ (forall clock nonce ttl,
      HasNonce (AddNonce m clock nonce ttl).1 nonce = true).
Proof.
  assert (Hl : forall (m0 : MemoryNonceStore) nonce t,
             nonces (Cleanup m0 now) !! nonce = Some t
             <-> nonces m0 !! nonce = Some t /\ now <= t).
  { intros m0 nonce t. unfold Cleanup. cbn [nonces].
    rewrite map_lookup_filter_Some. cbn [snd]. unfold After.
    split; intros [Hm Ht]; (split; [exact Hm|]).
    - destruct (t <? now) eqn:E; [discriminate|]. apply Z.ltb_ge in E. exact E.
    - apply Z.ltb_ge in Ht. rewrite Ht. reflexivity. }
  split; [apply Hl|]. split.
  - intros clock nonce ttl. cbn [AddNonce MemoryNonceStore_NonceStore fst].
    destruct (decide (now <= Time.Add clock ttl)) as [Hle|Hgt].
    + rewrite (bool_decide_eq_true_2 _ Hle). apply HasNonce_true.
      exists (Time.Add clock ttl). apply Hl. cbn [nonces].
      rewrite lookup_insert_eq. auto.
    + rewrite (bool_decide_eq_false_2 _ Hgt). apply HasNonce_lookup.
      destruct (nonces (Cleanup _ now) !! nonce) as [t|] eqn:E; [|reflexivity].
      apply Hl in E. cbn [nonces] in E. rewrite lookup_insert_eq in E.
      destruct E as [[= <-] Hle]. contradiction.
  - intros clock nonce ttl. apply HasNonce_true.
    cbn [AddNonce MemoryNonceStore_NonceStore fst nonces].
    rewrite lookup_insert_eq. eauto.
Qed.

(** X4.  What a call of [VerifySignature] can do and what a nil error
    means.  The keys and the window are never changed, and the nonce
    store either stays as it was or gains the presented nonce, which it
    did not hold.  An appid without a key is answered "invalid appid"
    with nothing changed.  And the error is nil only if the appid has a
    key, the timestamp passed the window test, the nonce was not known,
    and the signature is the HMAC of the tuple under the key of that
    appid. *)
Theorem VerifySignature_sound (hmac_sha256_hex : string -> string -> string)
    (a a' : Authenticator MemoryNonceStore) (clock clock' : Time)
    (appid sn : string) (ts : Z) (nonce sign : string) (err : option error) :
  VerifySignature hmac_sha256_hex a clock clock' appid sn ts nonce sign = (a', err) ->
  keys a' = keys a
  /\ timeWindowSec a' = timeWindowSec a
  /\ (nonceStore a' = nonceStore a
      \/ (nonces (nonceStore a) !! nonce = None
          /\ nonces (nonceStore a')
             = <[nonce := Time.Add clock' (nonce_ttl a)]> (nonces (nonceStore a))))
  /\ (keys a !! appid = None -> a' = a /\ err = Some "invalid appid")
  /\ (err = None ->
      exists key,
        keys a !! appid = Some key
        /\ verifyTimestamp a clock ts = None
        /\ nonces (nonceStore a) !! nonce = None
        /\ sign = calculateSignature hmac_sha256_hex appid sn ts nonce key).
Proof.
  unfold VerifySignature.
  destruct (keys a !! appid) as [key|] eqn:Hk.
  2:{ intros [= <- <-]. repeat split; auto. discriminate. }
  destruct (verifyTimestamp a clock ts) as [e|] eqn:Ht.
  { intros [= <- <-]. repeat split; auto; discriminate. }
  destruct (HasNonce (nonceStore a) nonce) eqn:Hn.
  { rewrite verifyNonce_used by assumption.
    intros [= <- <-]. repeat split; auto; discriminate. }
  rewrite verifyNonce_fresh by assumption.
  apply HasNonce_lookup in Hn.
  destruct (bool_decide (sign = _)) eqn:Hs; cbn [negb]; intros [= <- <-].
  - apply bool_decide_eq_true in Hs.
    split; [reflexivity|]. split; [reflexivity|].
    split; [right; split; [assumption|reflexivity]|].
    split; [discriminate|]. intros _. exists key. auto.
  - split; [reflexivity|]. split; [reflexivity|].
    split; [right; split; [assumption|reflexivity]|].
    split; discriminate.
Qed.

Lemma VerifySignature_sound_witness :
  let hmac := fun key payload : string => key +:+ payload in
  let a := NewAuthenticator {["A1" := "K_SECRET_ABC"]} 300 NewMemoryNonceStore in
  let now := 1700000000 * Second in
  let sign := calculateSignature hmac "A1" "SN1" 1700000000 "n1" "K_SECRET_ABC" in
  let a' := mkAuthenticator (keys a) 300
              (mkMemoryNonceStore {["n1" := Time.Add now (nonce_ttl a)]}) in
  VerifySignature hmac a now now "A1" "SN1" 1700000000 "n1" sign = (a', None)
  /\ keys a' = keys a
  /\ exists key,
       keys a !! "A1" = Some key
       /\ sign = calculateSignature hmac "A1" "SN1" 1700000000 "n1" key.
Proof.
  intros hmac a now sign a'.
  assert (E : VerifySignature hmac a now now "A1" "SN1" 1700000000 "n1" sign
              = (a', None)) by (vm_compute; reflexivity).
  split; [exact E|].
  destruct (VerifySignature_sound hmac a a' now now "A1" "SN1" 1700000000 "n1"
              sign None E) as (Hk & _ & _ & _ & Hs).
  split; [exact Hk|].
  destruct (Hs eq_refl) as (key & Hkey & _ & _ & Hsign). eauto.
Defined.

End SecurityFacts.

(* ===================================================================== *)
(** * Properties of the session manager *)
(* ===================================================================== *)

Module SessionFacts.
Import Sessions.

Lemma deref_insert_eq (h : gmap ptr Session) s x : deref (<[s := x]> h) s = x.
Proof. unfold deref. apply lookup_total_insert_eq. Qed.

Lemma deref_insert_ne (h : gmap ptr Session) s q x :
  s <> q -> deref (<[s := x]> h) q = deref h q.
Proof. intros Hne. unfold deref. apply lookup_total_insert_ne, Hne. Qed.

Lemma Close_SN h s q : SN (deref (Close h s) q) = SN (deref h q).
Proof.
  unfold Close. destruct (closed (deref h s)); [reflexivity|].
  destruct (decide (s = q)) as [->|Hne].
  - rewrite deref_insert_eq. reflexivity.
  - rewrite deref_insert_ne by assumption. reflexivity.
Qed.

Lemma Close_ID h s q : ID (deref (Close h s) q) = ID (deref h q).
Proof.
  unfold Close. destruct (closed (deref h s)); [reflexivity|].
  destruct (decide (s = q)) as [->|Hne].
  - rewrite deref_insert_eq. reflexivity.
  - rewrite deref_insert_ne by assumption. reflexivity.
Qed.

Lemma Close_closed h s : closed (deref (Close h s) s) = true.
Proof.
  unfold Close. destruct (closed (deref h s)) eqn:E; [assumption|].
  rewrite deref_insert_eq. reflexivity.
Qed.


Lemma Close_conn_closed h s :
  closed (deref h s) = false ->
  Net.conn_closed (Conn (deref (Close h s) s)) = true.
Proof.
  intros E. unfold Close. rewrite E. rewrite deref_insert_eq. reflexivity.
Qed.

(** ** The shape of [Add] *)

Lemma Add_empty_SN h sm s :
  SN (deref h s) = "" ->
  Add (h, sm) s = (h, mkSessionManager (<[ID (deref h s) := s]> (sessions sm)) (snToID sm)).
Proof.
  intros E. unfold Add. rewrite decide_False by (rewrite E; auto). reflexivity.
Qed.

Lemma Add_evicts h sm s oldID old :
  SN (deref h s) <> "" ->
  holder (h, sm) (SN (deref h s)) = Some (oldID, old) ->
  Add (h, sm) s =
    (Close h old,
     mkSessionManager (<[ID (deref h s) := s]> (delete oldID (sessions sm)))
                      (<[SN (deref h s) := ID (deref h s)]> (snToID sm))).
Proof.
  intros Hsn Hh. unfold Add, holder in *. cbn [snd] in Hh.
  rewrite decide_True by assumption.
  destruct (snToID sm !! SN (deref h s)) as [o|]; [|discriminate].
  destruct (sessions sm !! o) as [p|]; [|discriminate].
  injection Hh as -> ->. rewrite Close_ID. reflexivity.
Qed.

Lemma Add_no_holder h sm s :
  SN (deref h s) <> "" ->
  holder (h, sm) (SN (deref h s)) = None ->
  Add (h, sm) s =
    (h,
     mkSessionManager (<[ID (deref h s) := s]> (sessions sm))
                      (<[SN (deref h s) := ID (deref h s)]> (snToID sm))).
Proof.
  intros Hsn Hh. unfold Add, holder in *. cbn [snd] in Hh.
  rewrite decide_True by assumption.
  destruct (snToID sm !! SN (deref h s)) as [o|]; [|reflexivity].
  destruct (sessions sm !! o) as [p|]; [discriminate|reflexivity].
Qed.

(** [Add] writes the store only through [Close]. *)
Lemma Add_SN w s q : SN (deref (Add w s).1 q) = SN (deref w.1 q).
Proof.
  destruct w as [h sm]. cbn [fst].
  destruct (decide (SN (deref h s) = "")) as [E|E].
  - rewrite Add_empty_SN by assumption. reflexivity.
  - destruct (holder (h, sm) (SN (deref h s))) as [[oldID old]|] eqn:Hh.
    + rewrite (Add_evicts _ _ _ _ _ E Hh). cbn [fst]. apply Close_SN.
    + rewrite (Add_no_holder _ _ _ E Hh). reflexivity.
Qed.

Lemma Add_ID w s q : ID (deref (Add w s).1 q) = ID (deref w.1 q).
Proof.
  destruct w as [h sm]. cbn [fst].
  destruct (decide (SN (deref h s) = "")) as [E|E].
  - rewrite Add_empty_SN by assumption. reflexivity.
  - destruct (holder (h, sm) (SN (deref h s))) as [[oldID old]|] eqn:Hh.
    + rewrite (Add_evicts _ _ _ _ _ E Hh). cbn [fst]. apply Close_ID.
    + rewrite (Add_no_holder _ _ _ E Hh). reflexivity.
Qed.

Lemma Add_registers w s :
  sessions (Add w s).2 !! ID (deref w.1 s) = Some s.
Proof.
  destruct w as [h sm]. cbn [fst].
  destruct (decide (SN (deref h s) = "")) as [E|E].
  - rewrite Add_empty_SN by assumption. cbn. apply lookup_insert_eq.
  - destruct (holder (h, sm) (SN (deref h s))) as [[oldID old]|] eqn:Hh.
    + rewrite (Add_evicts _ _ _ _ _ E Hh). cbn. apply lookup_insert_eq.
    + rewrite (Add_no_holder _ _ _ E Hh). cbn. apply lookup_insert_eq.
Qed.

Lemma Add_indexes w s :
  SN (deref w.1 s) <> "" ->
  snToID (Add w s).2 !! SN (deref w.1 s) = Some (ID (deref w.1 s)).
Proof.
  destruct w as [h sm]. cbn [fst]. intros E.
  destruct (holder (h, sm) (SN (deref h s))) as [[oldID old]|] eqn:Hh.
  - rewrite (Add_evicts _ _ _ _ _ E Hh). cbn. apply lookup_insert_eq.
  - rewrite (Add_no_holder _ _ _ E Hh). cbn. apply lookup_insert_eq.
Qed.

(** ** The index invariant *)

Lemma indexed_New h : indexed (h, NewSessionManager).
Proof. intros id s Hs. cbn in Hs. rewrite lookup_empty in Hs. discriminate. Qed.

Lemma indexed_Add w s : indexed w -> indexed (Add w s).
Proof.
  destruct w as [h sm]. intros Hi id q Hq Hsn.
  rewrite Add_SN in Hsn |- *. cbn [fst] in Hsn |- *.
  destruct (decide (SN (deref h s) = "")) as [E|E].
  - rewrite Add_empty_SN in Hq |- * by assumption. cbn in Hq |- *.
    destruct (decide (ID (deref h s) = id)) as [<-|Hne].
    + rewrite lookup_insert_eq in Hq. injection Hq as <-. congruence.
    + rewrite lookup_insert_ne in Hq by assumption. apply (Hi _ _ Hq Hsn).
  - destruct (holder (h, sm) (SN (deref h s))) as [[oldID old]|] eqn:Hh.
    + rewrite (Add_evicts _ _ _ _ _ E Hh) in Hq |- *. cbn in Hq |- *.
      destruct (decide (ID (deref h s) = id)) as [<-|Hne].
      * rewrite lookup_insert_eq in Hq. injection Hq as <-.
        apply lookup_insert_eq.
      * rewrite lookup_insert_ne in Hq by assumption.
        destruct (decide (oldID = id)) as [<-|Hold].
        { rewrite lookup_delete_eq in Hq. discriminate. }
        rewrite lookup_delete_ne in Hq by assumption.
        pose proof (Hi _ _ Hq Hsn) as Hidx. cbn in Hidx.
        destruct (decide (SN (deref h s) = SN (deref h q))) as [Esn|Esn].
        { exfalso. unfold holder in Hh. cbn [snd] in Hh.
          rewrite Esn, Hidx, Hq in Hh. congruence. }
        rewrite lookup_insert_ne by assumption. exact Hidx.
    + rewrite (Add_no_holder _ _ _ E Hh) in Hq |- *. cbn in Hq |- *.
      destruct (decide (ID (deref h s) = id)) as [<-|Hne].
      * rewrite lookup_insert_eq in Hq. injection Hq as <-.
        apply lookup_insert_eq.
      * rewrite lookup_insert_ne in Hq by assumption.
        pose proof (Hi _ _ Hq Hsn) as Hidx. cbn in Hidx.
        destruct (decide (SN (deref h s) = SN (deref h q))) as [Esn|Esn].
        { exfalso. unfold holder in Hh. cbn [snd] in Hh.
          rewrite Esn, Hidx, Hq in Hh. discriminate. }
        rewrite lookup_insert_ne by assumption. exact Hidx.
Qed.

(** [Add] of a session whose serial number was just rewritten: the other
    sessions are indexed, and the session itself is filed under its own
    id if at all. *)
Lemma indexed_Add_rewritten h sm s :
  (forall id q, sessions sm !! id = Some q -> q <> s ->
                SN (deref h q) <> "" -> snToID sm !! SN (deref h q) = Some id) ->
  (forall id, sessions sm !! id = Some s -> id = ID (deref h s)) ->
  indexed (Add (h, sm) s).
Proof.
  intros Hi Hk id q Hq Hsn.
  rewrite Add_SN in Hsn |- *. cbn [fst] in Hsn |- *.
  assert (Hself : ID (deref h s) <> id -> sessions sm !! id = Some q -> q <> s).
  { intros Hne Hs ->. apply Hne. symmetry. apply Hk, Hs. }
  destruct (decide (SN (deref h s) = "")) as [E|E].
  - rewrite Add_empty_SN in Hq |- * by assumption. cbn in Hq |- *.
    destruct (decide (ID (deref h s) = id)) as [<-|Hne].
    + rewrite lookup_insert_eq in Hq. injection Hq as <-. congruence.
    + rewrite lookup_insert_ne in Hq by assumption.
      apply (Hi _ _ Hq (Hself Hne Hq) Hsn).
  - destruct (holder (h, sm) (SN (deref h s))) as [[oldID old]|] eqn:Hh.
    + rewrite (Add_evicts _ _ _ _ _ E Hh) in Hq |- *. cbn in Hq |- *.
      destruct (decide (ID (deref h s) = id)) as [<-|Hne].
      * rewrite lookup_insert_eq in Hq. injection Hq as <-.
        apply lookup_insert_eq.
      * rewrite lookup_insert_ne in Hq by assumption.
        destruct (decide (oldID = id)) as [<-|Hold].
        { rewrite lookup_delete_eq in Hq. discriminate. }
        rewrite lookup_delete_ne in Hq by assumption.
        pose proof (Hi _ _ Hq (Hself Hne Hq) Hsn) as Hidx.
        destruct (decide (SN (deref h s) = SN (deref h q))) as [Esn|Esn].
        { exfalso. unfold holder in Hh. cbn [snd] in Hh.
          rewrite Esn, Hidx, Hq in Hh. congruence. }
        rewrite lookup_insert_ne by assumption. exact Hidx.
    + rewrite (Add_no_holder _ _ _ E Hh) in Hq |- *. cbn in Hq |- *.
      destruct (decide (ID (deref h s) = id)) as [<-|Hne].
      * rewrite lookup_insert_eq in Hq. injection Hq as <-.
        apply lookup_insert_eq.
      * rewrite lookup_insert_ne in Hq by assumption.
        pose proof (Hi _ _ Hq (Hself Hne Hq) Hsn) as Hidx.
        destruct (decide (SN (deref h s) = SN (deref h q))) as [Esn|Esn].
        { exfalso. unfold holder in Hh. cbn [snd] in Hh.
          rewrite Esn, Hidx, Hq in Hh. discriminate. }
        rewrite lookup_insert_ne by assumption. exact Hidx.
Qed.

Lemma indexed_auth h sm s sn appid meta :
  indexed (h, sm) -> keyed (h, sm) ->
  indexed (Add (<[s := set_auth (deref h s) sn appid meta]> h, sm) s).
Proof.
  intros Hi Hk. apply indexed_Add_rewritten.
  - intros id q Hq Hne. rewrite deref_insert_ne by congruence. apply (Hi _ _ Hq).
  - intros id Hs. rewrite deref_insert_eq. cbn. symmetry. apply (Hk _ _ Hs).
Qed.

Lemma indexed_Remove w sessionID : indexed w -> indexed (Remove w sessionID).
Proof.
  destruct w as [h sm]. intros Hi. unfold Remove.
  destruct (sessions sm !! sessionID) as [s|] eqn:Hs; [|exact Hi].
  intros id q Hq Hsn. cbn in Hq, Hsn |- *.
  rewrite Close_SN in Hsn |- *.
  destruct (decide (sessionID = id)) as [<-|Hne].
  { rewrite lookup_delete_eq in Hq. discriminate. }
  rewrite lookup_delete_ne in Hq by assumption.
  pose proof (Hi _ _ Hq Hsn) as Hidx. cbn in Hidx.
  destruct (decide (SN (deref (Close h s) s) <> "")) as [E|E]; [|exact Hidx].
  rewrite Close_SN in E |- *.
  destruct (decide (SN (deref h s) = SN (deref h q))) as [Esn|Esn].
  - exfalso. pose proof (Hi _ _ Hs E) as Hidx'. cbn in Hidx'.
    rewrite Esn in Hidx'. congruence.
  - rewrite lookup_delete_ne by assumption. exact Hidx.
Qed.

Lemma indexed_foldl_Remove ids w : indexed w -> indexed (foldl Remove w ids).
Proof.
  revert w. induction ids as [|id ids IH]; intros w Hi; [exact Hi|].
  cbn [foldl]. apply IH, indexed_Remove, Hi.
Qed.

Lemma indexed_Shutdown w : indexed w -> indexed (Shutdown w).
Proof.
  destruct w as [h sm]. intros _. unfold Shutdown. apply indexed_New.
Qed.

Lemma indexed_store h h' sm :
  indexed (h, sm) ->
  (forall id s, sessions sm !! id = Some s -> SN (deref h' s) = SN (deref h s)) ->
  indexed (h', sm).
Proof.
  intros Hi Hsame id s Hs Hsn. cbn in *.
  rewrite (Hsame _ _ Hs) in Hsn |- *. apply (Hi _ _ Hs Hsn).
Qed.

(** ** Sessions are filed under their own id *)

Lemma keyed_New h : keyed (h, NewSessionManager).
Proof. intros id s Hs. cbn in Hs. rewrite lookup_empty in Hs. discriminate. Qed.

Lemma keyed_Add w s : keyed w -> keyed (Add w s).
Proof.
  destruct w as [h sm]. intros Hk id q Hq. rewrite Add_ID. cbn [fst].
  destruct (decide (ID (deref h s) = id)) as [<-|Hne].
  { pose proof (Add_registers (h, sm) s) as Hreg. cbn [fst] in Hreg.
    rewrite Hreg in Hq. injection Hq as <-. reflexivity. }
  apply (Hk id q). cbn [snd]. revert Hq.
  destruct (decide (SN (deref h s) = "")) as [E|E].
  - rewrite Add_empty_SN by assumption. cbn.
    rewrite lookup_insert_ne by assumption. auto.
  - destruct (holder (h, sm) (SN (deref h s))) as [[oldID old]|] eqn:Hh.
    + rewrite (Add_evicts _ _ _ _ _ E Hh). cbn.
      rewrite lookup_insert_ne by assumption.
      intros Hq. apply lookup_delete_Some in Hq. tauto.
    + rewrite (Add_no_holder _ _ _ E Hh). cbn.
      rewrite lookup_insert_ne by assumption. auto.
Qed.

Lemma keyed_store h h' sm :
  keyed (h, sm) ->
  (forall id s, sessions sm !! id = Some s -> ID (deref h' s) = ID (deref h s)) ->
  keyed (h', sm).
Proof.
  intros Hk Hsame id s Hs. cbn in *. rewrite (Hsame _ _ Hs). apply (Hk _ _ Hs).
Qed.

Lemma keyed_Remove w sessionID : keyed w -> keyed (Remove w sessionID).
Proof.
  destruct w as [h sm]. intros Hk. unfold Remove.
  destruct (sessions sm !! sessionID) as [s|] eqn:Hs; [|exact Hk].
  intros id q Hq. cbn in Hq |- *. rewrite Close_ID.
  apply lookup_delete_Some in Hq. apply (Hk id q). tauto.
Qed.

Lemma keyed_foldl_Remove ids w : keyed w -> keyed (foldl Remove w ids).
Proof.
  revert w. induction ids as [|id ids IH]; intros w Hk; [exact Hk|].
  cbn [foldl]. apply IH, keyed_Remove, Hk.
Qed.

Lemma reachable_consistent w : reachable w -> indexed w /\ keyed w.
Proof.
  induction 1 as [h | w s _ [Hi Hk] | w s sn appid meta _ [Hi Hk]
                 | w id _ [Hi Hk] | w now timeout _ [Hi Hk] | w _ [Hi Hk]
                 | h h' sm _ [Hi Hk] Hsame].
  - split; [apply indexed_New|apply keyed_New].
  - split; [apply indexed_Add|apply keyed_Add]; assumption.
  - destruct w as [h sm]. split.
    + apply indexed_auth; assumption.
    + apply keyed_Add. eapply keyed_store; [exact Hk|].
      intros id q _. cbn. destruct (decide (s = q)) as [->|Hne].
      * rewrite deref_insert_eq. reflexivity.
      * rewrite deref_insert_ne by assumption. reflexivity.
  - split; [apply indexed_Remove|apply keyed_Remove]; assumption.
  - unfold CleanupExpired. cbn [fst].
    split; [apply indexed_foldl_Remove|apply keyed_foldl_Remove]; assumption.
  - destruct w. split; [apply indexed_New|apply keyed_New].
  - split.
    + eapply indexed_store; [exact Hi|]. intros id s Hs. apply (Hsame _ _ Hs).
    + eapply keyed_store; [exact Hk|]. intros id s Hs. apply (Hsame _ _ Hs).
Qed.




Lemma GetOnlineDevices_spec w sn :
  sn ∈ GetOnlineDevices w <-> is_Some (snToID w.2 !! sn).
Proof.
  unfold GetOnlineDevices. rewrite list_elem_of_fmap. split.
  - intros ([k v] & -> & Hin). apply elem_of_map_to_list in Hin. eauto.
  - intros [v Hv]. exists (sn, v). split; [reflexivity|].
    apply elem_of_map_to_list. exact Hv.
Qed.





(** ** Closing a session *)

Lemma Close_other h s q : s <> q -> deref (Close h s) q = deref h q.
Proof.
  intros Hne. unfold Close. destruct (closed (deref h s)); [reflexivity|].
  apply deref_insert_ne, Hne.
Qed.

Lemma Close_keeps_closed h s q :
  closed (deref h q) = true -> closed (deref (Close h s) q) = true.
Proof.
  intros Hc. destruct (decide (s = q)) as [->|Hne].
  - apply Close_closed.
  - rewrite Close_other by assumption. exact Hc.
Qed.

Lemma Close_LastPing h s q : LastPing (deref (Close h s) q) = LastPing (deref h q).
Proof.
  unfold Close. destruct (closed (deref h s)); [reflexivity|].
  destruct (decide (s = q)) as [->|Hne].
  - rewrite deref_insert_eq. reflexivity.
  - rewrite deref_insert_ne by assumption. reflexivity.
Qed.

(** X5.  Closing is final.  A second [Close] changes nothing; after
    [Close] the session reports closed, [SendMessage] returns
    [ErrSessionClosed] and writes nothing, the bytes written before are
    as they were, the connection of a session that was open is closed,
    and no other session is touched. *)
Theorem Close_is_final (h : gmap ptr Session) (s : ptr) (msg : Codec.Message) :
  Close (Close h s) s = Close h s
  /\ IsClosed (Close h s) s = true
  /\ SendMessage (Close h s) s msg = (Close h s, Some ErrSessionClosed)
  /\ Net.outbound (Conn (deref (Close h s) s)) = Net.outbound (Conn (deref h s))
  /\ (IsClosed h s = false -> Net.conn_closed (Conn (deref (Close h s) s)) = true)
  /\ (forall q, q <> s -> deref (Close h s) q = deref h q).
Proof.
  split; [unfold Close at 1; rewrite Close_closed; reflexivity|].
  split; [apply Close_closed|].
  split; [unfold SendMessage; rewrite Close_closed; reflexivity|].
  split.
  { unfold Close. destruct (closed (deref h s)); [reflexivity|].
    rewrite deref_insert_eq. reflexivity. }
  split; [apply Close_conn_closed|].
  intros q Hne. apply Close_other. congruence.
Qed.

(** ** Registering a session again *)

(** X6.  [Add] of a session that the manager already holds under its
    serial number evicts that very session: its close flag is set (and
    with it its connection is closed) before it is filed again.  It is
    then still held and listed, but [GetBySN] no longer finds it. *)
Theorem Add_again_closes_the_session (w : World) (s : ptr) :
  SN (deref w.1 s) <> "" ->
  sessions w.2 !! ID (deref w.1 s) = Some s ->
  snToID w.2 !! SN (deref w.1 s) = Some (ID (deref w.1 s)) ->
  IsClosed (Add w s).1 s = true
  /\ Get (Add w s) (ID (deref w.1 s)) = Some s
  /\ GetBySN (Add w s) (SN (deref w.1 s)) = None
  /\ SN (deref w.1 s) ∈ GetOnlineDevices (Add w s).
Proof.
  destruct w as [h sm]. cbn [fst snd]. intros Hsn Hs Hidx.
  assert (Hh : holder (h, sm) (SN (deref h s)) = Some (ID (deref h s), s)).
  { unfold holder. cbn [snd]. rewrite Hidx, Hs. reflexivity. }
  rewrite (Add_evicts _ _ _ _ _ Hsn Hh).
  split; [apply Close_closed|].
  split; [unfold Get; cbn; apply lookup_insert_eq|].
  split.
  - unfold GetBySN. cbn [sessions snToID]. rewrite !lookup_insert_eq.
    unfold IsClosed. rewrite Close_closed. reflexivity.
  - apply GetOnlineDevices_spec. cbn. rewrite lookup_insert_eq. eauto.
Qed.

Lemma Add_again_closes_the_session_witness :
  let conn := Net.mkConn [] Net.AtEOF [] false in
  let A := mkSession "id-A" "SN1" "A1" conn "10.0.0.1:1" 0 0 ∅ false in
  let w := Add (<[1%nat := A]> ∅, NewSessionManager) 1%nat in
  IsClosed w.1 1%nat = false
  /\ IsClosed (Add w 1%nat).1 1%nat = true
  /\ Get (Add w 1%nat) "id-A" = Some 1%nat
  /\ GetBySN (Add w 1%nat) "SN1" = None
  /\ "SN1" ∈ GetOnlineDevices (Add w 1%nat).
Proof.
  intros conn A w. split; [vm_compute; reflexivity|].
  apply (Add_again_closes_the_session w 1%nat).
  - vm_compute. discriminate.
  - vm_compute. reflexivity.
  - vm_compute. reflexivity.
Defined.

(** X7.  A session that is registered under a serial number and is then
    authenticated under another one (the Auth handler rewrites [SN] and
    calls [Add]) keeps its entry in the SN index under the old serial
    number: [GetBySN] of the old serial number still returns the session,
    which now carries the new one, and both are listed. *)
Theorem renamed_session_answers_to_old_serial_number
    (w : World) (s : ptr) (sn appid : string) (meta : gmap string string) :
  reachable w ->
  SN (deref w.1 s) <> "" ->
  sn <> SN (deref w.1 s) ->
  sessions w.2 !! ID (deref w.1 s) = Some s ->
  snToID w.2 !! sn <> Some (ID (deref w.1 s)) ->
  IsClosed w.1 s = false ->
  let w' := Add (<[s := set_auth (deref w.1 s) sn appid meta]> w.1, w.2) s in
  GetBySN w' (SN (deref w.1 s)) = Some s
  /\ SN (deref w'.1 s) = sn
  /\ SN (deref w.1 s) ∈ GetOnlineDevices w'
  /\ (sn <> "" -> GetBySN w' sn = Some s).
Proof.
  intros Hr Hx Hne Hs Hnot Hopen w'. subst w'.
  destruct (reachable_consistent w Hr) as [Hi Hk].
  pose proof (Hi _ _ Hs Hx) as Hidx.
  destruct w as [h sm]. cbn [fst snd] in *.
  set (h1 := <[s := set_auth (deref h s) sn appid meta]> h).
  assert (Hsn1 : SN (deref h1 s) = sn) by (subst h1; rewrite deref_insert_eq; reflexivity).
  assert (Hid1 : ID (deref h1 s) = ID (deref h s))
    by (subst h1; rewrite deref_insert_eq; reflexivity).
  assert (Hc1 : closed (deref h1 s) = false)
    by (subst h1; rewrite deref_insert_eq; exact Hopen).
  rewrite Add_SN. cbn [fst].
  split; [|split; [exact Hsn1|]].
  - destruct (decide (sn = "")) as [E|E].
    + rewrite Add_empty_SN by congruence. unfold GetBySN. cbn [sessions snToID].
      rewrite Hidx, Hid1, lookup_insert_eq. unfold IsClosed. rewrite Hc1. reflexivity.
    + assert (E1 : SN (deref h1 s) <> "") by congruence.
      destruct (holder (h1, sm) (SN (deref h1 s))) as [[oldID old]|] eqn:Hh.
      * rewrite (Add_evicts _ _ _ _ _ E1 Hh).
        unfold GetBySN. cbn [sessions snToID].
        rewrite Hsn1, Hid1. rewrite lookup_insert_ne by assumption.
        rewrite Hidx, lookup_insert_eq.
        assert (Hold : old <> s).
        { unfold holder in Hh. cbn [snd] in Hh. rewrite Hsn1 in Hh.
          destruct (snToID sm !! sn) as [o|] eqn:Eo; [|discriminate].
          destruct (sessions sm !! o) as [p|] eqn:Ep; [|discriminate].
          injection Hh as -> ->. intros ->.
          apply Hnot. f_equal. symmetry. apply (Hk _ _ Ep). }
        unfold IsClosed. rewrite Close_other by assumption. rewrite Hc1. reflexivity.
      * rewrite (Add_no_holder _ _ _ E1 Hh).
        unfold GetBySN. cbn [sessions snToID].
        rewrite Hsn1, Hid1. rewrite lookup_insert_ne by assumption.
        rewrite Hidx, lookup_insert_eq. unfold IsClosed. rewrite Hc1. reflexivity.
  - split.
    + apply GetOnlineDevices_spec.
      destruct (decide (sn = "")) as [E|E].
      * rewrite Add_empty_SN by congruence. cbn. rewrite Hidx. eauto.
      * assert (E1 : SN (deref h1 s) <> "") by congruence.
        destruct (holder (h1, sm) (SN (deref h1 s))) as [[oldID old]|] eqn:Hh.
        -- rewrite (Add_evicts _ _ _ _ _ E1 Hh). cbn.
           rewrite Hsn1, lookup_insert_ne by assumption. rewrite Hidx. eauto.
        -- rewrite (Add_no_holder _ _ _ E1 Hh). cbn.
           rewrite Hsn1, lookup_insert_ne by assumption. rewrite Hidx. eauto.
    + intros E. assert (E1 : SN (deref h1 s) <> "") by congruence.
      destruct (holder (h1, sm) (SN (deref h1 s))) as [[oldID old]|] eqn:Hh.
      * rewrite (Add_evicts _ _ _ _ _ E1 Hh).
        unfold GetBySN. cbn [sessions snToID].
        rewrite Hsn1, !lookup_insert_eq.
        assert (Hold : old <> s).
        { unfold holder in Hh. cbn [snd] in Hh. rewrite Hsn1 in Hh.
          destruct (snToID sm !! sn) as [o|] eqn:Eo; [|discriminate].
          destruct (sessions sm !! o) as [p|] eqn:Ep; [|discriminate].
          injection Hh as -> ->. intros ->.
          apply Hnot. f_equal. symmetry. apply (Hk _ _ Ep). }
        unfold IsClosed. rewrite Close_other by assumption. rewrite Hc1. reflexivity.
      * rewrite (Add_no_holder _ _ _ E1 Hh).
        unfold GetBySN. cbn [sessions snToID].
        rewrite Hsn1, !lookup_insert_eq. unfold IsClosed. rewrite Hc1. reflexivity.
Qed.

Lemma renamed_session_answers_to_old_serial_number_witness :
  let conn := Net.mkConn [] Net.AtEOF [] false in
  let A := mkSession "id-A" "SN1" "A1" conn "10.0.0.1:1" 0 0 ∅ false in
  let w := Add (<[1%nat := A]> ∅, NewSessionManager) 1%nat in
  let w' := Add (<[1%nat := set_auth (deref w.1 1%nat) "SN2" "A1" ∅]> w.1, w.2) 1%nat in
  GetBySN w' "SN1" = Some 1%nat
  /\ SN (deref w'.1 1%nat) = "SN2"
  /\ "SN1" ∈ GetOnlineDevices w'
  /\ ("SN2" <> "" -> GetBySN w' "SN2" = Some 1%nat).
Proof.
  intros conn A w.
  apply (renamed_session_answers_to_old_serial_number w 1%nat "SN2" "A1" ∅).
  - apply reach_Add, reach_New.
  - vm_compute. discriminate.
  - vm_compute. discriminate.
  - vm_compute. reflexivity.
  - vm_compute. discriminate.
  - vm_compute. reflexivity.
Defined.

(** ** Removing a session *)

Lemma Remove_sessions w id : sessions (Remove w id).2 = delete id (sessions w.2).
Proof.
  destruct w as [h sm]. unfold Remove.
  destruct (sessions sm !! id) as [s|] eqn:Hs; [reflexivity|].
  cbn [snd]. symmetry. apply delete_id, Hs.
Qed.


Lemma Remove_present h sm id s :
  sessions sm !! id = Some s ->
  Remove (h, sm) id
  = (Close h s,
     mkSessionManager (delete id (sessions sm))
       (if decide (SN (deref h s) <> "")
        then delete (SN (deref h s)) (snToID sm) else snToID sm)).
Proof. intros Hs. unfold Remove. rewrite Hs, Close_SN. reflexivity. Qed.

Lemma Remove_keeps_closed w id q :
  closed (deref w.1 q) = true -> closed (deref (Remove w id).1 q) = true.
Proof.
  destruct w as [h sm]. cbn [fst]. intros Hc. unfold Remove.
  destruct (sessions sm !! id) as [s|]; [|exact Hc].
  cbn [fst]. apply Close_keeps_closed, Hc.
Qed.

Lemma Remove_LastPing w id q :
  LastPing (deref (Remove w id).1 q) = LastPing (deref w.1 q).
Proof.
  destruct w as [h sm]. cbn [fst]. unfold Remove.
  destruct (sessions sm !! id) as [s|]; [|reflexivity].
  cbn [fst]. apply Close_LastPing.
Qed.



(** ** What the SN index holds *)







(** ** Expiry *)

Lemma foldl_Remove_lookup ids w id :
  sessions (foldl Remove w ids).2 !! id
  = if decide (id ∈ ids) then None else sessions w.2 !! id.
Proof.
  revert w. induction ids as [|i ids IH]; intros w; cbn [foldl].
  { rewrite decide_False by apply not_elem_of_nil. reflexivity. }
  rewrite IH, Remove_sessions.
  destruct (decide (id ∈ ids)) as [Hin|Hout].
  - rewrite decide_True by (apply elem_of_cons; auto). reflexivity.
  - destruct (decide (id = i)) as [->|Hne].
    + rewrite decide_True by (apply elem_of_cons; auto). apply lookup_delete_eq.
    + rewrite decide_False by (rewrite elem_of_cons; tauto).
      apply lookup_delete_ne. congruence.
Qed.

Lemma foldl_Remove_keeps_closed ids w q :
  closed (deref w.1 q) = true -> closed (deref (foldl Remove w ids).1 q) = true.
Proof.
  revert w. induction ids as [|i ids IH]; intros w Hc; [exact Hc|].
  cbn [foldl]. apply IH, Remove_keeps_closed, Hc.
Qed.

Lemma foldl_Remove_closes ids w id s :
  id ∈ ids -> sessions w.2 !! id = Some s ->
  closed (deref (foldl Remove w ids).1 s) = true.
Proof.
  revert w. induction ids as [|i ids IH]; intros w Hin Hs.
  { apply elem_of_nil in Hin. contradiction. }
  cbn [foldl]. destruct (decide (id = i)) as [->|Hne].
  - apply foldl_Remove_keeps_closed. destruct w as [h sm]. cbn [snd] in Hs.
    rewrite (Remove_present _ _ _ _ Hs). cbn [fst]. apply Close_closed.
  - apply IH.
    + apply elem_of_cons in Hin. tauto.
    + rewrite Remove_sessions, lookup_delete_ne by congruence. exact Hs.
Qed.

Lemma foldl_Remove_LastPing ids w q :
  LastPing (deref (foldl Remove w ids).1 q) = LastPing (deref w.1 q).
Proof.
  revert w. induction ids as [|i ids IH]; intros w; [reflexivity|].
  cbn [foldl]. rewrite IH. apply Remove_LastPing.
Qed.

Lemma foldl_Remove_size ids w :
  NoDup ids ->
  (forall id, id ∈ ids -> is_Some (sessions w.2 !! id)) ->
  (size (sessions (foldl Remove w ids).2) + length ids = size (sessions w.2))%nat.
Proof.
  revert w. induction ids as [|i ids IH]; intros w Hnd Hall; cbn [foldl length].
  { lia. }
  apply NoDup_cons in Hnd. destruct Hnd as [Hi Hnd].
  destruct (Hall i) as [s Hs]; [apply elem_of_cons; auto|].
  assert (Hrest : forall id, id ∈ ids -> is_Some (sessions (Remove w i).2 !! id)).
  { intros id Hin. rewrite Remove_sessions, lookup_delete_ne.
    - apply Hall, elem_of_cons. auto.
    - intros <-. contradiction. }
  pose proof (IH (Remove w i) Hnd Hrest) as E.
  rewrite Remove_sessions in E.
  rewrite map_size_delete_Some in E by eauto.
  assert (Hpos : size (sessions w.2) <> 0%nat).
  { intros Hz. apply map_size_empty_inv in Hz. rewrite Hz in Hs.
    rewrite lookup_empty in Hs. discriminate. }
  lia.
Qed.

Lemma elem_of_expired_ids_at w clock timeout id :
  id ∈ expired_ids_at w clock timeout
  <-> exists s, sessions w.2 !! id = Some s
                /\ IsExpired w.1 s (clock id) timeout = true.
Proof.
  unfold expired_ids_at. rewrite list_elem_of_fmap. split.
  - intros ([k s] & -> & Hin). apply list_elem_of_filter in Hin.
    destruct Hin as [Hexp Hin]. apply elem_of_map_to_list in Hin. eauto.
  - intros (s & Hs & Hexp). exists (id, s). split; [reflexivity|].
    apply list_elem_of_filter. split; [exact Hexp|].
    apply elem_of_map_to_list, Hs.
Qed.

Lemma NoDup_fst_filter {A B} (P : A * B -> Prop) `{!forall x, Decision (P x)}
    (l : list (A * B)) :
  NoDup (l.*1) -> NoDup ((filter P l).*1).
Proof.
  induction l as [|x l IH]; [auto|].
  cbn [fmap list_fmap]. intros Hnd. apply NoDup_cons in Hnd.
  destruct Hnd as [Hx Hnd]. rewrite filter_cons.
  destruct (decide (P x)); [|auto].
  cbn [fmap list_fmap]. apply NoDup_cons. split; [|auto].
  intros Hin. apply Hx. apply list_elem_of_fmap in Hin.
  destruct Hin as (y & Hy & Hin). apply list_elem_of_filter in Hin.
  apply list_elem_of_fmap. exists y. tauto.
Qed.

Lemma CleanupExpired_still : forall w now timeout,
  CleanupExpired w now timeout = CleanupExpired_at w (fun _ => now) timeout.
Proof. reflexivity. Qed.

(** What [CleanupExpired] leaves in the id index. *)
Lemma CleanupExpired_at_Get w clock timeout id s :
  Get (CleanupExpired_at w clock timeout).1 id = Some s
  <-> Get w id = Some s /\ IsExpired w.1 s (clock id) timeout = false.
Proof.
  unfold CleanupExpired_at, Get. cbn [fst]. rewrite foldl_Remove_lookup.
  destruct (decide (id ∈ expired_ids_at w clock timeout)) as [Hin|Hout].
  - apply elem_of_expired_ids_at in Hin. destruct Hin as (q & Hq & Hexp).
    split; [discriminate|]. intros [Hs Hno]. congruence.
  - split; [|tauto]. intros Hs. split; [exact Hs|].
    destruct (IsExpired w.1 s (clock id) timeout) eqn:Hexp; [|reflexivity].
    exfalso. apply Hout, elem_of_expired_ids_at. eauto.
Qed.

(** X10.  [CleanupExpired] removes exactly the sessions that are expired
    at the instant read for them: a session is held afterwards if and
    only if it was held and not expired then.  The removed sessions are
    closed, no session changes its [LastPing], and the count returned is
    the number of sessions that left the id index.  With a clock that
    stands still during the call this is [CleanupExpired w now timeout]. *)
Theorem CleanupExpired_removes_the_expired
    (w : World) (clock : string -> Z) (timeout : Z) :
  (forall id s,
      Get (CleanupExpired_at w clock timeout).1 id = Some s
      <-> Get w id = Some s /\ IsExpired w.1 s (clock id) timeout = false)
  /\ (forall id s,
      Get w id = Some s -> IsExpired w.1 s (clock id) timeout = true ->
      IsClosed (CleanupExpired_at w clock timeout).1.1 s = true)
  /\ (forall s,
      LastPing (deref (CleanupExpired_at w clock timeout).1.1 s)
      = LastPing (deref w.1 s))
  /\ (CleanupExpired_at w clock timeout).2
     = Z.of_nat (size (sessions w.2))
       - Z.of_nat (size (sessions (CleanupExpired_at w clock timeout).1.2))
  /\ (forall now, CleanupExpired w now timeout
                  = CleanupExpired_at w (fun _ => now) timeout).
Proof.
  split; [intros id s; apply CleanupExpired_at_Get|].
  split; [|split; [|split]].
  - intros id s Hs Hexp. unfold CleanupExpired_at, IsClosed. cbn [fst].
    apply (foldl_Remove_closes _ _ id); [|exact Hs].
    apply elem_of_expired_ids_at. eauto.
  - intros s. unfold CleanupExpired_at. cbn [fst]. apply foldl_Remove_LastPing.
  - unfold CleanupExpired_at. cbn [fst snd].
    pose proof (foldl_Remove_size (expired_ids_at w clock timeout) w) as Hsz.
    rewrite <- Hsz; [lia| |].
    + unfold expired_ids_at. apply NoDup_fst_filter, NoDup_fst_map_to_list.
    + intros id Hin. apply elem_of_expired_ids_at in Hin.
      destruct Hin as (s & Hs & _). eauto.
  - reflexivity.
Qed.

(** X11.  A session whose [LastPing] was set at [now] is kept by a
    [CleanupExpired] that examines it at [now'] when no more than
    [timeout] has passed, and removed when more has passed (a timeout of
    [MaxInt64] never expires): the bound is inclusive. *)
Theorem pinged_session_outlives_timeout
    (w : World) (id : string) (s : ptr) (clock : string -> Z) (now timeout : Z) :
  Int.is_int64 timeout ->
  Get w id = Some s ->
  (clock id - now <= timeout ->
   Get (CleanupExpired_at (UpdatePing w.1 s now, w.2) clock timeout).1 id = Some s)
  /\ (timeout < clock id - now -> timeout < Int.MaxInt64 ->
      Get (CleanupExpired_at (UpdatePing w.1 s now, w.2) clock timeout).1 id = None).
Proof.
  intros Ht Hs.
  assert (Hexp : IsExpired (UpdatePing w.1 s now) s (clock id) timeout
                 = (timeout <? Z.max Int.MinInt64 (Z.min Int.MaxInt64 (clock id - now)))).
  { unfold IsExpired, UpdatePing, Time.Sub. rewrite deref_insert_eq. reflexivity. }
  unfold Int.is_int64, Int.MinInt64, Int.MaxInt64 in *.
  split.
  - intros Hle. apply CleanupExpired_at_Get. split; [exact Hs|].
    cbn [fst]. rewrite Hexp. apply Z.ltb_ge. lia.
  - intros Hlt Hmax.
    destruct (Get (CleanupExpired_at _ clock timeout).1 id) as [q|] eqn:E;
      [|reflexivity].
    apply CleanupExpired_at_Get in E. destruct E as [Hq Hno].
    cbn [fst snd] in Hq, Hno. unfold Get in Hs, Hq. cbn [snd] in Hq.
    assert (q = s) by congruence. subst q.
    rewrite Hexp in Hno. apply Z.ltb_ge in Hno. lia.
Qed.

Lemma pinged_session_outlives_timeout_witness :
  let conn := Net.mkConn [] Net.AtEOF [] false in
  let A := mkSession "id-A" "SN1" "A1" conn "10.0.0.1:1" 0 0 ∅ false in
  let w := Add (<[1%nat := A]> ∅, NewSessionManager) 1%nat in
  Get (CleanupExpired (UpdatePing w.1 1%nat 1000, w.2) 1090 90).1 "id-A" = Some 1%nat
  /\ Get (CleanupExpired (UpdatePing w.1 1%nat 1000, w.2) 1091 90).1 "id-A" = None.
Proof.
  intros conn A w. split.
  - apply (pinged_session_outlives_timeout w "id-A" 1%nat (fun _ => 1090) 1000 90).
    + vm_compute. split; discriminate.
    + vm_compute. reflexivity.
    + lia.
  - apply (pinged_session_outlives_timeout w "id-A" 1%nat (fun _ => 1091) 1000 90).
    + vm_compute. split; discriminate.
    + vm_compute. reflexivity.
    + lia.
    + vm_compute. reflexivity.
Defined.

(** ** Shutdown and the snapshot *)

(** X12.  [Shutdown] closes every session the manager holds and empties
    both indices: afterwards [Get] and [GetBySN] find nothing and no
    serial number is listed.  Sessions the manager did not hold are as
    they were. *)
Theorem Shutdown_closes_every_session (w : World) :
  (forall id, Get (Shutdown w) id = None)
  /\ (forall sn, GetBySN (Shutdown w) sn = None)
  /\ GetOnlineDevices (Shutdown w) = []
  /\ (forall id s, Get w id = Some s -> IsClosed (Shutdown w).1 s = true)
  /\ (forall s, (forall id, Get w id <> Some s) ->
                deref (Shutdown w).1 s = deref w.1 s).
Proof.
  destruct w as [h sm]. unfold Shutdown, Get, IsClosed. cbn [fst snd].
  split; [intros id; apply lookup_empty|].
  split; [intros sn; unfold GetBySN; cbn; rewrite lookup_empty; reflexivity|].
  split; [unfold GetOnlineDevices; cbn; rewrite map_to_list_empty; reflexivity|].
  apply (map_fold_weak_ind
           (fun r (m : gmap string ptr) =>
              (forall id s, m !! id = Some s -> closed (deref r s) = true)
              /\ (forall s, (forall id, m !! id <> Some s) -> deref r s = deref h s))).
  - split; [intros id s Hs; rewrite lookup_empty in Hs; discriminate|auto].
  - intros i x m r Hi [IH1 IH2]. split.
    + intros id s Hs. destruct (decide (i = id)) as [->|Hne].
      * rewrite lookup_insert_eq in Hs. injection Hs as ->. apply Close_closed.
      * rewrite lookup_insert_ne in Hs by assumption.
        apply Close_keeps_closed, (IH1 _ _ Hs).
    + intros s Hnot.
      assert (Hx : x <> s).
      { intros ->. apply (Hnot i). apply lookup_insert_eq. }
      rewrite Close_other by assumption. apply IH2.
      intros id Hs. apply (Hnot id).
      rewrite lookup_insert_ne; [exact Hs|]. intros ->. congruence.
Qed.

Lemma GetSessionInfo_lookup w id :
  keyed w ->
  GetSessionInfo w !! id = (fun s => info_of (deref w.1 s)) <$> Get w id.
Proof.
  intros Hk.
  destruct w as [h sm]. unfold GetSessionInfo, Get, keyed in *. cbn [fst snd] in *.
  revert Hk id.
  apply (map_fold_weak_ind
           (fun (r : gmap string SessionInfo) (m : gmap string ptr) =>
              (forall id s, m !! id = Some s -> ID (deref h s) = id) ->
              forall id, r !! id = (fun s => info_of (deref h s)) <$> m !! id)).
  - intros _ id. rewrite !lookup_empty. reflexivity.
  - intros i x m r Hi IH Hk id.
    assert (Hx : ID (deref h x) = i) by (apply Hk, lookup_insert_eq).
    rewrite Hx. destruct (decide (i = id)) as [->|Hne].
    + rewrite !lookup_insert_eq. reflexivity.
    + rewrite !lookup_insert_ne by assumption. apply IH.
      intros id' s Hs. apply Hk. rewrite lookup_insert_ne; [exact Hs|].
      intros ->. congruence.
Qed.

(** X13.  In a state the manager reaches, [GetSessionInfo] has one entry
    per session held, under the id the session is filed under, with the
    fields of that session as they are in the store. *)
Theorem GetSessionInfo_snapshots_the_held_sessions (w : World) (id : string) :
  reachable w ->
  GetSessionInfo w !! id = (fun s => info_of (deref w.1 s)) <$> Get w id.
Proof.
  intros Hr. apply GetSessionInfo_lookup. apply (reachable_consistent w Hr).
Qed.

Lemma GetSessionInfo_snapshots_the_held_sessions_witness :
  let conn := Net.mkConn [] Net.AtEOF [] false in
  let A := mkSession "id-A" "SN1" "A1" conn "10.0.0.1:1" 7 9 ∅ false in
  let w := Add (<[1%nat := A]> ∅, NewSessionManager) 1%nat in
  GetSessionInfo w !! "id-A"
  = (fun s => info_of (deref w.1 s)) <$> Get w "id-A".
Proof.
  intros conn A w.
  apply (GetSessionInfo_snapshots_the_held_sessions w "id-A").
  apply reach_Add, reach_New.
Defined.

End SessionFacts.

(* ===================================================================== *)
(** * Properties of the ACK correlator *)
(* ===================================================================== *)

Module ACKFacts.
Import ACK.

Lemma exec_app st s1 s2 :
exec st (s1 ++ s2) = match exec st s1 with Some st' => exec st' s2 | None => None end.
Proof.
revert st. induction s1 as [|l s1 IH]; intros st; cbn; [reflexivity|].
destruct (step st l); [apply IH|reflexivity].
Qed.

(** A notifier that finds no slot leaves everything as it was. *)
Lemma Notify_unregistered sh cmdID ack :
locked sh = false ->
waiters sh !! cmdID = None ->
Notify_lookup sh cmdID ack = Some (sh, Notify_returned).
Proof. intros Hl Hw. unfold Notify_lookup. rewrite Hl, Hw. reflexivity. Qed.

(** The cases of one step of a goroutine. *)
Ltac step_cases H :=
match type of H with
| step_goroutine _ ?l ?g = Some _ =>
  destruct l; first [is_var g; destruct g | idtac];
  cbn in H; try discriminate;
  unfold Wait_register, Wait_receive, Wait_done, Wait_cleanup,
         Notify_lookup, Notify_deliver, Cancel in H;
  repeat case_match; simplify_eq; cbn in *
end.

(** Whose turn it is in a pool headed by the waiter and the notifier. *)
Lemma step_turn sh w n others l st' :
step (sh, w :: n :: others) l = Some st' ->
(exists sh' w', goroutine_of l = 0%nat
                /\ step_goroutine sh l w = Some (sh', w')
                /\ st' = (sh', w' :: n :: others))
\/ (exists sh' n', goroutine_of l = 1%nat
                   /\ step_goroutine sh l n = Some (sh', n')
                   /\ st' = (sh', w :: n' :: others))
\/ (exists k g sh' g', goroutine_of l = S (S k)
                       /\ others !! k = Some g
                       /\ step_goroutine sh l g = Some (sh', g')
                       /\ st' = (sh', w :: n :: <[k := g']> others)).
Proof.
unfold step. destruct (goroutine_of l) as [|[|k]] eqn:El; cbn.
- destruct (step_goroutine sh l w) as [[sh' w']|]; [|discriminate].
  intros [= <-]. left. eauto.
- destruct (step_goroutine sh l n) as [[sh' n']|]; [|discriminate].
  intros [= <-]. right. left. eauto.
- destruct (others !! k) as [g|] eqn:Eg; [|discriminate].
  destruct (step_goroutine sh l g) as [[sh' g']|] eqn:Es; [|discriminate].
  intros [= <-]. right. right. exists k, g, sh', g'. auto.
Qed.

(** Channels are made and written, never removed. *)
Lemma step_goroutine_chans sh l g sh' g' ch :
step_goroutine sh l g = Some (sh', g') ->
is_Some (chans sh !! ch) -> is_Some (chans sh' !! ch).
Proof.
intros Hs Hc. step_cases Hs; try assumption.
all: rewrite lookup_insert; case_decide; eauto.
Qed.

Section WaiterAndNotifier.
Variable cmdID : string.
Variable timeout : Time.Duration.
Variable v : option ACKMessage.

Abbreviation table_ok := (table_ok cmdID).
Abbreviation apart_before := (apart_before cmdID).
Abbreviation apart_after := (apart_after cmdID).
Abbreviation never_registers := (never_registers cmdID).
Abbreviation slot_open := (slot_open cmdID).
Abbreviation notifier_at := (notifier_at cmdID v).
Abbreviation waiting_inv := (waiting_inv cmdID timeout v).

Lemma apart_before_mono sh sh' g :
(forall ch, is_Some (chans sh !! ch) -> is_Some (chans sh' !! ch)) ->
apart_before sh g -> apart_before sh' g.
Proof.
intros Hm. destruct g; cbn; try tauto; try (intros [? ?]; split; auto); auto.
Qed.

Lemma apart_after_never_registers slot g : apart_after slot g -> never_registers g.
Proof. destruct g; cbn; tauto. Qed.

Lemma apart_before_after sh g :
apart_before sh g -> apart_after (fresh (dom (chans sh))) g.
Proof.
assert (Hf : forall ch, is_Some (chans sh !! ch) -> ch <> fresh (dom (chans sh))).
{ intros ch Hc ->. apply elem_of_dom in Hc. revert Hc. apply is_fresh. }
destruct g; cbn; try tauto; try (intros [? ?]; split; auto); auto.
Qed.

(** ** Bystanders keep out of the way *)

Lemma bystander_before sh l g sh' g' :
table_ok sh -> apart_before sh g ->
step_goroutine sh l g = Some (sh', g') ->
table_ok sh' /\ apart_before sh' g'.
Proof.
intros [Hnone Hrange] Ha Hs.
assert (Hf : chans sh !! fresh (dom (chans sh)) = None).
{ apply not_elem_of_dom, is_fresh. }
step_cases Hs; unfold ACK.table_ok; cbn.
all: repeat split; try tauto; try exact I.
all: try (intros id0 ch0); rewrite ?lookup_insert, ?lookup_delete;
   repeat case_decide; simplify_eq; eauto; try tauto.
all: try (intros Hw; apply Hrange in Hw; tauto).
all: intros [= ?]; congruence.
Qed.

Lemma bystander_after sh slot buf l g sh' g' :
slot_open sh slot buf -> apart_after slot g ->
step_goroutine sh l g = Some (sh', g') ->
slot_open sh' slot buf /\ apart_after slot g'.
Proof.
intros (Hw & Hc & Honly) Ha Hs.
assert (Hf : fresh (dom (chans sh)) <> slot).
{ intros E. pose proof (is_fresh (dom (chans sh))) as Hfr. rewrite E in Hfr.
apply Hfr, elem_of_dom. eauto. }
step_cases Hs; unfold ACK.slot_open; cbn.
all: repeat split; try tauto; try exact I.
all: try (intros id0); rewrite ?lookup_insert, ?lookup_delete;
   repeat case_decide; simplify_eq; eauto; try tauto.
all: try (intros [= ?]; congruence).
all: try (intros Hw'; apply Honly in Hw'; congruence).
all: match goal with
   | Hne : ?id <> _, Hid : waiters _ !! ?id = Some _ |- _ =>
     exfalso; apply Hne, Honly, Hid
   end.
Qed.

Lemma bystander_returned sh l g sh' g' :
waiters sh !! cmdID = None -> never_registers g ->
step_goroutine sh l g = Some (sh', g') ->
waiters sh' !! cmdID = None /\ never_registers g'.
Proof.
intros Hw Ha Hs. step_cases Hs.
all: split; try exact I; try assumption.
all: rewrite ?lookup_insert, ?lookup_delete; repeat case_decide;
   simplify_eq; eauto.
Qed.

Lemma notifier_returned sh l n sh' n' :
waiters sh !! cmdID = None -> in_Notify n ->
step_goroutine sh l n = Some (sh', n') ->
waiters sh' !! cmdID = None /\ in_Notify n'.
Proof.
intros Hw Hn Hs. step_cases Hs; try (exfalso; exact Hn).
all: split; try exact I; assumption.
Qed.

Lemma notifier_at_in_Notify slot n buf : notifier_at slot n buf -> in_Notify n.
Proof. destruct 1; exact I. Qed.

(** The notifier while the slot is open. *)
Lemma notifier_step sh slot buf l n sh' n' :
slot_open sh slot buf -> notifier_at slot n buf ->
step_goroutine sh l n = Some (sh', n') ->
exists buf', slot_open sh' slot buf' /\ notifier_at slot n' buf'.
Proof.
intros (Hw & Hc & Honly) Hn Hs.
destruct Hn; step_cases Hs.
- exists []. split; [split; auto|constructor].
- exists [v]. split; [|constructor].
unfold ACK.slot_open. cbn. rewrite lookup_insert_eq. auto.
Qed.

(** The waiter registers. *)
Lemma waiter_registers sh l sh' w' others :
table_ok sh -> Forall (apart_before sh) others ->
step_goroutine sh l (Wait_entry cmdID timeout) = Some (sh', w') ->
exists slot done,
w' = Wait_select cmdID slot done
/\ slot_open sh' slot []
/\ Forall (apart_after slot) others.
Proof.
intros [Hnone Hrange] Hall Hs. step_cases Hs.
exists (fresh (dom (chans sh))), (bool_decide (timeout <= 0)).
split; [reflexivity|]. split.
- unfold ACK.slot_open. cbn. rewrite !lookup_insert_eq.
split; [reflexivity|]. split; [reflexivity|].
intros id. rewrite lookup_insert. case_decide; [auto|].
intros Hw. apply Hrange in Hw. apply elem_of_dom in Hw.
exfalso. revert Hw. apply is_fresh.
- eapply Forall_impl; [exact Hall|]. intros g0. apply apart_before_after.
Qed.

(** The waiter at its select and after it, while the slot is open. *)
Lemma waiter_select_step sh slot buf done l sh' w' :
slot_open sh slot buf ->
step_goroutine sh l (Wait_select cmdID slot done) = Some (sh', w') ->
(exists ack rest, buf = ack :: rest /\ w' = Wait_deferred cmdID slot ack None
                /\ slot_open sh' slot rest)
\/ (done = true /\ sh' = sh
  /\ w' = Wait_deferred cmdID slot None (Some (timeout_error cmdID)))
\/ (sh' = sh /\ w' = Wait_select cmdID slot true).
Proof.
intros (Hw & Hc & Honly) Hs. step_cases Hs; subst.
- left. do 2 eexists. split; [reflexivity|]. split; [reflexivity|].
unfold ACK.slot_open. cbn. rewrite lookup_insert_eq. auto.
- right. left. auto.
- right. right. auto.
Qed.

Lemma waiter_cleanup_step sh slot buf ack err l sh' w' :
slot_open sh slot buf ->
step_goroutine sh l (Wait_deferred cmdID slot ack err) = Some (sh', w') ->
w' = Wait_returned ack err /\ waiters sh' !! cmdID = None.
Proof.
intros (Hw & Hc & Honly) Hs. step_cases Hs.
split; [reflexivity|]. apply lookup_delete_eq.
Qed.

Lemma waiting_inv_start sh0 others :
table_ok sh0 -> Forall (apart_before sh0) others ->
waiting_inv (start cmdID timeout v sh0 others).
Proof. intros Ht Ha. apply inv_entry; auto. Qed.

Lemma waiting_inv_step st l st' :
waiting_inv st -> step st l = Some st' -> waiting_inv st'.
Proof.
intros Hinv Hstep.
destruct Hinv as
[sh n others Htab Hn Hoth
| sh slot done n buf others Hopen Hn Hoth
| sh slot others Hopen Hoth
| sh slot n buf others Hopen Hn Hoth
| sh n ack err others Hret Hgone Hn Hoth];
apply step_turn in Hstep
  as [(sh' & w' & Hl & Hs & ->)
     |[(sh' & n' & Hl & Hs & ->)
      |(k & g & sh' & g' & Hl & Hg & Hs & ->)]].
- (* the waiter registers *)
destruct (waiter_registers _ _ _ _ _ Htab Hoth Hs) as (slot & done & -> & Ho & Ha).
eapply inv_select; [exact Ho| |exact Ha].
destruct Hn as [->| ->]; constructor.
- (* the notifier finds no slot *)
destruct Htab as [Hnone Hrange].
destruct Hn as [->| ->]; step_cases Hs.
apply inv_entry; [split; assumption|auto|assumption].
- (* a bystander, before *)
pose proof (Forall_lookup_1 _ _ _ _ Hoth Hg) as Ha.
destruct (bystander_before _ _ _ _ _ Htab Ha Hs) as [Htab' Ha'].
apply inv_entry; [assumption|assumption|].
apply Forall_insert; [|assumption].
eapply Forall_impl; [exact Hoth|]. intros g0.
apply apart_before_mono. intros ch. eapply step_goroutine_chans; eassumption.
- (* the select of the waiter *)
destruct (waiter_select_step _ _ _ _ _ _ _ Hopen Hs)
  as [(ack & rest & -> & -> & Ho)|[(-> & -> & ->)|[-> ->]]].
+ inversion Hn; subst. apply inv_received; assumption.
+ eapply inv_timed_out; eassumption.
+ eapply inv_select; eassumption.
- (* the notifier, the waiter at its select *)
destruct (notifier_step _ _ _ _ _ _ _ Hopen Hn Hs) as (buf' & Ho & Hn').
eapply inv_select; eassumption.
- (* a bystander, the waiter at its select *)
pose proof (Forall_lookup_1 _ _ _ _ Hoth Hg) as Ha.
destruct (bystander_after _ _ _ _ _ _ _ Hopen Ha Hs) as [Ho Ha'].
eapply inv_select; [eassumption|eassumption|].
apply Forall_insert; assumption.
- (* the waiter leaves with the value *)
destruct (waiter_cleanup_step _ _ _ _ _ _ _ _ Hopen Hs) as [-> Hgone].
apply inv_returned; [auto|assumption|exact I|].
eapply Forall_impl; [exact Hoth|]. intros g0. apply apart_after_never_registers.
- (* the notifier has returned *)
step_cases Hs.
- pose proof (Forall_lookup_1 _ _ _ _ Hoth Hg) as Ha.
destruct (bystander_after _ _ _ _ _ _ _ Hopen Ha Hs) as [Ho Ha'].
eapply inv_received; [eassumption|].
apply Forall_insert; assumption.
- (* the waiter leaves with the timeout *)
destruct (waiter_cleanup_step _ _ _ _ _ _ _ _ Hopen Hs) as [-> Hgone].
apply inv_returned; [auto|assumption| |].
+ eapply notifier_at_in_Notify; eassumption.
+ eapply Forall_impl; [exact Hoth|]. intros g0. apply apart_after_never_registers.
- destruct (notifier_step _ _ _ _ _ _ _ Hopen Hn Hs) as (buf' & Ho & Hn').
eapply inv_timed_out; eassumption.
- pose proof (Forall_lookup_1 _ _ _ _ Hoth Hg) as Ha.
destruct (bystander_after _ _ _ _ _ _ _ Hopen Ha Hs) as [Ho Ha'].
eapply inv_timed_out; [eassumption|eassumption|].
apply Forall_insert; assumption.
- (* the waiter has returned *)
step_cases Hs.
- destruct (notifier_returned _ _ _ _ _ Hgone Hn Hs) as [Hgone' Hn'].
apply inv_returned; assumption.
- pose proof (Forall_lookup_1 _ _ _ _ Hoth Hg) as Ha.
destruct (bystander_returned _ _ _ _ _ Hgone Ha Hs) as [Hgone' Ha'].
apply inv_returned; [assumption|assumption|assumption|].
apply Forall_insert; assumption.
Qed.

Lemma waiting_inv_exec sched st st' :
waiting_inv st -> exec st sched = Some st' -> waiting_inv st'.
Proof.
revert st. induction sched as [|l sched IH]; intros st Hinv Hex; cbn in Hex.
- injection Hex as <-. assumption.
- destruct (step st l) as [st1|] eqn:Hs; [|discriminate].
eapply IH; [|eassumption]. eapply waiting_inv_step; eassumption.
Qed.

Section FromStart.
Variable sh0 : Shared.
Variable others : list Goroutine.
Hypothesis sh0_ok : table_ok sh0.
Hypothesis others_apart : Forall (apart_before sh0) others.

Lemma start_reachable sched st :
exec (start cmdID timeout v sh0 others) sched = Some st -> waiting_inv st.
Proof. apply waiting_inv_exec, waiting_inv_start; assumption. Qed.

(** What [Wait] can return, and the slot is gone when it does. *)
Lemma waiter_returned sched st ack err :
exec (start cmdID timeout v sh0 others) sched = Some st ->
st.2 !! 0%nat = Some (Wait_returned ack err) ->
((ack = v /\ err = None) \/ (ack = None /\ err = Some (timeout_error cmdID)))
/\ waiters st.1 !! cmdID = None.
Proof.
intros Hex Hw. apply start_reachable in Hex.
destruct Hex; cbn in Hw; try discriminate.
injection Hw as <- <-. auto.
Qed.





End FromStart.

End WaiterAndNotifier.




(** Whenever [Cancel] finds the slot of a waiter that has not left yet, the
  exit of that waiter closes the channel a second time, whatever its
  select chose. *)
Lemma Cancel_then_exit_panics sh cmdID ch c ack err :
locked sh = false ->
waiters sh !! cmdID = Some ch ->
chans sh !! ch = Some c ->
chan_closed c = false ->
exists sh1 sh2,
  Cancel sh cmdID = Some (sh1, Cancel_returned)
  /\ Wait_cleanup sh1 cmdID ch ack err
     = Some (sh2, Panicked "close of closed channel")
  /\ locked sh2 = true.
Proof.
intros Hl Hw Hc Ho. unfold Cancel. rewrite Hl, Hw, Hc, Ho.
do 2 eexists. split; [reflexivity|].
unfold Wait_cleanup. cbn. rewrite lookup_insert_eq. cbn.
split; reflexivity.
Qed.

(** C4 (code defect).  [Cancel] closes the channel of a registered slot,
    and the deferred function of [Wait] closes the channel it made
    whatever happened to it.  When [Cancel("cmd-1")] runs while
    [Wait("cmd-1", 5s)] is at its select, the select wakes on the closed
    channel and the deferred function closes it a second time: the
    goroutine of [Wait] panics with "close of closed channel", holding the
    mutex of the waiter. *)
Theorem C4_cancel_then_exit_closes_twice :
  exists st,
    exec wait_and_cancel [Run 0%nat; Run 1%nat; Receive 0%nat; Run 0%nat] = Some st
    /\ st.2 = [Panicked "close of closed channel"; Cancel_returned]
    /\ waiters st.1 !! "cmd-1" = None
    /\ chans st.1 !! 0%nat = Some (mkChan [] true)
    /\ locked st.1 = true.
Proof.
  destruct (exec wait_and_cancel [Run 0%nat; Run 1%nat; Receive 0%nat; Run 0%nat])
    as [st|] eqn:E; [|vm_compute in E; discriminate].
  exists st. vm_compute in E. injection E as <-.
  repeat split; vm_compute; reflexivity.
Qed.

(** C9 (code defect, the one of C4).  When [Cancel("cmd-1")] runs while
    [Wait("cmd-1", 5s)] is at its select, the select does take the receive
    case with the zero value, so the return values are set to a nil ACK
    and a nil error; but the only step left to [Wait] is its deferred
    function, which panics on closing the channel again.  No schedule
    makes [Wait] return: its caller observes a panic, not a success
    without ACK. *)
Theorem C9_cancelled_wait_panics :
  exists st,
    exec wait_and_cancel [Run 0%nat; Run 1%nat; Receive 0%nat] = Some st
    /\ st.2 = [Wait_deferred "cmd-1" 0%nat None None; Cancel_returned]
    /\ (forall l st', step st l = Some st' ->
          l = Run 0%nat
          /\ st'.2 = [Panicked "close of closed channel"; Cancel_returned])
    /\ (forall sched st' ack err,
          exec st sched = Some st' ->
          st'.2 !! 0%nat <> Some (Wait_returned ack err)).
Proof.
  destruct (exec wait_and_cancel [Run 0%nat; Run 1%nat; Receive 0%nat])
    as [st|] eqn:E; [|vm_compute in E; discriminate].
  exists st. vm_compute in E. injection E as <-.
  split; [reflexivity|]. split; [reflexivity|].
  match goal with |- (forall l st', step ?s l = Some st' -> _) /\ _ =>
    set (st3 := s) end.
  assert (Hone : forall l st', step st3 l = Some st' ->
            l = Run 0%nat
            /\ st' = (mkShared (delete "cmd-1" (waiters st3.1)) true (chans st3.1),
                      [Panicked "close of closed channel"; Cancel_returned])).
  { intros l st' Hs.
    destruct l as [[|[|g]]|[|[|g]]|[|[|g]]|[|[|g]]]; try (vm_compute in Hs; discriminate).
    split; [reflexivity|]. vm_compute in Hs. injection Hs as <-.
    vm_compute. reflexivity. }
  split.
  - intros l st' Hs. destruct (Hone _ _ Hs) as [-> ->]. auto.
  - intros sched st' ack err Hex.
    destruct sched as [|l sched]; cbn [exec] in Hex.
    { injection Hex as <-. cbn. discriminate. }
    destruct (step st3 l) as [st4|] eqn:Hs; [|discriminate].
    destruct (Hone _ _ Hs) as [-> ->].
    destruct sched as [|l sched]; cbn [exec] in Hex.
    { injection Hex as <-. cbn. discriminate. }
    exfalso.
    destruct l as [[|[|g]]|[|[|g]]|[|[|g]]|[|[|g]]]; cbn in Hex; discriminate.
Qed.

(** A late [Notify].  The notifier finds the slot, the waiter then times
    out and its deferred function closes the channel, and the notifier
    sends on the closed channel: the goroutine of [Notify] panics. *)
Lemma late_Notify_sends_on_closed_channel :
  exists st,
    exec wait_and_notify
         [Run 0%nat; Run 1%nat; Deadline 0%nat; Done 0%nat; Run 0%nat; Run 1%nat]
    = Some st
    /\ st.2 = [Wait_returned None (Some (timeout_error "cmd-1"));
               Panicked "send on closed channel"].
Proof.
  destruct (exec wait_and_notify _) as [st|] eqn:E; [|vm_compute in E; discriminate].
  exists st. vm_compute in E. injection E as <-. split; reflexivity.
Qed.


(** ** A notification before the slot exists, and one after it is gone *)

Lemma step_head sh w rest l sh' w' :
goroutine_of l = 0%nat ->
step_goroutine sh l w = Some (sh', w') ->
step (sh, w :: rest) l = Some (sh', w' :: rest).
Proof. intros Hl Hs. unfold step. rewrite Hl. cbn. rewrite Hs. reflexivity. Qed.

Lemma step_second sh w n rest l sh' n' :
goroutine_of l = 1%nat ->
step_goroutine sh l n = Some (sh', n') ->
step (sh, w :: n :: rest) l = Some (sh', w :: n' :: rest).
Proof. intros Hl Hs. unfold step. rewrite Hl. cbn. rewrite Hs. reflexivity. Qed.

(** The waiter alone: it registers, its deadline passes, its select takes
  the timeout and its deferred function clears the slot. *)
Lemma waiter_times_out sh cmdID timeout n rest :
locked sh = false ->
exists sh',
  exec (sh, Wait_entry cmdID timeout :: n :: rest)
       [Run 0%nat; Deadline 0%nat; Done 0%nat; Run 0%nat]
  = Some (sh', Wait_returned None (Some (timeout_error cmdID)) :: n :: rest)
  /\ waiters sh' !! cmdID = None.
Proof.
intros Hl. eexists. cbn [exec].
erewrite step_head; [|reflexivity|cbn; unfold Wait_register; rewrite Hl; reflexivity].
erewrite step_head; [|reflexivity|reflexivity].
erewrite step_head; [|reflexivity|reflexivity].
erewrite step_head; [|reflexivity|].
2:{ cbn. unfold Wait_cleanup. cbn. rewrite lookup_insert_eq. cbn. reflexivity. }
split; [reflexivity|]. cbn. apply lookup_delete_eq.
Qed.

(** Once the notifier has returned without finding a slot, the waiter can
  only time out. *)
Lemma waiter_after_early_Notify cmdID timeout sh0 others sched st ack err :
table_ok cmdID sh0 ->
Forall (apart_before cmdID sh0) others ->
exec (sh0, Wait_entry cmdID timeout :: Notify_returned :: others) sched = Some st ->
st.2 !! 0%nat = Some (Wait_returned ack err) ->
ack = None /\ err = Some (timeout_error cmdID).
Proof.
intros Hok Hoth Hex Hret.
assert (Hinv : forall v', waiting_inv cmdID timeout v' st).
{ intros v'. eapply waiting_inv_exec; [|exact Hex].
  apply inv_entry; auto. }
pose proof (Hinv None) as H1.
pose proof (Hinv (Some (mkACKMessage "" "" ""))) as H2.
inversion H1 as [| | | |sh n a e oth Hr1 Hw1 Hn1 Ho1 Heq1]; subst; cbn in Hret;
  try discriminate.
injection Hret as -> ->.
inversion H2 as [| | | |sh' n' a' e' oth' Hr2 Hw2 Hn2 Ho2 Heq2]; subst.
destruct Hr1 as [[-> ->]|[-> ->]]; [|auto].
destruct Hr2 as [[Hbad _]|[_ Hbad]]; discriminate.
Qed.

(** X14.  An ACK that arrives before [Wait] has registered its slot is
  lost.  When the call [Notify(cmdID, v)] runs first, it finds no slot
  and returns with nothing changed; whatever the schedule from there on,
  if [Wait(cmdID, timeout)] returns, it returns the timeout error and no
  ACK; and left alone it does return so.  (The command is sent to the
  device before [Wait] is called, so the reply can come that early.) *)
Theorem early_Notify_is_lost (cmdID : string) (timeout : Time.Duration)
  (v : option ACKMessage) (sh0 : Shared) (others : list Goroutine) :
table_ok cmdID sh0 ->
Forall (apart_before cmdID sh0) others ->
locked sh0 = false ->
step (start cmdID timeout v sh0 others) (Run 1%nat)
= Some (sh0, Wait_entry cmdID timeout :: Notify_returned :: others)
/\ (forall sched st ack err,
      exec (sh0, Wait_entry cmdID timeout :: Notify_returned :: others) sched
      = Some st ->
      st.2 !! 0%nat = Some (Wait_returned ack err) ->
      ack = None /\ err = Some (timeout_error cmdID))
/\ (exists st,
      exec (sh0, Wait_entry cmdID timeout :: Notify_returned :: others)
           [Run 0%nat; Deadline 0%nat; Done 0%nat; Run 0%nat] = Some st
      /\ st.2 !! 0%nat = Some (Wait_returned None (Some (timeout_error cmdID)))).
Proof.
intros Hok Hoth Hl. split; [|split].
- unfold start. apply step_second; [reflexivity|].
  cbn. apply Notify_unregistered; [exact Hl|apply Hok].
- intros sched st ack err Hex Hret.
  eapply waiter_after_early_Notify; eassumption.
- destruct (waiter_times_out sh0 cmdID timeout Notify_returned others Hl)
    as (sh' & Hex & _).
  eexists. split; [exact Hex|reflexivity].
Qed.

Lemma early_Notify_is_lost_witness :
step wait_and_notify_among_others (Run 1%nat)
= Some (NewACKWaiter,
        [Wait_entry "cmd-1" (5 * Time.Second); Notify_returned;
         Wait_entry "cmd-2" (2 * Time.Second); Cancel_entry "cmd-3"])
/\ (forall sched st ack err,
      exec (NewACKWaiter,
            [Wait_entry "cmd-1" (5 * Time.Second); Notify_returned;
             Wait_entry "cmd-2" (2 * Time.Second); Cancel_entry "cmd-3"]) sched
      = Some st ->
      st.2 !! 0%nat = Some (Wait_returned ack err) ->
      ack = None /\ err = Some (timeout_error "cmd-1")).
Proof.
destruct (early_Notify_is_lost "cmd-1" (5 * Time.Second) (Some ack1) NewACKWaiter
            [Wait_entry "cmd-2" (2 * Time.Second); Cancel_entry "cmd-3"])
  as (Hstep & Hlost & _).
- split; [reflexivity|]. intros id ch Hw. vm_compute in Hw. discriminate.
- repeat constructor; cbn; discriminate.
- reflexivity.
- split; [exact Hstep|exact Hlost].
Defined.

(** X15.  A late [Notify] panics.  Whatever the table holds, there is a
  schedule of one [Wait(cmdID, timeout)] and one [Notify(cmdID, v)] in
  which the notifier reads the slot from the table, the waiter then times
  out and its deferred function closes the channel, and the notifier's
  send meets the closed channel: [Wait] has returned the timeout error
  and the goroutine of [Notify] panics with "send on closed channel". *)
Theorem late_Notify_panics (cmdID : string) (timeout : Time.Duration)
  (v : option ACKMessage) (sh0 : Shared) :
locked sh0 = false ->
exists st,
  exec (start cmdID timeout v sh0 [])
       [Run 0%nat; Run 1%nat; Deadline 0%nat; Done 0%nat; Run 0%nat; Run 1%nat]
  = Some st
  /\ st.2 = [Wait_returned None (Some (timeout_error cmdID));
             Panicked "send on closed channel"].
Proof.
intros Hl. eexists. unfold start. cbn [exec].
erewrite step_head; [|reflexivity|cbn; unfold Wait_register; rewrite Hl; reflexivity].
erewrite step_second; [|reflexivity|].
2:{ cbn. unfold Notify_lookup. cbn. rewrite lookup_insert_eq. reflexivity. }
erewrite step_head; [|reflexivity|reflexivity].
erewrite step_head; [|reflexivity|reflexivity].
erewrite step_head; [|reflexivity|].
2:{ cbn. unfold Wait_cleanup. cbn. rewrite lookup_insert_eq. cbn. reflexivity. }
erewrite step_second; [|reflexivity|].
2:{ cbn. unfold Notify_deliver. cbn. rewrite lookup_insert_eq. cbn. reflexivity. }
split; reflexivity.
Qed.

Lemma late_Notify_panics_witness :
exists st,
  exec wait_and_notify
       [Run 0%nat; Run 1%nat; Deadline 0%nat; Done 0%nat; Run 0%nat; Run 1%nat]
  = Some st
  /\ st.2 = [Wait_returned None (Some (timeout_error "cmd-1"));
             Panicked "send on closed channel"].
Proof.
apply (late_Notify_panics "cmd-1" (5 * Time.Second) (Some ack1) NewACKWaiter).
reflexivity.
Defined.

End ACKFacts.

(* ===================================================================== *)
(** * Properties of the connection handler *)
(* ===================================================================== *)

Module ServerFacts.
Import Int Time Net Codec Security Sessions Server.
Import CodecFacts SessionFacts.

Lemma io_ReadFull_open c n c1 r :
  conn_closed c = false -> io_ReadFull c n = (c1, r) -> conn_closed c1 = false.
Proof.
  intros Hc. unfold io_ReadFull. destruct n; [intros [= <- _]; auto|].
  rewrite Hc. destruct (_ <=? _)%nat; intros [= <- _]; auto.
Qed.

(** A frame can only be read from an open connection, which stays open. *)
Lemma ReadMessage_open c c' msg :
  ReadMessage c = (c', inl msg) -> conn_closed c' = false.
Proof.
  unfold ReadMessage.
  destruct (conn_closed c) eqn:Hc.
  { unfold io_ReadFull. rewrite Hc. discriminate. }
  destruct (io_ReadFull c 4) as [c1 [buf|e]] eqn:E1; [|discriminate].
  apply io_ReadFull_open in E1; [|assumption].
  destruct (MaxMessageSize <? _); [discriminate|].
  destruct (io_ReadFull c1 _) as [c2 [body|e]] eqn:E2; [|discriminate].
  apply io_ReadFull_open in E2; [|assumption].
  destruct (_ <? 2); [discriminate|].
  destruct body as [|b [|t p]]; try discriminate.
  cbn zeta. case_decide; [|discriminate]. intros [= <- _]. assumption.
Qed.

Lemma same_identities_refl h : same_identities h h.
Proof. intros q. auto. Qed.

Lemma same_identities_trans h1 h2 h3 :
  same_identities h1 h2 -> same_identities h2 h3 -> same_identities h1 h3.
Proof.
  intros H1 H2 q. destruct (H1 q), (H2 q). split; congruence.
Qed.

Lemma write_same (h : gmap ptr Session) s x :
  SN x = SN (deref h s) -> ID x = ID (deref h s) ->
  same_identities h (<[s := x]> h).
Proof.
  intros Hsn Hid q. destruct (decide (s = q)) as [->|Hne].
  - rewrite deref_insert_eq. auto.
  - rewrite deref_insert_ne by assumption. auto.
Qed.

Lemma SendMessage_same h s msg : same_identities h (SendMessage h s msg).1.
Proof.
  unfold SendMessage. destruct (closed _); [apply same_identities_refl|].
  destruct (WriteMessage _ _) as [c err]. cbn [fst]. apply write_same; reflexivity.
Qed.

Lemma SendMessage_inbound h s msg :
  inbound (Conn (deref (SendMessage h s msg).1 s)) = inbound (Conn (deref h s)).
Proof.
  unfold SendMessage. destruct (closed (deref h s)); [reflexivity|].
  destruct (WriteMessage (Conn (deref h s)) msg) as [c err] eqn:E.
  cbn [fst]. rewrite deref_insert_eq. cbn.
  unfold WriteMessage, Net.Write in E.
  destruct (conn_closed _); injection E as <- _; reflexivity.
Qed.

Lemma Close_inbound h s q :
  inbound (Conn (deref (Close h s) q)) = inbound (Conn (deref h q)).
Proof.
  unfold Close. destruct (closed (deref h s)); [reflexivity|].
  destruct (decide (s = q)) as [->|Hne].
  - rewrite deref_insert_eq. reflexivity.
  - rewrite deref_insert_ne by assumption. reflexivity.
Qed.

Lemma Add_inbound w s q :
  inbound (Conn (deref (Add w s).1 q)) = inbound (Conn (deref w.1 q)).
Proof.
  destruct w as [h sm]. cbn [fst].
  destruct (decide (SN (deref h s) = "")) as [E|E].
  - rewrite Add_empty_SN by assumption. reflexivity.
  - destruct (holder (h, sm) (SN (deref h s))) as [[oldID old]|] eqn:Hh.
    + rewrite (Add_evicts _ _ _ _ _ E Hh). cbn [fst]. apply Close_inbound.
    + rewrite (Add_no_holder _ _ _ E Hh). reflexivity.
Qed.

(** A frame read takes at least its four length bytes off the stream. *)
Lemma ReadMessage_consumes c c' msg :
  ReadMessage c = (c', inl msg) ->
  (length (inbound c') < length (inbound c))%nat.
Proof.
  unfold ReadMessage.
  destruct (io_ReadFull c 4) as [c1 [buf|e]] eqn:E1; [|discriminate].
  assert (H1 : (length (inbound c1) < length (inbound c))%nat).
  { revert E1. unfold io_ReadFull. destruct (conn_closed c); [discriminate|].
    destruct (4 <=? length (inbound c))%nat eqn:L; [|discriminate].
    apply Nat.leb_le in L. intros [= <- _]. cbn. rewrite length_drop. lia. }
  destruct (MaxMessageSize <? _); [discriminate|].
  destruct (io_ReadFull c1 _) as [c2 [body|e]] eqn:E2; [|discriminate].
  assert (H2 : (length (inbound c2) <= length (inbound c1))%nat).
  { revert E2. unfold io_ReadFull. destruct (Z.to_nat _); [intros [= <- _]; lia|].
    destruct (conn_closed c1); [discriminate|].
    destruct (_ <=? _)%nat; [|discriminate].
    intros [= <- _]. cbn. rewrite length_drop. lia. }
  destruct (_ <? 2); [discriminate|].
  destruct body as [|b [|t p]]; try discriminate.
  cbn zeta. case_decide; [|discriminate]. intros [= <- _]. lia.
Qed.

Lemma UpdatePing_same h s now : same_identities h (UpdatePing h s now).
Proof. apply write_same; reflexivity. Qed.

Lemma keeps_refl e : keeps e e.
Proof. split; [reflexivity|apply same_identities_refl]. Qed.

Lemma keeps_trans e1 e2 e3 : keeps e1 e2 -> keeps e2 e3 -> keeps e1 e3.
Proof.
  intros [Hm1 Hs1] [Hm2 Hs2]. split; [congruence|].
  eapply same_identities_trans; eassumption.
Qed.

Lemma keeps_registered e e' s : keeps e e' -> registered e s -> registered e' s.
Proof.
  intros [Hm Hs] [Hid Hsn]. unfold registered.
  destruct (Hs s) as [E1 E2]. rewrite E1, E2, Hm. split; assumption.
Qed.

Lemma world_set_world e w : world (set_world e w) = w.
Proof. destruct w. reflexivity. Qed.

(** What keeps the manager and the identities keeps the world among
    those the manager reaches. *)
Lemma keeps_reachable e e' :
  keeps e e' -> reachable (world e) -> reachable (world e').
Proof.
  intros [Hsm Hsame] Hr. unfold world in *. rewrite Hsm.
  eapply reach_store; [exact Hr|]. intros id q _. apply Hsame.
Qed.

Lemma SendMessage_keeps e s msg :
  keeps e (set_store e (SendMessage (store e) s msg).1).
Proof. split; [reflexivity|apply SendMessage_same]. Qed.

Section WithLibraries.
Variable hmac_sha256_hex : string -> string -> string.
Variable clock : nat -> Time.
Context `{JSON AuthMessage} `{JSON AuthOKMessage} `{JSON PingMessage}
        `{JSON PongMessage} `{JSON ErrorMessage} `{JSON ACK.ACKMessage}.

Abbreviation defaults := (registerDefaultHandlers hmac_sha256_hex clock).

Lemma send_logged_keeps e s (msg : Message + error) :
  keeps e (send_logged e s msg).
Proof.
  destruct msg as [m|err]; [apply SendMessage_keeps|apply keeps_refl].
Qed.

(** Sending on an open session appends the frame to its connection and
    leaves it open. *)
Lemma send_logged_open e s (msg : Message + error) :
  closed (deref (store e) s) = false ->
  conn_closed (Conn (deref (store e) s)) = false ->
  let e' := send_logged e s msg in
  closed (deref (store e') s) = false
  /\ conn_closed (Conn (deref (store e') s)) = false
  /\ outbound (Conn (deref (store e') s))
     = outbound (Conn (deref (store e) s))
       ++ match msg with inl m => fullBuf m | inr _ => [] end
  /\ authenticator e' = authenticator e
  /\ shutdown e' = shutdown e.
Proof.
  intros Hc Hcc. destruct msg as [m|err]; cbn.
  - unfold SendMessage. rewrite Hc. unfold WriteMessage, Net.Write. rewrite Hcc.
    cbn. rewrite deref_insert_eq. cbn. auto.
  - rewrite app_nil_r. auto.
Qed.

Lemma time_Now_keeps e : keeps e (time_Now clock e).2.
Proof. split; [reflexivity|apply same_identities_refl]. Qed.

Lemma defaults_lookup t h :
  defaults !! t = Some h ->
  h = handleAuth hmac_sha256_hex clock \/ h = handlePing clock
  \/ h = handlePong clock \/ h = handleACK.
Proof.
  unfold registerDefaultHandlers. rewrite !lookup_insert.
  repeat case_decide; intros [= <-]; auto.
Qed.

Lemma defaults_Auth : defaults !! TypeAuth = Some (handleAuth hmac_sha256_hex clock).
Proof. reflexivity. Qed.


Lemma keeps_named e e' s :
  keeps e e' -> named_registered e s -> named_registered e' s.
Proof.
  intros Hk Hn Hsn. eapply keeps_registered; [eassumption|].
  apply Hn. destruct Hk as [_ Hs]. destruct (Hs s) as [<- _]. assumption.
Qed.

Lemma sendAuthResult_keeps e s success message :
  keeps e (sendAuthResult e s success message).
Proof. apply send_logged_keeps. Qed.

Lemma sendError_keeps e s code message :
  keeps e (sendError e s code message).
Proof. apply send_logged_keeps. Qed.

(** A successful Auth leaves the session in both indices. *)
Lemma Add_after_auth e s sn appid meta :
  let e1 := set_store e (<[s := set_auth (deref (store e) s) sn appid meta]> (store e)) in
  let e2 := set_world e1 (Add (world e1) s) in
  sessions (sessionManager e2) !! ID (deref (store e2) s) = Some s
  /\ (sn <> "" -> registered e2 s)
  /\ SN (deref (store e2) s) = sn.
Proof.
  intros e1 e2. subst e2. cbn [set_world sessionManager store].
  pose proof (Add_registers (world e1) s) as Hreg.
  pose proof (Add_ID (world e1) s s) as Hid.
  pose proof (Add_SN (world e1) s s) as Hsn.
  assert (Hsn1 : SN (deref (world e1).1 s) = sn).
  { subst e1. cbn. rewrite deref_insert_eq. reflexivity. }
  rewrite Hsn1 in Hsn.
  split; [rewrite Hid; exact Hreg|].
  split; [|exact Hsn].
  intros Hne. unfold registered. cbn [set_world sessionManager store].
  rewrite Hid, Hsn. split; [exact Hreg|].
  rewrite <- Hsn1. apply Add_indexes. rewrite Hsn1. exact Hne.
Qed.

Lemma handleAuth_named s msg e e' o :
  named_registered e s ->
  handleAuth hmac_sha256_hex clock s msg e = (e', o) ->
  named_registered e' s.
Proof.
  intros Hn. unfold handleAuth.
  destruct (UnmarshalPayload (Payload msg)) as [auth|err]; [|intros [= <- _]; exact Hn].
  cbn [time_Now]. cbn beta iota zeta.
  destruct (VerifySignature _ _ _ _ _ _ _ _ _) as [a [err|]].
  - intros [= <- _]. eapply keeps_named; [|exact Hn].
    eapply keeps_trans; [|apply sendAuthResult_keeps].
    split; [reflexivity|apply same_identities_refl].
  - intros [= <- _].
    match goal with |- named_registered (sendAuthResult ?e2 _ _ _) _ =>
      eapply (keeps_named e2); [apply sendAuthResult_keeps|] end.
    intros Hsn.
    match goal with |- registered (set_world (set_store ?e0 _) _) _ =>
      destruct (Add_after_auth e0 s (auth_SN auth) (auth_AppID auth) (auth_Meta auth))
        as (_ & Hreg & Hsn') end.
    apply Hreg. cbn zeta in Hsn'. rewrite <- Hsn'. exact Hsn.
Qed.

(** The handlers drive the manager through the states it reaches: of
    the four, only Auth writes a serial number, and it calls [Add]
    next. *)
Lemma handleAuth_reachable s msg e e' o :
  reachable (world e) ->
  handleAuth hmac_sha256_hex clock s msg e = (e', o) ->
  reachable (world e').
Proof.
  intros Hr. unfold handleAuth.
  destruct (UnmarshalPayload (Payload msg)) as [auth|err]; [|intros [= <- _]; exact Hr].
  cbn [time_Now]. cbn beta iota zeta.
  destruct (VerifySignature _ _ _ _ _ _ _ _ _) as [a [err|]].
  - intros [= <- _]. eapply keeps_reachable; [apply sendAuthResult_keeps|].
    exact Hr.
  - intros [= <- _]. eapply keeps_reachable; [apply sendAuthResult_keeps|].
    rewrite world_set_world.
    apply (reach_auth (world e) s (auth_SN auth) (auth_AppID auth) (auth_Meta auth)).
    exact Hr.
Qed.

Lemma handlePing_keeps s msg e e' o :
  handlePing clock s msg e = (e', o) -> keeps e e'.
Proof.
  unfold handlePing.
  destruct (UnmarshalPayload (Payload msg)) as [ping|err];
    [|intros [= <- _]; apply keeps_refl].
  cbn [time_Now]. cbn beta iota zeta.
  destruct (NewMessage _ _) as [pongMsg|err].
  - destruct (SendMessage _ _ _) as [h err] eqn:Es. intros [= <- _].
    split; [reflexivity|]. cbn [store set_store] in Es |- *.
    eapply same_identities_trans; [apply UpdatePing_same|].
    match type of Es with SendMessage ?st _ _ = _ =>
      pose proof (SendMessage_same st s pongMsg) as Hk end.
    rewrite Es in Hk. exact Hk.
  - intros [= <- _]. split; [reflexivity|]. cbn [store set_store].
    apply UpdatePing_same.
Qed.

Lemma handlePong_keeps s msg e e' o :
  handlePong clock s msg e = (e', o) -> keeps e e'.
Proof.
  unfold handlePong. cbn [time_Now]. cbn beta iota zeta. intros [= <- _].
  split; [reflexivity|]. cbn [store set_store]. apply UpdatePing_same.
Qed.

Lemma handleACK_keeps s msg e e' o :
  handleACK s msg e = (e', o) -> keeps e e'.
Proof.
  unfold handleACK.
  destruct (UnmarshalPayload (Payload msg)) as [ack|err];
    [|intros [= <- _]; apply keeps_refl].
  destruct (ACK.Notify _ _ _) as [[aw g]|]; [|intros [= <- _]; apply keeps_refl].
  destruct g; intros [= <- _]; (split; [reflexivity|apply same_identities_refl]).
Qed.

Lemma handleMessage_named s msg e e' o :
  named_registered e s ->
  handleMessage defaults s msg e = (e', o) ->
  named_registered e' s.
Proof.
  intros Hn. unfold handleMessage.
  destruct (defaults !! Type_ msg) as [h|] eqn:Eh; [|intros [= <- _]; exact Hn].
  destruct (defaults_lookup _ _ Eh) as [->|[->|[->| ->]]]; intros Hh.
  - eapply handleAuth_named; eassumption.
  - eapply keeps_named; [eapply handlePing_keeps|]; eassumption.
  - eapply keeps_named; [eapply handlePong_keeps|]; eassumption.
  - eapply keeps_named; [eapply handleACK_keeps|]; eassumption.
Qed.

Lemma handleMessage_reachable s msg e e' o :
  reachable (world e) ->
  handleMessage defaults s msg e = (e', o) ->
  reachable (world e').
Proof.
  intros Hr. unfold handleMessage.
  destruct (defaults !! Type_ msg) as [h|] eqn:Eh; [|intros [= <- _]; exact Hr].
  destruct (defaults_lookup _ _ Eh) as [->|[->|[->| ->]]]; intros Hh.
  - eapply handleAuth_reachable; eassumption.
  - eapply keeps_reachable; [eapply handlePing_keeps|]; eassumption.
  - eapply keeps_reachable; [eapply handlePong_keeps|]; eassumption.
  - eapply keeps_reachable; [eapply handleACK_keeps|]; eassumption.
Qed.

(** The loop keeps a named session registered, and it leaves on a read
    error with the session still open. *)
Lemma readLoop_named fuel s e e' exit :
  named_registered e s ->
  readLoop defaults fuel s e = (e', exit) ->
  named_registered e' s
  /\ (forall err, exit = ExitReadError err -> closed (deref (store e') s) = false).
Proof.
  revert e. induction fuel as [|fuel IH]; intros e Hn; cbn [readLoop].
  { intros [= <- <-]. split; [exact Hn|discriminate]. }
  destruct (shutdown e); [intros [= <- <-]; split; [exact Hn|discriminate]|].
  destruct (IsClosed (store e) s) eqn:Hc;
    [intros [= <- <-]; split; [exact Hn|discriminate]|].
  destruct (ReadMessage _) as [conn r].
  assert (Hk : keeps e (set_store e (<[s := set_Conn (deref (store e) s) conn]> (store e))))
    by (split; [reflexivity|apply write_same; reflexivity]).
  pose proof (keeps_named _ _ _ Hk Hn) as Hn1.
  destruct r as [msg|err].
  - destruct (handleMessage _ _ _ _) as [e2 o] eqn:Eh.
    pose proof (handleMessage_named _ _ _ _ _ Hn1 Eh) as Hn2.
    destruct o as [[err|]| |].
    + apply IH. eapply keeps_named; [apply sendError_keeps|exact Hn2].
    + apply IH. exact Hn2.
    + intros [= <- <-]. split; [exact Hn2|discriminate].
    + intros [= <- <-]. split; [exact Hn2|discriminate].
  - intros [= <- <-]. split; [exact Hn1|]. intros _ _. cbn.
    rewrite deref_insert_eq. exact Hc.
Qed.


(** ** The loop ends

    No handler touches the inbound stream of the connection, and every
    frame read shortens it: fuel beyond its length is never used up. *)

Lemma send_logged_inbound e s (msg : Message + error) :
  inbound (Conn (deref (store (send_logged e s msg)) s))
  = inbound (Conn (deref (store e) s)).
Proof. destruct msg as [m|err]; [apply SendMessage_inbound|reflexivity]. Qed.

Lemma set_world_Add_inbound e s q :
  inbound (Conn (deref (store (set_world e (Add (world e) s))) q))
  = inbound (Conn (deref (store e) q)).
Proof.
  change (store (set_world e (Add (world e) s))) with (Add (world e) s).1.
  rewrite Add_inbound. reflexivity.
Qed.

Lemma handleMessage_inbound s msg e e' o :
  handleMessage defaults s msg e = (e', o) ->
  inbound (Conn (deref (store e') s)) = inbound (Conn (deref (store e) s)).
Proof.
  unfold handleMessage.
  destruct (defaults !! Type_ msg) as [h|] eqn:Eh; [|intros [= <- _]; reflexivity].
  destruct (defaults_lookup _ _ Eh) as [->|[->|[->| ->]]].
  - unfold handleAuth.
    destruct (UnmarshalPayload (Payload msg)) as [auth|err];
      [|intros [= <- _]; reflexivity].
    cbn [time_Now]. cbn beta iota zeta.
    destruct (VerifySignature _ _ _ _ _ _ _ _ _) as [a [err|]]; intros [= <- _].
    + unfold sendAuthResult. rewrite send_logged_inbound. reflexivity.
    + unfold sendAuthResult. rewrite send_logged_inbound.
      match goal with |- inbound (Conn (deref (store (set_world ?e1 ?w)) _)) = _ =>
        change w with (Add (world e1) s) end.
      rewrite set_world_Add_inbound. cbn [store set_store].
      rewrite deref_insert_eq. reflexivity.
  - unfold handlePing.
    destruct (UnmarshalPayload (Payload msg)) as [ping|err];
      [|intros [= <- _]; reflexivity].
    cbn [time_Now]. cbn beta iota zeta.
    destruct (NewMessage _ _) as [pongMsg|err].
    + destruct (SendMessage _ _ _) as [h err] eqn:Es. intros [= <- _].
      cbn [store set_store] in Es |- *.
      match type of Es with SendMessage ?st _ _ = _ =>
        pose proof (SendMessage_inbound st s pongMsg) as Hk end.
      rewrite Es in Hk. cbn [fst] in Hk. rewrite Hk.
      unfold UpdatePing. rewrite deref_insert_eq. reflexivity.
    + intros [= <- _]. cbn [store set_store].
      unfold UpdatePing. rewrite deref_insert_eq. reflexivity.
  - unfold handlePong. cbn [time_Now]. cbn beta iota zeta. intros [= <- _].
    cbn [store set_store]. unfold UpdatePing. rewrite deref_insert_eq. reflexivity.
  - unfold handleACK.
    destruct (UnmarshalPayload (Payload msg)) as [ack|err];
      [|intros [= <- _]; reflexivity].
    destruct (ACK.Notify _ _ _) as [[aw g]|]; [|intros [= <- _]; reflexivity].
    destruct g; intros [= <- _]; reflexivity.
Qed.

Lemma readLoop_enough_fuel fuel s e :
  (length (inbound (Conn (deref (store e) s))) < fuel)%nat ->
  (readLoop defaults fuel s e).2 <> ExitFuel.
Proof.
  revert e. induction fuel as [|fuel IH]; intros e Hlen; [lia|].
  cbn [readLoop].
  destruct (shutdown e); [discriminate|].
  destruct (IsClosed (store e) s); [discriminate|].
  destruct (ReadMessage _) as [conn [msg|err]] eqn:Er; [|discriminate].
  apply ReadMessage_consumes in Er.
  set (e1 := set_store e _).
  assert (Hin1 : inbound (Conn (deref (store e1) s)) = inbound conn).
  { subst e1. cbn [store set_store]. rewrite deref_insert_eq. reflexivity. }
  destruct (handleMessage defaults s msg e1) as [e2 o] eqn:Eh.
  apply handleMessage_inbound in Eh.
  destruct o as [[err|]| |]; try discriminate.
  - apply IH. unfold sendError. rewrite send_logged_inbound, Eh, Hin1. lia.
  - apply IH. rewrite Eh, Hin1. lia.
Qed.

(** [handleConnection] given fuel beyond the bytes the peer sent does
    return for one of its own reasons. *)
Lemma handleConnection_enough_fuel fuel e conn uuid remoteAddr :
  (length (inbound conn) < fuel)%nat ->
  (handleConnection clock defaults fuel e conn uuid remoteAddr).2 <> ExitFuel.
Proof.
  intros Hlen. unfold handleConnection, NewSession. cbn [time_Now].
  cbn beta iota zeta.
  match goal with |- context [readLoop _ _ ?s ?e0] =>
    set (e0' := e0); set (s0 := s) end.
  pose proof (readLoop_enough_fuel fuel s0 e0') as Hf.
  destruct (readLoop defaults fuel s0 e0') as [e2 exit].
  cbn [snd] in Hf.
  assert (Hx : exit <> ExitFuel).
  { apply Hf. subst e0' s0. cbn [store set_store].
    rewrite deref_insert_eq. exact Hlen. }
  destruct exit; cbn; congruence.
Qed.

(** C6 (as the code has it).  When [handleConnection] leaves on a read
    error (deadline, EOF or framing violation), its deferred
    [session.Close()] sets the close flag and closes the connection, and
    nothing removes the session from the manager: a session that
    authenticated under a serial number is still in the id index and in
    the SN index after the reader has gone. *)
Theorem C6_read_error_closes_without_removing fuel e conn uuid remoteAddr
    e' session err :
  handleConnection clock defaults fuel e conn uuid remoteAddr
  = (e', session, ExitReadError err) ->
  IsClosed (store e') session = true
  /\ conn_closed (Conn (deref (store e') session)) = true
  /\ (SN (deref (store e') session) <> "" -> registered e' session).
Proof.
  unfold handleConnection, NewSession. cbn [time_Now]. cbn beta iota zeta.
  match goal with |- context [readLoop _ _ ?s ?e0] =>
    set (e0' := e0); set (s0 := s) end.
  destruct (readLoop defaults fuel s0 e0') as [e2 exit] eqn:Eloop.
  assert (Hn0 : named_registered e0' s0).
  { intros Hsn. exfalso. apply Hsn. subst e0' s0. cbn [store set_store].
    rewrite deref_insert_eq. reflexivity. }
  destruct (readLoop_named _ _ _ _ _ Hn0 Eloop) as [Hn2 Hopen].
  destruct exit; cbn beta iota; intros Heq; try discriminate Heq.
  injection Heq as <- <- <-.
  specialize (Hopen _ eq_refl). cbn [store set_store].
  split; [apply Close_closed|].
  split; [apply Close_conn_closed; exact Hopen|].
  assert (Hk : keeps e2 (set_store e2 (Close (store e2) s0))).
  { split; [reflexivity|]. intros q. cbn. split; [apply Close_SN|apply Close_ID]. }
  apply (keeps_named _ _ _ Hk Hn2).
Qed.


(** ** The heartbeat *)

Lemma SendPing_effect e s e' err :
  SendPing clock e s = (e', err) ->
  sessionManager e' = sessionManager e
  /\ (forall q, q <> s -> deref (store e') q = deref (store e) q)
  /\ same_identities (store e) (store e')
  /\ closed (deref (store e') s) = closed (deref (store e) s)
  /\ (closed (deref (store e) s) = true -> err <> None)
  /\ (err = None ->
      exists msg,
        NewMessage TypePing (mkPingMessage (Unix (clock (ticks e)))) = inl msg
        /\ Conn (deref (store e') s)
           = mkConn (inbound (Conn (deref (store e) s)))
                    (inbound_end (Conn (deref (store e) s)))
                    (outbound (Conn (deref (store e) s)) ++ fullBuf msg) false)
  /\ (closed (deref (store e) s) = false ->
      conn_closed (Conn (deref (store e) s)) = false ->
      (exists msg, NewMessage TypePing (mkPingMessage (Unix (clock (ticks e))))
                   = inl msg) ->
      err = None).
Proof.
  unfold SendPing. cbn [time_Now]. cbn beta iota zeta.
  destruct (NewMessage TypePing _) as [msg|merr] eqn:Em.
  2:{ intros [= <- <-]. cbn [sessionManager store].
      split; [reflexivity|]. split; [auto|].
      split; [apply same_identities_refl|]. split; [reflexivity|].
      split; [discriminate|]. split; [discriminate|].
      intros _ _ [m Hm]. discriminate. }
  cbn [store]. unfold SendMessage.
  destruct (closed (deref (store e) s)) eqn:Hc.
  { intros [= <- <-]. cbn [sessionManager store set_store].
    split; [reflexivity|]. split; [auto|].
    split; [apply same_identities_refl|]. split; [exact Hc|].
    split; [discriminate|]. split; [discriminate|]. discriminate. }
  unfold WriteMessage, Net.Write.
  destruct (conn_closed (Conn (deref (store e) s))) eqn:Hcc.
  - intros [= <- <-]. cbn [sessionManager store set_store].
    split; [reflexivity|].
    split; [intros q Hq; apply deref_insert_ne; congruence|].
    split; [apply write_same; reflexivity|].
    split; [rewrite deref_insert_eq; exact Hc|].
    split; [discriminate|]. split; [discriminate|]. discriminate.
  - intros [= <- <-]. cbn [sessionManager store set_store].
    split; [reflexivity|].
    split; [intros q Hq; apply deref_insert_ne; congruence|].
    split; [apply write_same; reflexivity|].
    split; [rewrite deref_insert_eq; exact Hc|].
    split; [discriminate|].
    split; [|reflexivity].
    intros _. exists msg. split; [reflexivity|].
    rewrite deref_insert_eq. reflexivity.
Qed.

(** The two ways one visit of the heartbeat can change the state. *)
Lemma heartbeat_visit_cases e info :
  keyed (world e) ->
  (heartbeat_visit clock e info = e
   /\ forall s, sessions (sessionManager e) !! info_ID info = Some s ->
                SN (deref (store e) s) = "")
  \/ (exists s e1 err,
        sessions (sessionManager e) !! info_ID info = Some s
        /\ SN (deref (store e) s) <> ""
        /\ SendPing clock e s = (e1, err)
        /\ ((err = None /\ heartbeat_visit clock e info = e1)
            \/ (err <> None
                /\ heartbeat_visit clock e info
                   = set_world e1
                       (Close (store e1) s,
                        mkSessionManager
                          (delete (info_ID info) (sessions (sessionManager e)))
                          (delete (SN (deref (store e) s))
                                  (snToID (sessionManager e))))))).
Proof.
  intros Hk. unfold heartbeat_visit, Get, world. cbn [fst snd].
  destruct (sessions (sessionManager e) !! info_ID info) as [s|] eqn:Hs.
  2:{ left. split; [reflexivity|discriminate]. }
  cbn beta iota. case_decide as Hsn.
  2:{ left. split; [reflexivity|]. intros s' [= <-].
      destruct (decide (SN (deref (store e) s) = "")); tauto. }
  right. destruct (SendPing clock e s) as [e1 err] eqn:Ep.
  exists s, e1, err. split; [reflexivity|]. split; [exact Hsn|].
  split; [exact Ep|].
  destruct (SendPing_effect _ _ _ _ Ep) as (Hsm & _ & Hsame & _).
  destruct err as [err|]; [right|left; auto].
  split; [discriminate|]. f_equal.
  destruct (Hsame s) as [Hsn1 Hid1].
  assert (Hid : ID (deref (store e1) s) = info_ID info).
  { rewrite Hid1. apply (Hk _ _ Hs). }
  rewrite Hid. unfold world.
  rewrite (Remove_present (store e1) (sessionManager e1) (info_ID info) s)
    by (rewrite Hsm; exact Hs).
  rewrite Hsm, Hsn1. rewrite decide_True by exact Hsn. reflexivity.
Qed.

(** What one visit leaves alone. *)
Lemma heartbeat_visit_frame e info :
  reachable (world e) ->
  let e' := heartbeat_visit clock e info in
  reachable (world e')
  /\ (forall id, id <> info_ID info ->
                 sessions (sessionManager e') !! id
                 = sessions (sessionManager e) !! id)
  /\ (forall id s, sessions (sessionManager e') !! id = Some s ->
                   sessions (sessionManager e) !! id = Some s)
  /\ (forall sn id, snToID (sessionManager e') !! sn = Some id ->
                    snToID (sessionManager e) !! sn = Some id)
  /\ (forall q, sessions (sessionManager e) !! info_ID info <> Some q ->
                deref (store e') q = deref (store e) q)
  /\ (forall q, closed (deref (store e) q) = true ->
                closed (deref (store e') q) = true)
  /\ (ticks e <= ticks e')%nat.
Proof using Type*.
  intros Hr e'. subst e'.
  destruct (reachable_consistent _ Hr) as [_ Hk].
  destruct (heartbeat_visit_cases e info Hk)
    as [[-> _]|(s & e1 & err & Hs & Hsn & Ep & Hcase)].
  { repeat split; auto. }
  destruct (SendPing_effect _ _ _ _ Ep) as (Hsm & Hoth & Hsame & Hcl & _).
  assert (Hk1 : keeps e e1) by (split; assumption).
  assert (Hr1 : reachable (world e1)) by (eapply keeps_reachable; eassumption).
  assert (Ht : (ticks e <= ticks e1)%nat).
  { revert Ep. unfold SendPing. cbn [time_Now]. cbn beta iota zeta.
    destruct (NewMessage _ _); [|intros [= <- _]; cbn; lia].
    destruct (SendMessage _ _ _). intros [= <- _]. cbn. lia. }
  assert (Hcl1 : forall q, closed (deref (store e) q) = true ->
                           closed (deref (store e1) q) = true).
  { intros q Hq. destruct (decide (q = s)) as [->|Hne].
    - rewrite Hcl. exact Hq.
    - rewrite Hoth by assumption. exact Hq. }
  destruct Hcase as [[-> ->]|[Herr ->]].
  - rewrite Hsm. repeat split; auto.
    intros q Hq. apply Hoth. congruence.
  - split.
    { rewrite world_set_world.
      replace (Close (store e1) s,
               mkSessionManager (delete (info_ID info) (sessions (sessionManager e)))
                 (delete (SN (deref (store e) s)) (snToID (sessionManager e))))
        with (Remove (world e1) (info_ID info)).
      - apply reach_Remove, Hr1.
      - unfold world.
        rewrite (Remove_present (store e1) (sessionManager e1) (info_ID info) s)
          by (rewrite Hsm; exact Hs).
        destruct (Hsame s) as [-> _]. rewrite Hsm.
        rewrite decide_True by exact Hsn. reflexivity. }
    cbn [set_world sessionManager store fst snd sessions snToID ticks].
    split; [intros id Hne; apply lookup_delete_ne; congruence|].
    split; [intros id q Hq; apply lookup_delete_Some in Hq; apply Hq|].
    split; [intros sn id Hq; apply lookup_delete_Some in Hq; apply Hq|].
    split.
    { intros q Hq. rewrite Close_other by congruence. apply Hoth. congruence. }
    split; [|exact Ht].
    intros q Hq. apply Close_keeps_closed, Hcl1, Hq.
Qed.

(** What one visit does to the session it visits. *)
Lemma heartbeat_visit_session e info s :
  reachable (world e) ->
  sessions (sessionManager e) !! info_ID info = Some s ->
  let e' := heartbeat_visit clock e info in
  (SN (deref (store e) s) = "" -> e' = e)
  /\ (SN (deref (store e) s) <> "" -> closed (deref (store e) s) = true ->
      sessions (sessionManager e') !! info_ID info = None
      /\ snToID (sessionManager e') !! SN (deref (store e) s) = None)
  /\ (SN (deref (store e) s) <> "" -> closed (deref (store e) s) = false ->
      conn_closed (Conn (deref (store e) s)) = false ->
      (exists msg, NewMessage TypePing (mkPingMessage (Unix (clock (ticks e))))
                   = inl msg) ->
      sessions (sessionManager e') !! info_ID info = Some s
      /\ closed (deref (store e') s) = false
      /\ outbound (Conn (deref (store e') s))
         = outbound (Conn (deref (store e) s))
           ++ wire TypePing (mkPingMessage (Unix (clock (ticks e))))).
Proof.
  intros Hr Hs e'. subst e'.
  destruct (reachable_consistent _ Hr) as [_ Hk].
  destruct (heartbeat_visit_cases e info Hk)
    as [[-> Hnone]|(s' & e1 & err & Hs' & Hsn & Ep & Hcase)].
  { specialize (Hnone _ Hs). repeat split; congruence. }
  assert (s' = s) by congruence. subst s'.
  destruct (SendPing_effect _ _ _ _ Ep) as (Hsm & Hoth & Hsame & Hcl & Hfail & Hsent & Hok).
  split; [congruence|]. split.
  - intros _ Hc. destruct Hcase as [[-> _]|[_ ->]]; [destruct (Hfail Hc); reflexivity|].
    cbn [set_world sessionManager fst snd sessions snToID].
    rewrite !lookup_delete_eq. auto.
  - intros _ Hc Hcc Hm. specialize (Hok Hc Hcc Hm). subst err.
    destruct Hcase as [[_ ->]|[Hbad _]]; [|congruence].
    destruct (Hsent eq_refl) as (msg & Hmsg & Hconn).
    rewrite Hsm. split; [exact Hs|]. split; [congruence|].
    rewrite Hconn. cbn [outbound]. unfold wire. rewrite Hmsg. reflexivity.
Qed.

Lemma heartbeat_fold_frame infos e :
  reachable (world e) ->
  let e' := foldl (heartbeat_visit clock) e infos in
  reachable (world e')
  /\ (forall id, id ∉ info_ID <$> infos ->
                 sessions (sessionManager e') !! id
                 = sessions (sessionManager e) !! id)
  /\ (forall id s, sessions (sessionManager e') !! id = Some s ->
                   sessions (sessionManager e) !! id = Some s)
  /\ (forall sn id, snToID (sessionManager e') !! sn = Some id ->
                    snToID (sessionManager e) !! sn = Some id)
  /\ (forall q, (forall id, id ∈ info_ID <$> infos ->
                            sessions (sessionManager e) !! id <> Some q) ->
                deref (store e') q = deref (store e) q)
  /\ (forall q, closed (deref (store e) q) = true ->
                closed (deref (store e') q) = true)
  /\ (ticks e <= ticks e')%nat.
Proof.
  revert e. induction infos as [|info infos IH]; intros e Hr; cbn [foldl].
  { repeat split; auto. }
  destruct (heartbeat_visit_frame e info Hr) as (Hr1 & A2 & A3 & A4 & A5 & A6 & A7).
  destruct (IH _ Hr1) as (Hr2 & B2 & B3 & B4 & B5 & B6 & B7).
  split; [exact Hr2|].
  split.
  { intros id Hid. rewrite fmap_cons in Hid. apply not_elem_of_cons in Hid.
    destruct Hid as [Hne Hid]. rewrite (B2 _ Hid). apply A2, Hne. }
  split; [intros id s Hs; apply A3, B3, Hs|].
  split; [intros sn id Hs; apply A4, B4, Hs|].
  split.
  { intros q Hq. rewrite B5.
    - apply A5. apply Hq. rewrite fmap_cons. apply elem_of_cons. auto.
    - intros id Hid Hs. apply (Hq id).
      + rewrite fmap_cons. apply elem_of_cons. auto.
      + apply A3, Hs. }
  split; [intros q Hq; apply B6, A6, Hq|lia].
Qed.

Lemma fmap_info_ID_keys (l : list (string * SessionInfo)) :
  (forall kv, kv ∈ l -> info_ID kv.2 = kv.1) ->
  info_ID <$> l.*2 = l.*1.
Proof.
  induction l as [|kv l IH]; intros Hall; [reflexivity|].
  cbn [fmap list_fmap]. f_equal.
  - apply Hall, elem_of_cons. auto.
  - apply IH. intros kv' Hin. apply Hall, elem_of_cons. auto.
Qed.

(** The snapshot of a keyed manager: one entry per id held, each naming
    its id. *)
Lemma snapshot_entries e :
  keyed (world e) ->
  NoDup (info_ID <$> (map_to_list (GetSessionInfo (world e))).*2)
  /\ (forall id s,
        sessions (sessionManager e) !! id = Some s ->
        exists info,
          info ∈ (map_to_list (GetSessionInfo (world e))).*2
          /\ info_ID info = id).
Proof.
  intros Hk.
  assert (Hent : forall id info,
             GetSessionInfo (world e) !! id = Some info -> info_ID info = id).
  { intros id info Hl. rewrite (GetSessionInfo_lookup _ _ Hk) in Hl.
    unfold Get, world in Hl. cbn [fst snd] in Hl.
    destruct (sessions (sessionManager e) !! id) as [s|] eqn:Hs; [|discriminate].
    injection Hl as <-. cbn. apply (Hk _ _ Hs). }
  split.
  - rewrite fmap_info_ID_keys; [apply NoDup_fst_map_to_list|].
    intros [k info] Hin. apply elem_of_map_to_list in Hin. cbn. apply Hent, Hin.
  - intros id s Hs.
    assert (Hl : GetSessionInfo (world e) !! id
                 = Some (info_of (deref (store e) s))).
    { rewrite (GetSessionInfo_lookup _ _ Hk). unfold Get, world. cbn [fst snd].
      rewrite Hs. reflexivity. }
    exists (info_of (deref (store e) s)). split; [|apply (Hent _ _ Hl)].
    apply list_elem_of_fmap. exists (id, info_of (deref (store e) s)).
    split; [reflexivity|]. apply elem_of_map_to_list, Hl.
Qed.

(** The tick seen from one session the manager holds: the state [e1]
    in which its entry is visited has the session as it was, and
    nothing after that visit touches the session or its id. *)
Lemma heartbeat_tick_at e id s :
  reachable (world e) ->
  sessions (sessionManager e) !! id = Some s ->
  exists e1 info,
    info_ID info = id
    /\ reachable (world e1)
    /\ sessions (sessionManager e1) !! id = Some s
    /\ deref (store e1) s = deref (store e) s
    /\ (ticks e <= ticks e1)%nat
    /\ sessions (sessionManager (heartbeatLoop_tick clock e)) !! id
       = sessions (sessionManager (heartbeat_visit clock e1 info)) !! id
    /\ (forall sn i,
          snToID (sessionManager (heartbeatLoop_tick clock e)) !! sn = Some i ->
          snToID (sessionManager (heartbeat_visit clock e1 info)) !! sn = Some i)
    /\ deref (store (heartbeatLoop_tick clock e)) s
       = deref (store (heartbeat_visit clock e1 info)) s.
Proof.
  intros Hr Hs. destruct (reachable_consistent _ Hr) as [_ Hk].
  destruct (snapshot_entries e Hk) as [Hnd Hall].
  destruct (Hall _ _ Hs) as (info & Hin & Hid).
  apply list_elem_of_split in Hin. destruct Hin as (L1 & L2 & HL).
  unfold heartbeatLoop_tick. rewrite HL in Hnd |- *.
  rewrite fmap_app, fmap_cons in Hnd.
  apply NoDup_app in Hnd. destruct Hnd as (_ & Hdisj & Hnd2).
  apply NoDup_cons in Hnd2. destruct Hnd2 as [Hout2 _].
  assert (Hout1 : id ∉ info_ID <$> L1).
  { intros Hin1. apply (Hdisj _ Hin1). rewrite Hid. apply elem_of_cons. auto. }
  rewrite Hid in Hout2.
  rewrite foldl_app. cbn [foldl].
  set (e1 := foldl (heartbeat_visit clock) e L1).
  destruct (heartbeat_fold_frame L1 e Hr) as (Hr1 & A2 & A3 & _ & A5 & _ & A7).
  fold e1 in Hr1, A2, A3, A5, A7.
  assert (Hown : forall id', sessions (sessionManager e) !! id' = Some s -> id' = id).
  { intros id' Hs'. rewrite <- (Hk _ _ Hs'). apply (Hk _ _ Hs). }
  exists e1, info. split; [exact Hid|]. split; [exact Hr1|].
  split; [rewrite (A2 _ Hout1); exact Hs|].
  split.
  { apply A5. intros id' Hin' Hs'. apply Hown in Hs'. subst id'. contradiction. }
  split; [exact A7|].
  destruct (heartbeat_visit_frame e1 info Hr1) as (Hr2 & _ & V3 & _).
  destruct (heartbeat_fold_frame L2 _ Hr2) as (_ & B2 & _ & B4 & B5 & _).
  split; [apply B2, Hout2|]. split; [exact B4|].
  apply B5. intros id' Hin' Hs'. apply V3, A3, Hown in Hs'. subst id'. contradiction.
Qed.

(** A closed session with a serial number is gone after the tick. *)
Lemma heartbeat_removes_closed e id s :
  reachable (world e) ->
  sessions (sessionManager e) !! id = Some s ->
  SN (deref (store e) s) <> "" ->
  closed (deref (store e) s) = true ->
  sessions (sessionManager (heartbeatLoop_tick clock e)) !! id = None
  /\ snToID (sessionManager (heartbeatLoop_tick clock e)) !! SN (deref (store e) s)
     = None.
Proof.
  intros Hr Hs Hsn Hc.
  destruct (heartbeat_tick_at e id s Hr Hs)
    as (e1 & info & Hid & Hr1 & Hs1 & Hd1 & _ & Hfin & Hidx & _).
  rewrite <- Hid in Hs1.
  destruct (heartbeat_visit_session e1 info s Hr1 Hs1) as (_ & Hgone & _).
  rewrite Hd1 in Hgone. destruct (Hgone Hsn Hc) as [G1 G2].
  split; [rewrite Hfin, <- Hid; exact G1|].
  destruct (snToID (sessionManager (heartbeatLoop_tick clock e))
              !! SN (deref (store e) s)) as [i|] eqn:E; [|reflexivity].
  apply Hidx in E. congruence.
Qed.

(** X16.  One tick of the heartbeat, from a state the manager reaches
    and with no other goroutine in between.  (1) A session with a serial
    number whose close flag is set is removed: it is no longer held and
    its serial number is no longer listed.  (2) A session without a
    serial number is neither pinged nor removed.  (3) An open session
    with a serial number, whose connection takes the write, stays held
    and has one Ping frame more on its connection, stamped with a
    reading of the clock made during the tick.  (4) The tick adds no
    session. *)
Theorem heartbeat_tick_prunes_closed_sessions (e : Env) :
  reachable (world e) ->
  (forall id s,
      Get (world e) id = Some s ->
      SN (deref (store e) s) <> "" ->
      IsClosed (store e) s = true ->
      Get (world (heartbeatLoop_tick clock e)) id = None
      /\ SN (deref (store e) s) ∉ GetOnlineDevices (world (heartbeatLoop_tick clock e)))
  /\ (forall id s,
      Get (world e) id = Some s ->
      SN (deref (store e) s) = "" ->
      Get (world (heartbeatLoop_tick clock e)) id = Some s
      /\ deref (store (heartbeatLoop_tick clock e)) s = deref (store e) s)
  /\ (forall id s,
      Get (world e) id = Some s ->
      SN (deref (store e) s) <> "" ->
      IsClosed (store e) s = false ->
      conn_closed (Conn (deref (store e) s)) = false ->
      (forall t, exists data, MarshalPayload (mkPingMessage t) = inl data) ->
      Get (world (heartbeatLoop_tick clock e)) id = Some s
      /\ IsClosed (store (heartbeatLoop_tick clock e)) s = false
      /\ exists n,
           (ticks e <= n)%nat
           /\ outbound (Conn (deref (store (heartbeatLoop_tick clock e)) s))
              = outbound (Conn (deref (store e) s))
                ++ wire TypePing (mkPingMessage (Unix (clock n))))
  /\ (forall id s,
      Get (world (heartbeatLoop_tick clock e)) id = Some s ->
      Get (world e) id = Some s).
Proof.
  intros Hr. unfold Get, IsClosed, world. cbn [fst snd].
  split; [|split; [|split]].
  - intros id s Hs Hsn Hc.
    destruct (heartbeat_removes_closed e id s Hr Hs Hsn Hc) as [G1 G2].
    split; [exact G1|]. rewrite GetOnlineDevices_spec. cbn [snd].
    rewrite G2. intros [x Hx]. discriminate.
  - intros id s Hs Hsn.
    destruct (heartbeat_tick_at e id s Hr Hs)
      as (e1 & info & Hid & Hr1 & Hs1 & Hd1 & _ & Hfin & _ & Hst).
    rewrite <- Hid in Hs1.
    destruct (heartbeat_visit_session e1 info s Hr1 Hs1) as (Hsame & _).
    rewrite Hd1 in Hsame. rewrite Hfin, Hst, (Hsame Hsn), <- Hid. auto.
  - intros id s Hs Hsn Hc Hcc Hm.
    destruct (heartbeat_tick_at e id s Hr Hs)
      as (e1 & info & Hid & Hr1 & Hs1 & Hd1 & Ht & Hfin & _ & Hst).
    rewrite <- Hid in Hs1.
    destruct (heartbeat_visit_session e1 info s Hr1 Hs1) as (_ & _ & Hping).
    rewrite Hd1 in Hping.
    destruct Hping as (P1 & P2 & P3); [assumption..| |].
    { destruct (Hm (Unix (clock (ticks e1)))) as [data Hdata].
      unfold NewMessage. rewrite Hdata. eauto. }
    rewrite Hfin, Hst, <- Hid. split; [exact P1|]. split; [exact P2|].
    exists (ticks e1). auto.
  - intros id s Hs.
    destruct (heartbeat_fold_frame
                (map_to_list (GetSessionInfo (world e))).*2 e Hr)
      as (_ & _ & B3 & _).
    apply B3, Hs.
Qed.

(** ** From a dead connection to its removal *)

Lemma readLoop_reachable fuel s e e' exit :
  reachable (world e) ->
  readLoop defaults fuel s e = (e', exit) ->
  reachable (world e').
Proof.
  revert e. induction fuel as [|fuel IH]; intros e Hr; cbn [readLoop].
  { intros [= <- _]. exact Hr. }
  destruct (shutdown e); [intros [= <- _]; exact Hr|].
  destruct (IsClosed (store e) s); [intros [= <- _]; exact Hr|].
  destruct (ReadMessage _) as [conn r].
  assert (Hk : keeps e (set_store e (<[s := set_Conn (deref (store e) s) conn]> (store e))))
    by (split; [reflexivity|apply write_same; reflexivity]).
  pose proof (keeps_reachable _ _ Hk Hr) as Hr1.
  destruct r as [msg|err]; [|intros [= <- _]; exact Hr1].
  destruct (handleMessage _ _ _ _) as [e2 o] eqn:Eh.
  pose proof (handleMessage_reachable _ _ _ _ _ Hr1 Eh) as Hr2.
  destruct o as [[err|]| |].
  - apply IH. eapply keeps_reachable; [apply sendError_keeps|exact Hr2].
  - apply IH. exact Hr2.
  - intros [= <- _]. exact Hr2.
  - intros [= <- _]. exact Hr2.
Qed.

(** X17.  Removal is lazy but it comes.  A connection handler that
    leaves on a read error leaves its session, if it carries a serial
    number, closed and registered; the next tick of the heartbeat
    removes it from both indices.  (The manager starts from a state it
    reaches in which every session it holds is allocated.) *)
Theorem dead_connection_is_pruned_by_heartbeat
    (fuel : nat) (e : Env) (conn : Net.Conn) (uuid remoteAddr : string)
    (e' : Env) (session : ptr) (err : error) :
  reachable (world e) ->
  (forall id p, sessions (sessionManager e) !! id = Some p ->
                is_Some (store e !! p)) ->
  handleConnection clock defaults fuel e conn uuid remoteAddr
  = (e', session, ExitReadError err) ->
  SN (deref (store e') session) <> "" ->
  registered e' session
  /\ IsClosed (store e') session = true
  /\ Get (world (heartbeatLoop_tick clock e')) (ID (deref (store e') session)) = None
  /\ SN (deref (store e') session)
     ∉ GetOnlineDevices (world (heartbeatLoop_tick clock e')).
Proof.
  intros Hr Halloc. unfold handleConnection, NewSession.
  cbn [time_Now]. cbn beta iota zeta.
  match goal with |- context [readLoop _ _ ?s ?e0] =>
    set (e0' := e0); set (s0 := s) end.
  destruct (readLoop defaults fuel s0 e0') as [e2 exit] eqn:Eloop.
  assert (Hn0 : named_registered e0' s0).
  { intros Hsn. exfalso. apply Hsn. subst e0' s0. cbn [store set_store].
    rewrite deref_insert_eq. reflexivity. }
  assert (Hr0 : reachable (world e0')).
  { subst e0'. unfold world. cbn [store set_store sessionManager].
    eapply reach_store; [exact Hr|].
    intros id p Hp. rewrite deref_insert_ne; [auto|].
    intros Heq. destruct (Halloc _ _ Hp) as [x Hx].
    apply elem_of_dom_2 in Hx. rewrite <- Heq in Hx.
    apply (is_fresh (dom (store e))). exact Hx. }
  destruct (readLoop_named _ _ _ _ _ Hn0 Eloop) as [Hn2 _].
  pose proof (readLoop_reachable _ _ _ _ _ Hr0 Eloop) as Hr2.
  destruct exit; cbn beta iota; intros Heq; try discriminate Heq.
  injection Heq as <- <- <-. intros Hsn.
  assert (Hk : keeps e2 (set_store e2 (Close (store e2) s0))).
  { split; [reflexivity|]. intros q. cbn. split; [apply Close_SN|apply Close_ID]. }
  pose proof (keeps_named _ _ _ Hk Hn2 Hsn) as Hreg.
  pose proof (keeps_reachable _ _ Hk Hr2) as Hr3.
  split; [exact Hreg|].
  split; [cbn [store set_store]; apply Close_closed|].
  destruct Hreg as [Hs _].
  destruct (heartbeat_removes_closed _ _ _ Hr3 Hs Hsn) as [G1 G2].
  { cbn [store set_store]. apply Close_closed. }
  split; [exact G1|].
  rewrite GetOnlineDevices_spec. unfold world. cbn [snd].
  rewrite G2. intros [x Hx]. discriminate.
Qed.

(** ** More on the handlers *)

(** X18.  A Ping is answered on any open session, whether it has
    authenticated or not: the handler sets [LastPing] to the instant it
    reads first, writes one Pong frame stamped with the second reading,
    and returns nil.  Neither the manager nor the identity of any
    session changes, and the timestamp carried by the Ping is not
    looked at. *)
Theorem handlePing_answers_any_open_session
    (s : ptr) (msg : Message) (e : Env) (ping : PingMessage) (pongMsg : Message) :
  UnmarshalPayload (T := PingMessage) (Payload msg) = inl ping ->
  NewMessage TypePong (mkPongMessage (Unix (clock (S (ticks e))))) = inl pongMsg ->
  IsClosed (store e) s = false ->
  conn_closed (Conn (deref (store e) s)) = false ->
  exists e',
    handlePing clock s msg e = (e', Returns None)
    /\ LastPing (deref (store e') s) = clock (ticks e)
    /\ outbound (Conn (deref (store e') s))
       = outbound (Conn (deref (store e) s)) ++ fullBuf pongMsg
    /\ IsClosed (store e') s = false
    /\ keeps e e'
    /\ ticks e' = S (S (ticks e)).
Proof.
  intros Hu Hm Hc Hcc.
  destruct (handlePing clock s msg e) as [e' o] eqn:Eh.
  pose proof (handlePing_keeps _ _ _ _ _ Eh) as Hk.
  assert (Hsend : SendMessage (UpdatePing (store e) s (clock (ticks e))) s pongMsg
                  = (<[s := set_Conn (deref (UpdatePing (store e) s (clock (ticks e))) s)
                               (mkConn (inbound (Conn (deref (store e) s)))
                                       (inbound_end (Conn (deref (store e) s)))
                                       (outbound (Conn (deref (store e) s))
                                        ++ fullBuf pongMsg) false)]>
                       (UpdatePing (store e) s (clock (ticks e))),
                     None)).
  { unfold SendMessage, UpdatePing. rewrite deref_insert_eq.
    cbn [closed set_LastPing Conn]. unfold IsClosed in Hc. rewrite Hc.
    unfold WriteMessage, Net.Write. rewrite Hcc. reflexivity. }
  revert Eh. unfold handlePing. rewrite Hu. cbn [time_Now]. cbn beta iota zeta.
  unfold set_store. cbn [store sessionManager authenticator ackWaiter shutdown ticks].
  rewrite Hm, Hsend. intros [= <- <-]. eexists. split; [reflexivity|].
  split; [cbn [store]; rewrite deref_insert_eq; unfold UpdatePing;
          rewrite deref_insert_eq; reflexivity|].
  split; [cbn [store]; rewrite deref_insert_eq; reflexivity|].
  split; [unfold IsClosed; cbn [store]; rewrite deref_insert_eq; unfold UpdatePing;
          rewrite deref_insert_eq; exact Hc|].
  split; [exact Hk|reflexivity].
Qed.

(** X19.  A frame whose type has no handler is not dropped and does not
    end the connection.  Of the eight message types only Auth, Ping,
    Pong and ACK have a default handler; for any other type (Report and
    CMD among them) the reader sends Err{500, "unknown message type:
    N"} and goes round its loop again, with the session open and the
    manager, the authenticator and the ACK waiter untouched. *)
Theorem unhandled_message_type_gets_an_error_frame
    (fuel : nat) (session : ptr) (e : Env) (conn : Net.Conn) (msg : Message) :
  shutdown e = false ->
  IsClosed (store e) session = false ->
  ReadMessage (Conn (deref (store e) session)) = (conn, inl msg) ->
  Type_ msg <> TypeAuth -> Type_ msg <> TypePing ->
  Type_ msg <> TypePong -> Type_ msg <> TypeACK ->
  exists e',
    readLoop defaults (S fuel) session e = readLoop defaults fuel session e'
    /\ outbound (Conn (deref (store e') session))
       = outbound conn
         ++ wire TypeErr
              (mkErrorMessage 500
                 ("unknown message type: " +:+ pretty (Z_of_byte (Type_ msg))))
    /\ inbound (Conn (deref (store e') session)) = inbound conn
    /\ IsClosed (store e') session = false
    /\ conn_closed (Conn (deref (store e') session)) = false
    /\ sessionManager e' = sessionManager e
    /\ authenticator e' = authenticator e
    /\ ackWaiter e' = ackWaiter e.
Proof.
  intros Hsd Hc Hread H1' H2' H3' H4'.
  pose proof (ReadMessage_open _ _ _ Hread) as Hco.
  assert (Hnone : defaults !! Type_ msg = None).
  { unfold registerDefaultHandlers. rewrite !lookup_insert_ne by congruence.
    apply lookup_empty. }
  eexists. split.
  { cbn [readLoop]. rewrite Hsd, Hc, Hread.
    unfold handleMessage.
    match goal with |- context [?m !! Type_ msg] =>
      replace (m !! Type_ msg) with (@None MessageHandler)
        by (symmetry; exact Hnone) end.
    reflexivity. }
  set (e1 := set_store e _).
  assert (H1c : closed (deref (store e1) session) = false).
  { subst e1. cbn. rewrite deref_insert_eq. exact Hc. }
  assert (H1cc : conn_closed (Conn (deref (store e1) session)) = false).
  { subst e1. cbn. rewrite deref_insert_eq. exact Hco. }
  assert (H1o : Conn (deref (store e1) session) = conn).
  { subst e1. cbn. rewrite deref_insert_eq. reflexivity. }
  unfold sendError.
  destruct (send_logged_open e1 session
              (NewMessage TypeErr
                 (mkErrorMessage 500
                    ("unknown message type: " +:+ pretty (Z_of_byte (Type_ msg)))))
              H1c H1cc)
    as (H2c & H2cc & H2o & H2a & H2s).
  set (e2 := send_logged e1 session _) in *.
  split; [rewrite H2o, H1o; reflexivity|].
  split.
  { subst e2. rewrite send_logged_inbound, H1o. reflexivity. }
  split; [exact H2c|]. split; [exact H2cc|].
  split; [apply (send_logged_keeps e1 session)|].
  split; [exact H2a|].
  subst e2. destruct (NewMessage TypeErr _); reflexivity.
Qed.

(** X20.  A second Auth on a registered connection disconnects it.
    When a session that is registered under a serial number presents a
    valid Auth for the same serial number, [Add] finds the session
    itself as the holder and closes it: the handler returns nil, but the
    session is closed, no AuthOK frame is written, [GetBySN] no longer
    finds the device, and the reader leaves at its next look at the
    close channel. *)
Theorem second_Auth_closes_the_session
    (s : ptr) (msg : Message) (e : Env) (auth : AuthMessage)
    (a : Authenticator MemoryNonceStore) :
  UnmarshalPayload (Payload msg) = inl auth ->
  VerifySignature hmac_sha256_hex (authenticator e)
    (clock (ticks e)) (clock (S (ticks e)))
    (auth_AppID auth) (auth_SN auth) (auth_TS auth)
    (auth_Nonce auth) (auth_Sign auth) = (a, None) ->
  registered e s ->
  SN (deref (store e) s) = auth_SN auth ->
  auth_SN auth <> "" ->
  exists e',
    handleAuth hmac_sha256_hex clock s msg e = (e', Returns None)
    /\ IsClosed (store e') s = true
    /\ outbound (Conn (deref (store e') s)) = outbound (Conn (deref (store e) s))
    /\ registered e' s
    /\ GetBySN (world e') (auth_SN auth) = None
    /\ (shutdown e = false ->
        forall fuel, readLoop defaults (S fuel) s e' = (e', ExitSessionClosed)).
Proof.
  intros Hu Hv [Hs Hidx] Hsn Hne.
  set (h1 := <[s := set_auth (deref (store e) s) (auth_SN auth)
                             (auth_AppID auth) (auth_Meta auth)]> (store e)).
  assert (Hsn1 : SN (deref h1 s) = auth_SN auth)
    by (subst h1; rewrite deref_insert_eq; reflexivity).
  assert (Hid1 : ID (deref h1 s) = ID (deref (store e) s))
    by (subst h1; rewrite deref_insert_eq; reflexivity).
  assert (Hne1 : SN (deref h1 s) <> "") by congruence.
  assert (Hh : holder (h1, sessionManager e) (SN (deref h1 s))
               = Some (ID (deref (store e) s), s)).
  { unfold holder. cbn [snd]. rewrite Hsn1, <- Hsn, Hidx, Hs. reflexivity. }
  pose proof (Add_evicts _ _ _ _ _ Hne1 Hh) as Hadd.
  set (sm2 := mkSessionManager _ _) in Hadd.
  assert (Hfin : handleAuth hmac_sha256_hex clock s msg e
                 = (set_world
                      (mkEnv h1 (sessionManager e) a (ackWaiter e) (shutdown e)
                             (S (S (ticks e))))
                      (Close h1 s, sm2),
                    Returns None)).
  { unfold handleAuth. rewrite Hu. cbn [time_Now]. cbn beta iota zeta.
    cbn [authenticator ticks set_store store sessionManager ackWaiter shutdown].
    rewrite Hv. cbn beta iota zeta.
    cbn [authenticator ticks set_store store sessionManager ackWaiter shutdown].
    fold h1. unfold world at 1.
    cbn [authenticator ticks set_store store sessionManager ackWaiter shutdown].
    rewrite Hadd. f_equal.
    unfold sendAuthResult, send_logged.
    destruct (NewMessage TypeAuthOK _) as [m|er]; [|reflexivity].
    unfold SendMessage. cbn [set_world store fst].
    rewrite Close_closed. reflexivity. }
  eexists. split; [exact Hfin|].
  cbn [set_world store sessionManager fst snd shutdown].
  split; [apply Close_closed|].
  split.
  { unfold Close. destruct (closed (deref h1 s)).
    - subst h1. rewrite deref_insert_eq. reflexivity.
    - rewrite deref_insert_eq. cbn. subst h1. rewrite deref_insert_eq. reflexivity. }
  split.
  { unfold registered. cbn [store sessionManager set_world fst snd].
    rewrite Close_ID, Close_SN. subst sm2. cbn [sessions snToID].
    rewrite !lookup_insert_eq. auto. }
  split.
  { unfold GetBySN, world.
    cbn [store sessionManager set_world fst snd]. subst sm2. cbn [sessions snToID].
    rewrite Hsn1, !lookup_insert_eq. unfold IsClosed.
    rewrite Close_closed. reflexivity. }
  intros Hsd fuel. cbn [readLoop]. cbn [shutdown set_world].
  rewrite Hsd. unfold IsClosed. cbn [store set_world fst].
  rewrite Close_closed. reflexivity.
Qed.

End WithLibraries.



Lemma C6_read_error_closes_without_removing_witness :
  let e' := Run.run_auth_then_eof.1.1 in
  let session := Run.run_auth_then_eof.1.2 in
  IsClosed (store e') session = true
  /\ conn_closed (Conn (deref (store e') session)) = true
  /\ registered e' session.
Proof.
  intros e' session.
  destruct (C6_read_error_closes_without_removing Run.hmac Run.clock 8 Run.server
              (Run.conn_with [Run.frame TypeAuth Run.auth_good_payload])
              "session-1" "10.0.0.7:40000" e' session "read length: EOF")
    as (Hc & Hcc & Hreg).
  - vm_compute. reflexivity.
  - split; [exact Hc|]. split; [exact Hcc|].
    apply Hreg. vm_compute. discriminate.
Defined.

(** C6 as stated fails: a device authenticates as SN123456 and its
    connection then ends.  The reader leaves on the read error and closes
    the session, which is still in the id index and in the SN index. *)
Lemma C6_session_still_indexed_after_read_error :
  Run.run_auth_then_eof.2 = ExitReadError "read length: EOF"
  /\ IsClosed (store Run.run_auth_then_eof.1.1) Run.run_auth_then_eof.1.2 = true
  /\ sessions (sessionManager Run.run_auth_then_eof.1.1) !! "session-1"
     = Some Run.run_auth_then_eof.1.2
  /\ snToID (sessionManager Run.run_auth_then_eof.1.1) !! "SN123456"
     = Some "session-1".
Proof. repeat split; vm_compute; reflexivity. Qed.

Lemma heartbeat_tick_prunes_closed_sessions_witness :
  let conn := Net.mkConn [] Net.AtEOF [] false in
  let A := mkSession "id-A" "SN1" "A1" conn "10.0.0.1:1" 0 0 ∅ false in
  let B := mkSession "id-B" "SN2" "A1" conn "10.0.0.2:1" 0 0 ∅ false in
  let w1 := Add (Add (<[1%nat := A]> (<[2%nat := B]> ∅), NewSessionManager) 1%nat) 2%nat in
  let e := mkEnv (Close w1.1 1%nat) w1.2 (authenticator Run.server)
                 ACK.NewACKWaiter false 0 in
  Get (world (heartbeatLoop_tick Run.clock e)) "id-A" = None
  /\ ("SN1" ∉ GetOnlineDevices (world (heartbeatLoop_tick Run.clock e)))
  /\ Get (world (heartbeatLoop_tick Run.clock e)) "id-B" = Some 2%nat
  /\ IsClosed (store (heartbeatLoop_tick Run.clock e)) 2%nat = false.
Proof.
  intros conn A B w1 e.
  assert (Hr : reachable (world e)).
  { apply (reach_store w1.1 (Close w1.1 1%nat) w1.2).
    - replace (w1.1, w1.2) with w1 by (destruct w1; reflexivity).
      apply reach_Add, reach_Add, reach_New.
    - intros id s _. split; [apply Close_SN|apply Close_ID]. }
  destruct (heartbeat_tick_prunes_closed_sessions Run.clock e Hr)
    as (Hclosed & _ & Hopen & _).
  destruct (Hclosed "id-A" 1%nat) as [G1 G2];
    [vm_compute; reflexivity|vm_compute; discriminate|vm_compute; reflexivity|].
  destruct (Hopen "id-B" 2%nat) as (P1 & P2 & _);
    [vm_compute; reflexivity|vm_compute; discriminate|vm_compute; reflexivity
    |vm_compute; reflexivity| |].
  { intros t. eexists. reflexivity. }
  split; [exact G1|]. split; [exact G2|]. split; [exact P1|exact P2].
Defined.

Lemma dead_connection_is_pruned_by_heartbeat_witness :
  let e' := Run.run_auth_then_eof.1.1 in
  let session := Run.run_auth_then_eof.1.2 in
  registered e' session
  /\ IsClosed (store e') session = true
  /\ Get (world (heartbeatLoop_tick Run.clock e')) "session-1" = None
  /\ "SN123456" ∉ GetOnlineDevices (world (heartbeatLoop_tick Run.clock e')).
Proof.
  intros e' session.
  apply (dead_connection_is_pruned_by_heartbeat Run.hmac Run.clock 8 Run.server
           (Run.conn_with [Run.frame TypeAuth Run.auth_good_payload])
           "session-1" "10.0.0.7:40000" e' session "read length: EOF").
  - apply reach_New.
  - intros id p Hp. vm_compute in Hp. discriminate.
  - vm_compute. reflexivity.
  - vm_compute. discriminate.
Defined.


Lemma handlePing_answers_any_open_session_witness :
  let e := (Run.accepted (Run.conn_with [])).1 in
  let s := (Run.accepted (Run.conn_with [])).2 in
  SN (deref (store e) s) = ""
  /\ exists e',
       handlePing Run.clock s (Run.frame TypePing Run.ping_payload) e
       = (e', Returns None)
       /\ LastPing (deref (store e') s) = Run.clock 2
       /\ outbound (Conn (deref (store e') s))
          = [] ++ wire TypePong (mkPongMessage 1700000003).
Proof.
  intros e s. split; [vm_compute; reflexivity|].
  destruct (handlePing_answers_any_open_session Run.clock s
              (Run.frame TypePing Run.ping_payload) e (mkPingMessage 1700000000)
              (mkMessage ProtocolVersion TypePong (Run.bytes "pong:1700000003")))
    as (e' & Hh & Hl & Ho & _).
  - vm_compute. reflexivity.
  - vm_compute. reflexivity.
  - vm_compute. reflexivity.
  - vm_compute. reflexivity.
  - exists e'. split; [exact Hh|]. split; [exact Hl|]. exact Ho.
Defined.

Lemma unhandled_message_type_gets_an_error_frame_witness :
  let conn0 := Run.conn_with [Run.frame TypeReport (Run.bytes "{}")] in
  let e := (Run.accepted conn0).1 in
  let s := (Run.accepted conn0).2 in
  exists e',
    readLoop Run.handlers 3 s e = readLoop Run.handlers 2 s e'
    /\ outbound (Conn (deref (store e') s))
       = [] ++ wire TypeErr (mkErrorMessage 500 "unknown message type: 5")
    /\ IsClosed (store e') s = false.
Proof.
  intros conn0 e s.
  destruct (unhandled_message_type_gets_an_error_frame Run.hmac Run.clock 2 s e
              (ReadMessage (Conn (deref (store e) s))).1
              (Run.frame TypeReport (Run.bytes "{}")))
    as (e' & Hl & Ho & _ & Hc & _).
  - vm_compute. reflexivity.
  - vm_compute. reflexivity.
  - vm_compute. reflexivity.
  - vm_compute. discriminate.
  - vm_compute. discriminate.
  - vm_compute. discriminate.
  - vm_compute. discriminate.
  - exists e'. split; [exact Hl|]. split; [exact Ho|exact Hc].
Defined.

Lemma second_Auth_closes_the_session_witness :
  let conn := Net.mkConn [] Net.AtEOF [] false in
  let A := mkSession "id-A" "SN123456" "A1" conn "10.0.0.1:1" 0 0 ∅ false in
  let w := Add (<[1%nat := A]> ∅, NewSessionManager) 1%nat in
  let e := mkEnv w.1 w.2 (authenticator Run.server) ACK.NewACKWaiter false 0 in
  IsClosed (store e) 1%nat = false
  /\ exists e',
       handleAuth Run.hmac Run.clock 1%nat
         (Run.frame TypeAuth Run.auth_good_payload) e = (e', Returns None)
       /\ IsClosed (store e') 1%nat = true
       /\ outbound (Conn (deref (store e') 1%nat)) = []
       /\ GetBySN (world e') "SN123456" = None.
Proof.
  intros conn A w e. split; [vm_compute; reflexivity|].
  destruct (second_Auth_closes_the_session Run.hmac Run.clock 1%nat
              (Run.frame TypeAuth Run.auth_good_payload) e Run.auth_good
              (VerifySignature Run.hmac (authenticator e) (Run.clock 0) (Run.clock 1)
                 "A1" "SN123456" 1700000000 "abc123" (auth_Sign Run.auth_good)).1)
    as (e' & Hh & Hc & Ho & _ & Hg & _).
  - vm_compute. reflexivity.
  - vm_compute. reflexivity.
  - split; vm_compute; reflexivity.
  - vm_compute. reflexivity.
  - vm_compute. discriminate.
  - exists e'. split; [exact Hh|]. split; [exact Hc|]. split; [exact Ho|exact Hg].
Defined.

End ServerFacts.

(* ===================================================================== *)
(** * Properties of the HTTP controllers *)
(* ===================================================================== *)

Module APIFacts.
Import Int Time Net Codec Security Sessions Server API.
Import SessionFacts ACKFacts.

Section DeviceController.
Variable Format : Time -> string.





End DeviceController.

Lemma GetBySN_open w sn s : GetBySN w sn = Some s -> IsClosed w.1 s = false.
Proof.
  destruct w as [h sm]. unfold GetBySN. cbn [fst].
  destruct (snToID sm !! sn) as [id|]; [|discriminate].
  destruct (sessions sm !! id) as [q|]; [|discriminate].
  destruct (IsClosed h q) eqn:Hc; [discriminate|]. intros [= <-]. exact Hc.
Qed.

Lemma mul64_small x y : is_int64 (x * y) -> mul64 x y = x * y.
Proof.
  unfold mul64, int64, is_int64, MinInt64, MaxInt64. intros Hr.
  rewrite Z.mod_small; lia.
Qed.

Lemma wait_timeout_positive t : 0 < wait_timeout t.
Proof.
  unfold wait_timeout. cbn zeta.
  destruct (mul64 t Millisecond <=? 0) eqn:E.
  - vm_compute. reflexivity.
  - apply Z.leb_gt in E. exact E.
Qed.

Lemma wait_timeout_given t :
  0 < t <= 9223372036854 -> wait_timeout t = t * Millisecond.
Proof.
  intros Ht. unfold wait_timeout. cbn zeta.
  rewrite mul64_small
    by (unfold is_int64, MinInt64, MaxInt64, Millisecond; lia).
  destruct (t * Millisecond <=? 0) eqn:E; [|reflexivity].
  apply Z.leb_le in E. unfold Millisecond in E. lia.
Qed.

Lemma wait_timeout_default t :
  - 9223372036854 <= t <= 0 -> wait_timeout t = 5 * Second.
Proof.
  intros Ht. unfold wait_timeout. cbn zeta.
  rewrite mul64_small
    by (unfold is_int64, MinInt64, MaxInt64, Millisecond; lia).
  destruct (t * Millisecond <=? 0) eqn:E; [reflexivity|].
  apply Z.leb_gt in E. unfold Millisecond in E. lia.
Qed.

Section MessageController.
Context {Args : Type} `{JSON (CommandMessage Args)}.
Variable Unmarshal_Args : list byte -> Args + error.

(** The request that goes through: the command frame is appended to
    the connection of the session found. *)
Lemma send_to_sends w sn req uuid s args data :
  sn <> "" ->
  GetBySN w sn = Some s ->
  Unmarshal_Args (req_Payload req) = inl args ->
  conn_closed (Conn (deref w.1 s)) = false ->
  MarshalPayload (mkCommandMessage uuid (MsgType req) args (TimeoutMS req))
  = inl data ->
  send_to Unmarshal_Args w sn (inl req) uuid
  = ((<[s := set_Conn (deref w.1 s)
               (mkConn (inbound (Conn (deref w.1 s)))
                       (inbound_end (Conn (deref w.1 s)))
                       (outbound (Conn (deref w.1 s))
                        ++ fullBuf (mkMessage ProtocolVersion TypeCMD data))
                       false)]> w.1, w.2),
     inr (mkCommandMessage uuid (MsgType req) args (TimeoutMS req))).
Proof.
  intros Hsn Hg Hu Hcc Hm. pose proof (GetBySN_open _ _ _ Hg) as Hc.
  unfold send_to. rewrite decide_False by exact Hsn. rewrite Hg, Hu.
  cbn zeta. unfold SendCommand, NewMessage. rewrite Hm.
  unfold SendMessage. unfold IsClosed in Hc. rewrite Hc.
  unfold WriteMessage, Net.Write. rewrite Hcc. reflexivity.
Qed.

(** X22.  [SendAsync] for a request that binds and names a serial
    number.  When [GetBySN] finds no session (none registered, or its
    session closed and not removed yet) the answer is 404 "device
    offline" and nothing is written; a payload that is not a JSON
    object is answered 400 with nothing written; otherwise exactly one
    CMD frame, carrying the new command id, the message type and the
    timeout of the request, is appended to the connection of the
    session found, no other session is touched, and the answer is 200
    with that command id. *)
Theorem SendAsync_sends_one_command_frame
    (w : World) (sn uuid : string) (req : SendMessageRequest) :
  sn <> "" ->
  (GetBySN w sn = None ->
   SendAsync Unmarshal_Args w sn (inl req) uuid
   = (w, (StatusNotFound, Failure "device offline")))
  /\ (forall s err,
        GetBySN w sn = Some s ->
        Unmarshal_Args (req_Payload req) = inr err ->
        SendAsync Unmarshal_Args w sn (inl req) uuid
        = (w, (StatusBadRequest, Failure ("invalid payload: " +:+ err))))
  /\ (forall s args,
        GetBySN w sn = Some s ->
        Unmarshal_Args (req_Payload req) = inl args ->
        conn_closed (Conn (deref w.1 s)) = false ->
        (exists data,
            MarshalPayload (mkCommandMessage uuid (MsgType req) args (TimeoutMS req))
            = inl data) ->
        exists h',
          SendAsync Unmarshal_Args w sn (inl req) uuid
          = ((h', w.2), (StatusOK, Sent uuid))
          /\ outbound (Conn (deref h' s))
             = outbound (Conn (deref w.1 s))
               ++ wire TypeCMD
                    (mkCommandMessage uuid (MsgType req) args (TimeoutMS req))
          /\ IsClosed h' s = false
          /\ (forall q, q <> s -> deref h' q = deref w.1 q)).
Proof.
  intros Hsn. split; [|split].
  - intros Hg. unfold SendAsync, send_to.
    rewrite decide_False by exact Hsn. rewrite Hg. reflexivity.
  - intros s err Hg Hu. unfold SendAsync, send_to.
    rewrite decide_False by exact Hsn. rewrite Hg, Hu. reflexivity.
  - intros s args Hg Hu Hcc [data Hm].
    pose proof (GetBySN_open _ _ _ Hg) as Hc.
    eexists. unfold SendAsync.
    rewrite (send_to_sends _ _ _ _ _ _ _ Hsn Hg Hu Hcc Hm).
    split; [reflexivity|].
    split; [rewrite deref_insert_eq; cbn; unfold wire, NewMessage; rewrite Hm;
            reflexivity|].
    split; [unfold IsClosed; rewrite deref_insert_eq; exact Hc|].
    intros q Hq. apply deref_insert_ne. congruence.
Qed.

(** X23.  [SendToDevice] sends first and waits afterwards.  For a
    request that goes through, the CMD frame is on the connection of
    the device before [Wait] is called for the new command id, with a
    timeout that is always positive: the milliseconds of the request
    when they are positive (and fit a [Duration]), five seconds when
    they are zero or negative.  Whatever [Wait] returns is answered 200
    with the ACK, or 504 with the timeout error; and if the ACK of the
    device was notified before [Wait] registered its slot, the answer
    can only be 504. *)
Theorem SendToDevice_sends_then_waits
    (w : World) (sn uuid : string) (req : SendMessageRequest)
    (s : ptr) (args : Args) :
  sn <> "" ->
  GetBySN w sn = Some s ->
  Unmarshal_Args (req_Payload req) = inl args ->
  conn_closed (Conn (deref w.1 s)) = false ->
  (exists data,
      MarshalPayload (mkCommandMessage uuid (MsgType req) args (TimeoutMS req))
      = inl data) ->
  (exists h',
      SendToDevice Unmarshal_Args w sn (inl req) uuid
      = ((h', w.2), inr (ACK.Wait_entry uuid (wait_timeout (TimeoutMS req))))
      /\ outbound (Conn (deref h' s))
         = outbound (Conn (deref w.1 s))
           ++ wire TypeCMD
                (mkCommandMessage uuid (MsgType req) args (TimeoutMS req)))
  /\ 0 < wait_timeout (TimeoutMS req)
  /\ (0 < TimeoutMS req <= 9223372036854 ->
      wait_timeout (TimeoutMS req) = TimeoutMS req * Millisecond)
  /\ (- 9223372036854 <= TimeoutMS req <= 0 ->
      wait_timeout (TimeoutMS req) = 5 * Second)
  /\ (forall v sh0 others sched st ack err,
        ACK.table_ok uuid sh0 ->
        Forall (ACK.apart_before uuid sh0) others ->
        ACK.exec (ACK.start uuid (wait_timeout (TimeoutMS req)) v sh0 others) sched
        = Some st ->
        st.2 !! 0%nat = Some (ACK.Wait_returned ack err) ->
        SendToDevice_reply uuid ack err = (StatusOK, Acked uuid v)
        \/ SendToDevice_reply uuid ack err
           = (StatusGatewayTimeout,
              Failure ("ack timeout: " +:+ ACK.timeout_error uuid)))
  /\ (forall sh0 others sched st ack err,
        ACK.table_ok uuid sh0 ->
        Forall (ACK.apart_before uuid sh0) others ->
        ACK.exec (sh0, ACK.Wait_entry uuid (wait_timeout (TimeoutMS req))
                       :: ACK.Notify_returned :: others) sched
        = Some st ->
        st.2 !! 0%nat = Some (ACK.Wait_returned ack err) ->
        SendToDevice_reply uuid ack err
        = (StatusGatewayTimeout,
           Failure ("ack timeout: " +:+ ACK.timeout_error uuid))).
Proof.
  intros Hsn Hg Hu Hcc [data Hm].
  split; [|split; [apply wait_timeout_positive|]].
  { eexists. unfold SendToDevice.
    rewrite (send_to_sends _ _ _ _ _ _ _ Hsn Hg Hu Hcc Hm).
    split; [reflexivity|].
    rewrite deref_insert_eq. cbn. unfold wire, NewMessage. rewrite Hm. reflexivity. }
  split; [apply wait_timeout_given|].
  split; [apply wait_timeout_default|].
  split.
  - intros v sh0 others sched st ack err Hok Hoth Hex Hret.
    destruct (waiter_returned uuid _ v sh0 others Hok Hoth sched st ack err Hex Hret)
      as [[[-> ->]|[-> ->]] _]; [left|right]; reflexivity.
  - intros sh0 others sched st ack err Hok Hoth Hex Hret.
    destruct (waiter_after_early_Notify _ _ _ _ _ _ _ _ Hok Hoth Hex Hret)
      as [-> ->].
    reflexivity.
Qed.

End MessageController.


Lemma SendAsync_sends_one_command_frame_witness :
  SendAsync RunAPI.Unmarshal_Args RunAPI.devices "SN777" (inl RunAPI.open_web) "cmd-1"
  = (RunAPI.devices, (StatusNotFound, Failure "device offline"))
  /\ exists h',
       SendAsync RunAPI.Unmarshal_Args RunAPI.devices "SN123456"
                 (inl RunAPI.open_web) "cmd-1"
       = ((h', RunAPI.devices.2), (StatusOK, Sent "cmd-1"))
       /\ outbound (Conn (deref h' 1%nat))
          = [] ++ wire TypeCMD (mkCommandMessage (Args := RunAPI.Args)
                                  "cmd-1" "OPEN_WEB" ∅ 3000).
Proof.
  split.
  - destruct (SendAsync_sends_one_command_frame RunAPI.Unmarshal_Args RunAPI.devices
                "SN777" "cmd-1" RunAPI.open_web) as (Hoff & _).
    + discriminate.
    + apply Hoff. vm_compute. reflexivity.
  - destruct (SendAsync_sends_one_command_frame RunAPI.Unmarshal_Args RunAPI.devices
                "SN123456" "cmd-1" RunAPI.open_web) as (_ & _ & Hok).
    + discriminate.
    + destruct (Hok 1%nat ∅) as (h' & Hs & Ho & _).
      * vm_compute. reflexivity.
      * vm_compute. reflexivity.
      * vm_compute. reflexivity.
      * eexists. reflexivity.
      * exists h'. split; [exact Hs|exact Ho].
Defined.

Lemma SendToDevice_sends_then_waits_witness :
  (exists h',
      SendToDevice RunAPI.Unmarshal_Args RunAPI.devices "SN123456"
                   (inl RunAPI.open_web) "cmd-1"
      = ((h', RunAPI.devices.2), inr (ACK.Wait_entry "cmd-1" (3 * Second)))
      /\ outbound (Conn (deref h' 1%nat))
         = [] ++ wire TypeCMD (mkCommandMessage (Args := RunAPI.Args)
                                 "cmd-1" "OPEN_WEB" ∅ 3000))
  /\ 0 < wait_timeout 3000.
Proof.
  destruct (SendToDevice_sends_then_waits RunAPI.Unmarshal_Args RunAPI.devices
              "SN123456" "cmd-1" RunAPI.open_web 1%nat ∅)
    as (Hsend & Hpos & _).
  - discriminate.
  - vm_compute. reflexivity.
  - vm_compute. reflexivity.
  - vm_compute. reflexivity.
  - eexists. reflexivity.
  - split; [exact Hsend|exact Hpos].
Defined.

End APIFacts.

(* ===================================================================== *)
(** * Properties of the device client *)
(* ===================================================================== *)

Module ClientFacts.
Import Int Time Net Codec Security Sessions Server Netclient.
Import CodecFacts SecurityFacts SessionFacts ServerFacts APIFacts.

(** ** The reconnect backoff *)

Lemma next_backoff_min b M :
  0 <= b <= 4611686018427000000 -> 0 <= M ->
  next_backoff b M = Z.min (2 * b) M.
Proof.
  intros Hb HM. unfold next_backoff. cbn zeta.
  rewrite mul64_small by (unfold is_int64, MinInt64, MaxInt64; lia).
  destruct (M <? b * 2) eqn:E.
  - apply Z.ltb_lt in E. lia.
  - apply Z.ltb_ge in E. lia.
Qed.

Lemma backoff_after_bounds cfg n :
  0 <= MinMS cfg <= 4611686018427 -> 0 <= MaxMS cfg <= 4611686018427 ->
  0 <= backoff_after cfg n <= Z.max (MinMS cfg * Millisecond) (MaxMS cfg * Millisecond).
Proof.
  intros Hmin Hmax. induction n as [|n IH]; cbn [backoff_after].
  - rewrite mul64_small
      by (unfold is_int64, MinInt64, MaxInt64, Millisecond; lia).
    unfold Millisecond. lia.
  - rewrite (mul64_small (MaxMS cfg))
      by (unfold is_int64, MinInt64, MaxInt64, Millisecond; lia).
    rewrite next_backoff_min; unfold Millisecond in *; lia.
Qed.

(** X24.  The reconnect backoff, for a minimum and a maximum between 0
    and 4611686018427 ms (so that no doubling wraps).  The first wait is
    the minimum, even when that is above the maximum; after [n+1] failed
    connects in a row the backoff is the minimum doubled [n+1] times,
    capped at the maximum.  With a minimum of 0 the backoff stays 0:
    the client retries without waiting. *)
Theorem backoff_doubles_up_to_the_maximum (cfg : ReconnectConfig) (n : nat) :
  0 <= MinMS cfg <= 4611686018427 ->
  0 <= MaxMS cfg <= 4611686018427 ->
  backoff_after cfg 0 = MinMS cfg * Millisecond
  /\ backoff_after cfg (S n)
     = Z.min (MinMS cfg * 2 ^ Z.of_nat (S n) * Millisecond) (MaxMS cfg * Millisecond)
  /\ (MinMS cfg = 0 -> backoff_after cfg n = 0).
Proof.
  intros Hmin Hmax.
  assert (H0 : backoff_after cfg 0 = MinMS cfg * Millisecond).
  { cbn [backoff_after]. apply mul64_small.
    unfold is_int64, MinInt64, MaxInt64, Millisecond. lia. }
  assert (HM : mul64 (MaxMS cfg) Millisecond = MaxMS cfg * Millisecond).
  { apply mul64_small. unfold is_int64, MinInt64, MaxInt64, Millisecond. lia. }
  split; [exact H0|]. split.
  - induction n as [|n IH].
    + cbn [backoff_after] in *. rewrite HM, H0.
      rewrite next_backoff_min by (unfold Millisecond; lia).
      change (2 ^ Z.of_nat 1) with 2. unfold Millisecond. lia.
    + change (backoff_after cfg (S (S n)))
        with (next_backoff (backoff_after cfg (S n)) (mul64 (MaxMS cfg) Millisecond)).
      rewrite HM.
      pose proof (backoff_after_bounds cfg (S n) Hmin Hmax) as Hb.
      rewrite next_backoff_min by (unfold Millisecond in *; lia).
      rewrite IH.
      replace (2 ^ Z.of_nat (S (S n))) with (2 * 2 ^ Z.of_nat (S n))
        by (rewrite (Nat2Z.inj_succ (S n)), Z.pow_succ_r by lia; reflexivity).
      assert (Hp : 0 < 2 ^ Z.of_nat (S n)) by (apply Z.pow_pos_nonneg; lia).
      unfold Millisecond. nia.
  - intros Hz. induction n as [|n IH].
    + rewrite H0, Hz. reflexivity.
    + cbn [backoff_after]. rewrite IH, HM.
      rewrite next_backoff_min by (unfold Millisecond; lia).
      unfold Millisecond. lia.
Qed.

Lemma backoff_doubles_up_to_the_maximum_witness :
  let cfg := mkReconnectConfig 500 15000 in
  backoff_after cfg 0 = 500 * Millisecond
  /\ backoff_after cfg 5 = Z.min (500 * 2 ^ 5 * Millisecond) (15000 * Millisecond)
  /\ backoff_after cfg 5 = 15000 * Millisecond.
Proof.
  intros cfg.
  destruct (backoff_doubles_up_to_the_maximum cfg 4) as (H0 & H5 & _).
  - cbn. lia.
  - cbn. lia.
  - split; [exact H0|]. split; [exact H5|]. vm_compute. reflexivity.
Defined.

(** ** The handshake *)

(** [Add] leaves a session alone that the manager does not hold yet. *)
Lemma Add_unheld w s :
  (forall id, sessions w.2 !! id <> Some s) -> deref (Add w s).1 s = deref w.1 s.
Proof.
  destruct w as [h sm]. cbn [fst snd]. intros Hun.
  destruct (decide (SN (deref h s) = "")) as [E|E].
  - rewrite Add_empty_SN by assumption. reflexivity.
  - destruct (holder (h, sm) (SN (deref h s))) as [[oldID old]|] eqn:Hh.
    + rewrite (Add_evicts _ _ _ _ _ E Hh). cbn [fst]. apply Close_other.
      intros ->. unfold holder in Hh. cbn [snd] in Hh.
      destruct (snToID sm !! SN (deref h s)) as [o|]; [|discriminate].
      destruct (sessions sm !! o) as [p|] eqn:Ep; [|discriminate].
      injection Hh as -> ->. apply (Hun _ Ep).
    + rewrite (Add_no_holder _ _ _ E Hh). reflexivity.
Qed.

Section Exchanges.
Variable hmac_sha256_hex : string -> string -> string.
Variable clock : nat -> Time.
Context `{JSON AuthMessage} `{JSON AuthOKMessage} `{JSON PingMessage}
        `{JSON PongMessage} `{JSON ErrorMessage} `{JSON ACK.ACKMessage}.

(** What [handleAuth] does with a tuple that verifies. *)
Lemma handleAuth_accepts s msg e auth a :
  UnmarshalPayload (Payload msg) = inl auth ->
  VerifySignature hmac_sha256_hex (authenticator e)
    (clock (ticks e)) (clock (S (ticks e)))
    (auth_AppID auth) (auth_SN auth) (auth_TS auth)
    (auth_Nonce auth) (auth_Sign auth) = (a, None) ->
  let h1 := <[s := set_auth (deref (store e) s) (auth_SN auth)
                            (auth_AppID auth) (auth_Meta auth)]> (store e) in
  handleAuth hmac_sha256_hex clock s msg e
  = (sendAuthResult
       (set_world
          (mkEnv h1 (sessionManager e) a (ackWaiter e) (shutdown e) (S (S (ticks e))))
          (Add (h1, sessionManager e) s))
       s true "authenticated",
     Returns None).
Proof.
  intros Hu Hv h1. unfold handleAuth. rewrite Hu. cbn [time_Now]. cbn beta iota zeta.
  cbn [authenticator ticks set_store store sessionManager ackWaiter shutdown].
  rewrite Hv. reflexivity.
Qed.

(** X25.  The handshake of a new connection goes through.  The client
    signs its appid, its serial number, the second it reads and a nonce
    of its own with its key.  If the server holds that key for that
    appid, has not seen the nonce and reads a clock no further than its
    window from the client's, and the two payloads fit a frame and
    survive the JSON codec, then the reader of the server, given the
    frame [authenticate] writes, puts the session under the client's
    serial number and appid into the manager, answers
    AuthOK{true, "authenticated"} and goes round its loop, after which
    [GetBySN] of a non-empty serial number finds this session; and
    [authenticate], reading that answer, returns nil. *)
Theorem handshake_succeeds
    (c : Client) (nonce : list byte) (now : Time) (cc : Net.Conn)
    (fuel : nat) (s : ptr) (e : Env) (data okdata rest : list byte) :
  let cfg := config c in
  let auth := auth_request hmac_sha256_hex cfg nonce now in
  let authOK := mkAuthOKMessage true "authenticated" in
  let request := fullBuf (mkMessage ProtocolVersion TypeAuth data) in
  let answer := fullBuf (mkMessage ProtocolVersion TypeAuthOK okdata) in
  (* the JSON codec on the two payloads *)
  MarshalPayload auth = inl data ->
  UnmarshalPayload data = inl auth ->
  2 + Z.of_nat (length data) <= MaxMessageSize ->
  MarshalPayload authOK = inl okdata ->
  UnmarshalPayload okdata = inl authOK ->
  2 + Z.of_nat (length okdata) <= MaxMessageSize ->
  (* the server: running, with the key, a fresh nonce, a close clock *)
  shutdown e = false ->
  IsClosed (store e) s = false ->
  (forall id, sessions (sessionManager e) !! id <> Some s) ->
  keys (authenticator e) !! cfg_AppID cfg = Some (Key cfg) ->
  HasNonce (nonceStore (authenticator e)) (hex_EncodeToString nonce) = false ->
  timeWindowSec (authenticator e) <= MaxInt64 ->
  Z.abs (Unix (clock (ticks e)) - Unix now) <= timeWindowSec (authenticator e) ->
  (* the wire: each side reads what the other one writes *)
  conn c = Some cc ->
  conn_closed cc = false ->
  conn_closed (Conn (deref (store e) s)) = false ->
  inbound (Conn (deref (store e) s)) = request ++ rest ->
  inbound cc = answer ->
  (exists e',
      readLoop (registerDefaultHandlers hmac_sha256_hex clock) (S fuel) s e
      = readLoop (registerDefaultHandlers hmac_sha256_hex clock) fuel s e'
      /\ Get (world e') (ID (deref (store e) s)) = Some s
      /\ SN (deref (store e') s) = cfg_SN cfg
      /\ AppID (deref (store e') s) = cfg_AppID cfg
      /\ IsClosed (store e') s = false
      /\ outbound (Conn (deref (store e') s))
         = outbound (Conn (deref (store e) s)) ++ answer
      /\ inbound (Conn (deref (store e') s)) = rest
      /\ (cfg_SN cfg <> "" -> GetBySN (world e') (cfg_SN cfg) = Some s))
  /\ (exists cc',
        authenticate hmac_sha256_hex c (inl nonce) now
        = (set_conn c (Some cc'), None)
        /\ outbound cc' = outbound cc ++ request
        /\ inbound cc' = []).
Proof.
  intros cfg auth authOK request answer Hm Hu Hsz Hmok Huok Hszok Hsd Hc Hun Hk Hn HW
         Hwin Hconn Hcc Hcs Hin Hincc.
  split.
  - (* the server *)
    set (cs := Conn (deref (store e) s)) in *.
    assert (Hread : ReadMessage cs
                    = (set_inbound cs rest,
                       inl (mkMessage ProtocolVersion TypeAuth data))).
    { apply ReadMessage_fullBuf; [exact Hcs|exact Hin|reflexivity|exact Hsz]. }
    set (e1 := set_store e (<[s := set_Conn (deref (store e) s) (set_inbound cs rest)]>
                              (store e))).
    assert (Hts : verifyTimestamp (authenticator e) (clock (ticks e)) (Unix now) = None).
    { apply verifyTimestamp_in_range; [|exact Hwin].
      unfold MaxInt64 in HW. lia. }
    destruct (VerifySignature hmac_sha256_hex (authenticator e1)
                (clock (ticks e1)) (clock (S (ticks e1)))
                (auth_AppID auth) (auth_SN auth) (auth_TS auth)
                (auth_Nonce auth) (auth_Sign auth)) as [a verr] eqn:Hv.
    assert (Hverr : verr = None).
    { pose proof (VerifySignature_valid hmac_sha256_hex (authenticator e)
                    (clock (ticks e)) (clock (S (ticks e)))
                    (cfg_AppID cfg) (cfg_SN cfg) (Unix now)
                    (hex_EncodeToString nonce) (Key cfg) Hk Hn) as Hvalid.
      subst e1. cbn [authenticator ticks set_store] in Hv.
      subst auth. unfold auth_request in Hv.
      cbn [auth_AppID auth_SN auth_TS auth_Nonce auth_Sign] in Hv.
      unfold GenerateSignature in Hv. rewrite Hv in Hvalid.
      cbn [snd] in Hvalid. congruence. }
    subst verr.
    pose proof (handleAuth_accepts s (mkMessage ProtocolVersion TypeAuth data)
                  e1 auth a Hu Hv) as Hh.
    cbn zeta in Hh.
    set (h1 := <[s := set_auth (deref (store e1) s) (auth_SN auth)
                               (auth_AppID auth) (auth_Meta auth)]> (store e1)) in Hh.
    set (e2 := set_world _ (Add (h1, sessionManager e1) s)) in Hh.
    assert (Hun1 : forall id, sessions (h1, sessionManager e1).2 !! id <> Some s).
    { subst e1. cbn. exact Hun. }
    pose proof (Add_unheld _ _ Hun1) as Hsame. cbn [fst] in Hsame.
    assert (Hd1 : deref h1 s
                  = set_auth (set_Conn (deref (store e) s) (set_inbound cs rest))
                             (cfg_SN cfg) (cfg_AppID cfg) (auth_Meta auth)).
    { subst h1 e1. cbn [store set_store]. rewrite !deref_insert_eq. reflexivity. }
    assert (Hd2 : deref (store e2) s = deref h1 s).
    { subst e2. cbn [store set_world fst]. exact Hsame. }
    assert (H2c : closed (deref (store e2) s) = false).
    { rewrite Hd2, Hd1. cbn. exact Hc. }
    assert (H2cc : conn_closed (Conn (deref (store e2) s)) = false).
    { rewrite Hd2, Hd1. cbn. exact Hcs. }
    set (e3 := sendAuthResult e2 s true "authenticated").
    pose proof (sendAuthResult_keeps e2 s true "authenticated") as [Hk3 _].
    fold e3 in Hk3.
    assert (Hd3 : deref (store e3) s
                  = set_Conn (deref (store e2) s)
                      (mkConn rest (inbound_end cs) (outbound cs ++ answer) false)).
    { subst e3. unfold sendAuthResult, send_logged, NewMessage. fold authOK.
      rewrite Hmok. unfold SendMessage. rewrite H2c.
      unfold WriteMessage, Net.Write. rewrite H2cc.
      cbn [fst store set_store]. rewrite deref_insert_eq.
      rewrite Hd2, Hd1. reflexivity. }
    assert (Hheld : sessions (sessionManager e3) !! ID (deref (store e) s) = Some s).
    { pose proof (Add_registers (h1, sessionManager e1) s) as Hreg.
      cbn [fst] in Hreg. rewrite Hd1 in Hreg. cbn [ID set_auth set_Conn] in Hreg.
      rewrite Hk3. subst e2. cbn [sessionManager set_world]. exact Hreg. }
    assert (Hopen : IsClosed (store e3) s = false).
    { unfold IsClosed. rewrite Hd3, Hd2, Hd1. exact Hc. }
    exists e3.
    split.
    { cbn [readLoop]. rewrite Hsd, Hc. fold cs. rewrite Hread. fold e1.
      unfold handleMessage. cbn [Type_].
      match goal with |- context [?m !! TypeAuth] =>
        change (m !! TypeAuth) with (Some (handleAuth hmac_sha256_hex clock)) end.
      cbn beta iota. rewrite Hh. reflexivity. }
    split; [exact Hheld|].
    split; [rewrite Hd3, Hd2, Hd1; reflexivity|].
    split; [rewrite Hd3, Hd2, Hd1; reflexivity|].
    split; [exact Hopen|].
    split; [rewrite Hd3; reflexivity|].
    split; [rewrite Hd3; reflexivity|].
    intros Hne. unfold GetBySN, world.
    assert (Hidx : snToID (sessionManager e3) !! cfg_SN cfg
                   = Some (ID (deref (store e) s))).
    { pose proof (Add_indexes (h1, sessionManager e1) s) as Hi.
      cbn [fst] in Hi. rewrite Hd1 in Hi. cbn [ID SN set_auth set_Conn] in Hi.
      rewrite Hk3. subst e2. cbn [sessionManager set_world]. exact (Hi Hne). }
    rewrite Hidx, Hheld, Hopen. reflexivity.
  - (* the client *)
    unfold authenticate. fold cfg. fold auth.
    unfold NewMessage. rewrite Hm. unfold sendMessage. rewrite Hconn.
    unfold WriteMessage, Net.Write. rewrite Hcc. cbn beta iota zeta.
    cbn [conn set_conn].
    set (cc1 := mkConn (inbound cc) (inbound_end cc) (outbound cc ++ request) false).
    assert (Hr : ReadMessage cc1
                 = (set_inbound cc1 [],
                    inl (mkMessage ProtocolVersion TypeAuthOK okdata))).
    { apply ReadMessage_fullBuf; [reflexivity| |reflexivity|exact Hszok].
      subst cc1. cbn [inbound]. rewrite Hincc, app_nil_r. reflexivity. }
    fold request. fold cc1. rewrite Hr. cbn [Type_ Payload].
    rewrite decide_False by (intros Hne; apply Hne; reflexivity).
    rewrite Huok. cbn [Success negb authOK].
    exists (set_inbound cc1 []). split; [reflexivity|]. split; reflexivity.
Qed.

(** X26.  An ACK of the device reaches the waiter of its command,
    whatever session carries it.  [SendACK] writes one ACK frame; the
    reader of the server, given that frame on any open session (the
    handler asks neither that the session has authenticated nor that
    the command went to it), notifies the channel registered for the
    command and goes round its loop; the [Wait] standing at its select
    then receives this very ACK, unregisters the command and returns it
    with a nil error. *)
Theorem device_ACK_reaches_the_waiter
    (c : Client) (cc : Net.Conn) (cmdID status detail : string)
    (fuel : nat) (s : ptr) (e : Env) (data rest : list byte) (ch : ACK.chan) :
  let ack := ACK.mkACKMessage cmdID status detail in
  let frame := fullBuf (mkMessage ProtocolVersion TypeACK data) in
  MarshalPayload ack = inl data ->
  UnmarshalPayload data = inl ack ->
  2 + Z.of_nat (length data) <= MaxMessageSize ->
  conn c = Some cc ->
  conn_closed cc = false ->
  shutdown e = false ->
  IsClosed (store e) s = false ->
  conn_closed (Conn (deref (store e) s)) = false ->
  inbound (Conn (deref (store e) s)) = frame ++ rest ->
  ACK.locked (ackWaiter e) = false ->
  ACK.waiters (ackWaiter e) !! cmdID = Some ch ->
  ACK.chans (ackWaiter e) !! ch = Some (ACK.mkChan [] false) ->
  (exists cc',
      SendACK c cmdID status detail = (set_conn c (Some cc'), None)
      /\ outbound cc' = outbound cc ++ frame)
  /\ (exists e' sh sh',
        readLoop (registerDefaultHandlers hmac_sha256_hex clock) (S fuel) s e
        = readLoop (registerDefaultHandlers hmac_sha256_hex clock) fuel s e'
        /\ ACK.Wait_receive (ackWaiter e') cmdID ch
           = Some (sh, ACK.Wait_deferred cmdID ch (Some ack) None)
        /\ ACK.Wait_cleanup sh cmdID ch (Some ack) None
           = Some (sh', ACK.Wait_returned (Some ack) None)
        /\ ACK.waiters sh' !! cmdID = None).
Proof.
  intros ack frame Hm Hu Hsz Hconn Hcc Hsd Hc Hcs Hin Hl Hw Hch.
  split.
  - unfold SendACK, NewMessage. fold ack. rewrite Hm.
    unfold sendMessage. rewrite Hconn. unfold WriteMessage, Net.Write. rewrite Hcc.
    eexists. split; reflexivity.
  - set (cs := Conn (deref (store e) s)) in *.
    assert (Hread : ReadMessage cs
                    = (set_inbound cs rest,
                       inl (mkMessage ProtocolVersion TypeACK data))).
    { apply ReadMessage_fullBuf; [exact Hcs|exact Hin|reflexivity|exact Hsz]. }
    set (e1 := set_store e (<[s := set_Conn (deref (store e) s) (set_inbound cs rest)]>
                              (store e))).
    set (aw := ACK.mkShared (ACK.waiters (ackWaiter e)) (ACK.locked (ackWaiter e))
                 (<[ch := ACK.mkChan [Some ack] false]> (ACK.chans (ackWaiter e)))).
    assert (Hn : ACK.Notify (ackWaiter e1) cmdID (Some ack)
                 = Some (aw, ACK.Notify_returned)).
    { subst e1. cbn [ackWaiter set_store].
      unfold ACK.Notify, ACK.Notify_lookup. rewrite Hl, Hw.
      unfold ACK.Notify_deliver. rewrite Hch. reflexivity. }
    exists (mkEnv (store e1) (sessionManager e1) (authenticator e1) aw
                  (shutdown e1) (ticks e1)).
    eexists. eexists.
    split.
    { cbn [readLoop]. rewrite Hsd, Hc. fold cs. rewrite Hread. fold e1.
      unfold handleMessage. cbn [Type_].
      match goal with |- context [?m !! TypeACK] =>
        change (m !! TypeACK) with (Some handleACK) end.
      cbn beta iota. unfold handleACK. cbn [Payload]. rewrite Hu.
      cbn [ACK.CmdID ack]. fold ack. rewrite Hn. reflexivity. }
    cbn [ackWaiter]. subst aw.
    split.
    { unfold ACK.Wait_receive. cbn [ACK.chans]. rewrite lookup_insert_eq.
      cbn [ACK.buffer]. reflexivity. }
    split.
    { unfold ACK.Wait_cleanup. cbn [ACK.locked ACK.chans]. rewrite Hl.
      rewrite lookup_insert_eq. cbn [ACK.chan_closed]. reflexivity. }
    cbn [ACK.waiters]. apply lookup_delete_eq.
Qed.

End Exchanges.

Lemma handshake_succeeds_witness :
  let e := RunClient.gateway.1 in
  let s := RunClient.gateway.2 in
  GetBySN (world e) "SN123456" = None
  /\ (exists e',
        readLoop RunClient.handlers 8 s e
        = readLoop RunClient.handlers 7 s e'
        /\ GetBySN (world e') "SN123456" = Some s
        /\ AppID (deref (store e') s) = "A1")
  /\ (@authenticate Run.hmac RunClient.JSON_Auth RunClient.JSON_AuthOK
        RunClient.device (inl RunClient.nonce) RunClient.now).2 = None.
Proof.
  intros e s. split; [vm_compute; reflexivity|].
  destruct (@handshake_succeeds Run.hmac Run.clock
              RunClient.JSON_Auth RunClient.JSON_AuthOK Run.JSON_Ping Run.JSON_Pong
              Run.JSON_Error RunClient.JSON_ACK
              RunClient.device RunClient.nonce RunClient.now
              (Run.conn_with
                 [Run.frame TypeAuthOK (Run.bytes "authok:true:authenticated")])
              7%nat s e
              (RunClient.encode_auth RunClient.request)
              (Run.bytes "authok:true:authenticated") [])
    as [(e' & Hloop & _ & _ & Happ & _ & _ & _ & Hget) (cc' & Hauth & _)].
  - vm_compute. reflexivity.
  - vm_compute. reflexivity.
  - vm_compute. discriminate.
  - vm_compute. reflexivity.
  - vm_compute. reflexivity.
  - vm_compute. discriminate.
  - vm_compute. reflexivity.
  - vm_compute. reflexivity.
  - intros id. vm_compute. discriminate.
  - vm_compute. reflexivity.
  - vm_compute. reflexivity.
  - vm_compute. discriminate.
  - vm_compute. discriminate.
  - vm_compute. reflexivity.
  - vm_compute. reflexivity.
  - vm_compute. reflexivity.
  - vm_compute. reflexivity.
  - vm_compute. reflexivity.
  - split.
    + exists e'. split; [exact Hloop|]. split; [apply Hget; discriminate|exact Happ].
    + rewrite Hauth. reflexivity.
Defined.

Lemma device_ACK_reaches_the_waiter_witness :
  let e := RunClient.waiting.1 in
  let s := RunClient.waiting.2 in
  let ch := fresh (dom (∅ : gmap ACK.chan ACK.Chan)) in
  SN (deref (store e) s) = ""
  /\ ACK.waiters (ackWaiter e) !! "cmd-1" = Some ch
  /\ (@SendACK RunClient.JSON_ACK RunClient.connected_device "cmd-1" "ok" "done").2 = None
  /\ exists e' sh sh',
       readLoop RunClient.handlers 8 s e = readLoop RunClient.handlers 7 s e'
       /\ ACK.Wait_receive (ackWaiter e') "cmd-1" ch
          = Some (sh, ACK.Wait_deferred "cmd-1" ch (Some RunClient.done) None)
       /\ ACK.Wait_cleanup sh "cmd-1" ch (Some RunClient.done) None
          = Some (sh', ACK.Wait_returned (Some RunClient.done) None).
Proof.
  intros e s ch.
  split; [vm_compute; reflexivity|]. split; [vm_compute; reflexivity|].
  destruct (@device_ACK_reaches_the_waiter Run.hmac Run.clock
              RunClient.JSON_Auth RunClient.JSON_AuthOK Run.JSON_Ping Run.JSON_Pong
              Run.JSON_Error RunClient.JSON_ACK
              RunClient.connected_device (Run.conn_with []) "cmd-1" "ok" "done"
              7%nat s e (RunClient.encode_ack RunClient.done) [] ch)
    as [(cc' & Hsend & _) (e' & sh & sh' & Hloop & Hrecv & Hclean & _)].
  - vm_compute. reflexivity.
  - vm_compute. reflexivity.
  - vm_compute. discriminate.
  - vm_compute. reflexivity.
  - vm_compute. reflexivity.
  - vm_compute. reflexivity.
  - vm_compute. reflexivity.
  - vm_compute. reflexivity.
  - vm_compute. reflexivity.
  - vm_compute. reflexivity.
  - vm_compute. reflexivity.
  - vm_compute. reflexivity.
  - split.
    + rewrite Hsend. reflexivity.
    + exists e', sh, sh'. split; [exact Hloop|]. split; [exact Hrecv|exact Hclean].
Defined.

End ClientFacts.
